(** * m3u8dl: playlist parsing, path mapping, rewriting and crawl dedup

    A shallow embedding of the core of the m3u8dl downloader
    (packages [cmd], [downloader] and [filesystem]) together with the
    parts of the Go standard library it calls ([strings], [path],
    [path/filepath], [bufio], [net/url], [crypto/sha256], [time]),
    followed by the theorems that settle the specification's claims
    against that code and by further properties of the code.

    Conventions.
    - The standard library is modelled as of Go 1.25, the version the
      repository asks for.
    - A Go [string] is a sequence of bytes: [string] of 8-bit [ascii].
    - A Go [(T, error)] result is a [result T]; a panic is an [outcome].
    - [path/filepath] is modelled for a Unix host (separator [/], no
      volume names), where [FromSlash] and [ToSlash] are the identity.
    - The mutex-protected maps of [FileSystem] and [Downloader] are
      [gmap]s; a method that holds the lock for its whole body is one
      atomic state transformer.
    - An [int] is 64 bits wide, as an [int64]; a [time.Duration] is a
      number of nanoseconds. *)

From Stdlib Require Import ZArith NArith String Ascii List Lia.
From Stdlib Require Import DecimalString DecimalNat.
From stdpp Require Import base option list gmap strings.

Local Open Scope string_scope.

(** ** Errors, results, panics *)

Inductive error : Type :=
| ErrTooLong                          (* bufio.ErrTooLong *)
| UrlError (detail : string)          (* *url.Error from url.Parse *)
| RelError (targpath basepath : string) (* filepath.Rel: can't make relative *)
| Wrapped (msg : string) (cause : error). (* fmt.Errorf("...: %w", err) *)

Inductive result (A : Type) : Type :=
| Ok (a : A)
| Err (e : error).
Arguments Ok {A} a.
Arguments Err {A} e.

Definition isOk {A} (r : result A) : bool :=
  match r with Ok _ => true | Err _ => false end.

Inductive outcome (A : Type) : Type :=
| Ret (a : A)
| Panic (value : error).   (* the panic value, a formatted message *)
Arguments Ret {A} a.
Arguments Panic {A} value.

(** ** Bytes *)

Definition dquote : string := String "034"%char "".
Definition nl : string := String "010"%char "".
Definition cr : string := String "013"%char "".

Definition byteIn (lo hi c : ascii) : bool :=
  (N_of_ascii lo <=? N_of_ascii c)%N && (N_of_ascii c <=? N_of_ascii hi)%N.

Definition isLower (c : ascii) : bool := byteIn "a" "z" c.
Definition isUpper (c : ascii) : bool := byteIn "A" "Z" c.
Definition isDigit (c : ascii) : bool := byteIn "0" "9" c.
Definition isAlnum (c : ascii) : bool := isLower c || isUpper c || isDigit c.

Definition byteOneOf (c : ascii) (set : string) : bool :=
  existsb (Ascii.eqb c) (list_ascii_of_string set).

(** ** Package [strings] *)

Module GoStrings.

(** [s[:n]] and [s[n:]]; the source only slices within range. *)
Fixpoint take (n : nat) (s : string) : string :=
  match n, s with
  | S n', String a s' => String a (take n' s')
  | _, _ => ""
  end.

Fixpoint drop (n : nat) (s : string) : string :=
  match n, s with
  | S n', String _ s' => drop n' s'
  | _, _ => s
  end.

Fixpoint HasPrefix (s prefix : string) {struct prefix} : bool :=
  match prefix, s with
  | EmptyString, _ => true
  | String a p', String b s' => Ascii.eqb a b && HasPrefix s' p'
  | String _ _, EmptyString => false
  end.

Definition HasSuffix (s suffix : string) : bool :=
  (String.length suffix <=? String.length s)%nat
  && String.eqb (drop (String.length s - String.length suffix) s) suffix.

(** [strings.Index]: [None] stands for Go's [-1]. *)
Fixpoint Index (s substr : string) : option nat :=
  if HasPrefix s substr then Some 0%nat
  else match s with
       | EmptyString => None
       | String _ s' => option_map S (Index s' substr)
       end.

Fixpoint LastIndex (s substr : string) : option nat :=
  match s with
  | EmptyString => if HasPrefix s substr then Some 0%nat else None
  | String _ s' =>
      match LastIndex s' substr with
      | Some i => Some (S i)
      | None => if HasPrefix s substr then Some 0%nat else None
      end
  end.

Definition Contains (s substr : string) : bool :=
  match Index s substr with Some _ => true | None => false end.

(** [strings.Cut]: before, after, found. *)
Definition Cut (s sep : string) : string * string * bool :=
  match Index s sep with
  | Some i => (take i s, drop (i + String.length sep) s, true)
  | None => (s, "", false)
  end.

(** [strings.Count] for a one-byte separator (the only use here). *)
Fixpoint CountByte (s : string) (c : ascii) : nat :=
  match s with
  | EmptyString => 0
  | String a s' => (if Ascii.eqb a c then 1 else 0) + CountByte s' c
  end.

Definition TrimPrefix (s prefix : string) : string :=
  if HasPrefix s prefix then drop (String.length prefix) s else s.

Definition TrimSuffix (s suffix : string) : string :=
  if HasSuffix s suffix
  then take (String.length s - String.length suffix) s
  else s.

(** [strings.ToLower]. ASCII letters are mapped; bytes of non-ASCII
    runes are kept (Go maps those runes through the Unicode tables). *)
Definition lowerByte (c : ascii) : ascii :=
  if isUpper c then ascii_of_N (N_of_ascii c + 32) else c.

Fixpoint ToLower (s : string) : string :=
  match s with
  | EmptyString => EmptyString
  | String a s' => String (lowerByte a) (ToLower s')
  end.

Fixpoint rev (s : string) : string :=
  match s with
  | EmptyString => EmptyString
  | String a s' => rev s' +:+ String a ""
  end.

(** [unicode.IsSpace] runes in UTF-8: the six ASCII ones, U+0085,
    U+00A0, U+1680, U+2000..U+200A, U+2028, U+2029, U+202F, U+205F,
    U+3000. *)
Definition bytes (l : list nat) : string :=
  string_of_list_ascii (map ascii_of_nat l).

Definition spaceRunes : list string :=
  map bytes
    ([ [9]; [10]; [11]; [12]; [13]; [32];
       [194; 133]; [194; 160]; [225; 154; 128] ]
     ++ map (fun k => [226; 128; 128 + k]) (seq 0 11)
     ++ [ [226; 128; 168]; [226; 128; 169]; [226; 128; 175];
          [226; 129; 159]; [227; 128; 128] ])%list.

Definition leadingSpace (runes : list string) (s : string) : option nat :=
  String.length <$> List.find (HasPrefix s) runes.

Fixpoint trimLeftRunes (fuel : nat) (runes : list string) (s : string) : string :=
  match fuel with
  | O => s
  | S fuel' =>
      match leadingSpace runes s with
      | Some w => trimLeftRunes fuel' runes (drop w s)
      | None => s
      end
  end.

Definition TrimLeftSpace (s : string) : string :=
  trimLeftRunes (String.length s) spaceRunes s.

Definition TrimRightSpace (s : string) : string :=
  rev (trimLeftRunes (String.length s) (map rev spaceRunes) (rev s)).

Definition TrimSpace (s : string) : string :=
  TrimRightSpace (TrimLeftSpace s).

Fixpoint Join (elems : list string) (sep : string) : string :=
  match elems with
  | [] => ""
  | [x] => x
  | x :: rest => x +:+ sep +:+ Join rest sep
  end.

(** Split on one byte, as [strings.Split(s, "/")]. *)
Fixpoint SplitByte (s : string) (c : ascii) : list string :=
  match s with
  | EmptyString => [""]
  | String a s' =>
      if Ascii.eqb a c then "" :: SplitByte s' c
      else match SplitByte s' c with
           | x :: r => String a x :: r
           | [] => [String a ""]
           end
  end.

End GoStrings.

(** ** Package [path] (and [path/filepath] on a Unix host) *)

Module GoPath.
Import GoStrings.

(** One element of the path against the elements kept so far (last
    kept element first): the lexical rules of [Clean]. *)
Definition cleanStep (rooted : bool) (kept : list string) (elem : string)
  : list string :=
  if String.eqb elem "" || String.eqb elem "." then kept
  else if String.eqb elem ".." then
    match kept with
    | top :: rest => if String.eqb top ".." then ".." :: kept else rest
    | [] => if rooted then [] else [".."]
    end
  else elem :: kept.

Definition Clean (p : string) : string :=
  if String.eqb p "" then "."
  else
    let rooted := HasPrefix p "/" in
    let kept := fold_left (cleanStep rooted) (SplitByte p "/") [] in
    let out := (if rooted then "/" else "") +:+ Join (List.rev kept) "/" in
    if String.eqb out "" then "." else out.

(** [path.Join] and [filepath.Join] for two elements. *)
Definition Join (a b : string) : string :=
  if String.eqb a "" then (if String.eqb b "" then "" else Clean b)
  else Clean (a +:+ "/" +:+ b).

Definition lastSlash (p : string) : option nat := LastIndex p "/".

(** [path.Split] then [Clean] of the directory part. *)
Definition Dir (p : string) : string :=
  match lastSlash p with
  | Some i => Clean (take (S i) p)
  | None => Clean ""
  end.

Fixpoint stripTrailingSlashes (fuel : nat) (p : string) : string :=
  match fuel with
  | O => p
  | S fuel' =>
      if HasSuffix p "/" && negb (String.eqb p "")
      then stripTrailingSlashes fuel' (take (String.length p - 1) p)
      else p
  end.

Definition Base (p : string) : string :=
  if String.eqb p "" then "."
  else
    let p1 := stripTrailingSlashes (String.length p) p in
    let p2 := match lastSlash p1 with
              | Some i => drop (S i) p1
              | None => p1
              end in
    if String.eqb p2 "" then "/" else p2.

(** [filepath.Ext]: from the last dot of the last element. *)
Fixpoint extFrom (rs : string) (acc : string) : string :=
  match rs with
  | EmptyString => ""
  | String c rs' =>
      if Ascii.eqb c "/" then ""
      else if Ascii.eqb c "." then String c acc
      else extFrom rs' (String c acc)
  end.

Definition Ext (p : string) : string := extFrom (rev p) "".

(** [filepath.Rel] on cleaned, volume-free paths. *)
Fixpoint dropCommon (b t : list string) : list string * list string :=
  match b, t with
  | x :: b', y :: t' => if String.eqb x y then dropCommon b' t' else (b, t)
  | _, _ => (b, t)
  end.

(** The elements of a cleaned path; a rooted path starts with the
    empty element. *)
Definition elems (p : string) : list string :=
  if String.eqb p "" then []
  else if String.eqb p "/" then [""]
  else SplitByte p "/".

Definition Rel (basepath targpath : string) : result string :=
  let base := Clean basepath in
  let targ := Clean targpath in
  if String.eqb targ base then Ok "."
  else
    let base := if String.eqb base "." then "" else base in
    let baseSlashed := HasPrefix base "/" in
    let targSlashed := HasPrefix targ "/" in
    if negb (Bool.eqb baseSlashed targSlashed)
    then Err (RelError targpath basepath)
    else
      (* skip the leading elements the two paths share *)
      let '(brest, trest) := dropCommon (elems base) (elems targ) in
      let ups := map (fun _ : string => "..") brest in
      match brest, trest with
      | [], _ => Ok (GoStrings.Join trest "/")
      | b0 :: _, _ :: _ =>
          (* stopped at two differing elements *)
          if String.eqb b0 ".." then Err (RelError targpath basepath)
          else Ok (GoStrings.Join (ups ++ trest)%list "/")
      | _ :: _, [] => Ok (GoStrings.Join ups "/")
      end.

End GoPath.

(** ** Package [bufio]: a [Scanner] with [ScanLines] over a byte slice *)

Module GoBufio.
Import GoStrings.

Definition MaxScanTokenSize : N := 65536.

Definition dropCR (line : string) : string :=
  if HasSuffix line cr then take (String.length line - 1) line else line.

(** [cur] holds the bytes of the line being read, last byte first, and
    [n] their number. A line and its newline must fit the buffer of
    [MaxScanTokenSize] bytes, or scanning stops with [ErrTooLong]. *)
Fixpoint scanFrom (data : string) (cur : string) (n : N)
  : list string * option error :=
  match data with
  | EmptyString =>
      (if (n =? 0)%N then [] else [dropCR (rev cur)], None)
  | String c data' =>
      if Ascii.eqb c "010" then
        let '(rest, e) := scanFrom data' "" 0%N in
        (dropCR (rev cur) :: rest, e)
      else if (n + 1 <? MaxScanTokenSize)%N then
        scanFrom data' (String c cur) (n + 1)%N
      else ([], Some ErrTooLong)
  end.

(** The tokens [scanner.Scan]/[scanner.Text] yield, and [scanner.Err]. *)
Definition scanLines (content : string) : list string * option error :=
  scanFrom content "" 0%N.

End GoBufio.

(** ** Package [crypto/sha256] and [encoding/hex] *)

Module Sha256.
Local Open Scope Z_scope.

Definition w32 (x : Z) : Z := x mod 4294967296.
Definition add32 (x y : Z) : Z := w32 (x + y).
Definition rotr (n x : Z) : Z :=
  Z.lor (Z.shiftr x n) (w32 (Z.shiftl x (32 - n))).

Definition Ch (x y z : Z) : Z :=
  Z.lxor (Z.land x y) (Z.land (Z.lxor x 4294967295) z).
Definition Maj (x y z : Z) : Z :=
  Z.lxor (Z.lxor (Z.land x y) (Z.land x z)) (Z.land y z).
Definition bigSigma0 (x : Z) : Z :=
  Z.lxor (Z.lxor (rotr 2 x) (rotr 13 x)) (rotr 22 x).
Definition bigSigma1 (x : Z) : Z :=
  Z.lxor (Z.lxor (rotr 6 x) (rotr 11 x)) (rotr 25 x).
Definition smallSigma0 (x : Z) : Z :=
  Z.lxor (Z.lxor (rotr 7 x) (rotr 18 x)) (Z.shiftr x 3).
Definition smallSigma1 (x : Z) : Z :=
  Z.lxor (Z.lxor (rotr 17 x) (rotr 19 x)) (Z.shiftr x 10).

(** The round constants and the initial hash value are the first 32
    bits of the fractional parts of the cube roots of the first 64
    primes, and of the square roots of the first 8 (FIPS 180-4). *)
Definition isPrime (n : nat) : bool :=
  forallb (fun d => negb (n mod d =? 0)%nat) (seq 2 (n - 2)).

Definition primes : list Z :=
  map Z.of_nat (List.filter isPrime (seq 2 310)).

Fixpoint cubeRootBits (bits : nat) (n r : Z) : Z :=
  match bits with
  | O => r
  | S b =>
      let c := r + 2 ^ Z.of_nat b in
      if c * c * c <=? n then cubeRootBits b n c else cubeRootBits b n r
  end.

Definition K : list Z :=
  Eval vm_compute in
    map (fun p => w32 (cubeRootBits 36 (p * 2 ^ 96) 0)) primes.

Definition H0 : list Z :=
  Eval vm_compute in
    map (fun p => w32 (Z.sqrt (p * 2 ^ 64))) (firstn 8 primes).

(** Message bytes, the [0x80] byte, zero bytes up to 56 mod 64, and the
    bit length as 8 big-endian bytes. *)
Definition bigEndian (nbytes : nat) (x : Z) : list Z :=
  map (fun i => Z.land (Z.shiftr x (8 * Z.of_nat i)) 255)
      (List.rev (seq 0 nbytes)).

Definition pad (msg : list Z) : list Z :=
  let len := Z.of_nat (List.length msg) in
  let zeros := Z.to_nat ((55 - len) mod 64) in
  (msg ++ [128] ++ repeat 0 zeros ++ bigEndian 8 (8 * len))%list.

Fixpoint words (fuel : nat) (bs : list Z) : list Z :=
  match fuel, bs with
  | S fuel', b0 :: b1 :: b2 :: b3 :: rest =>
      (((b0 * 256 + b1) * 256 + b2) * 256 + b3) :: words fuel' rest
  | _, _ => []
  end.

Fixpoint blocks (fuel : nat) (ws : list Z) : list (list Z) :=
  match fuel, ws with
  | S fuel', _ :: _ => firstn 16 ws :: blocks fuel' (skipn 16 ws)
  | _, _ => []
  end.

(** The message schedule, newest word first. *)
Fixpoint schedule (n : nat) (w : list Z) : list Z :=
  match n with
  | O => w
  | S n' =>
      let nth1 i := nth i w 0 in
      let next :=
        add32 (add32 (smallSigma1 (nth1 1%nat)) (nth1 6%nat))
              (add32 (smallSigma0 (nth1 14%nat)) (nth1 15%nat)) in
      schedule n' (next :: w)
  end.

Definition round (st : list Z) (kw : Z * Z) : list Z :=
  match st with
  | [a; b; c; d; e; f; g; h] =>
      let t1 := add32 (add32 (add32 h (bigSigma1 e)) (Ch e f g))
                      (add32 (fst kw) (snd kw)) in
      let t2 := add32 (bigSigma0 a) (Maj a b c) in
      [add32 t1 t2; a; b; c; add32 d t1; e; f; g]
  | _ => st
  end.

Definition compress (h : list Z) (block : list Z) : list Z :=
  let w := List.rev (schedule 48 (List.rev block)) in
  let st := fold_left round (combine K w) h in
  map (fun p => add32 (fst p) (snd p)) (combine h st).

Definition digest (msg : list Z) : list Z :=
  let bs := pad msg in
  let ws := words (List.length bs) bs in
  fold_left compress (blocks (List.length ws) ws) H0.

Definition hexDigit (d : Z) : ascii :=
  if d <? 10 then ascii_of_N (Z.to_N (48 + d))
  else ascii_of_N (Z.to_N (87 + d)).

Fixpoint hexString (bs : list Z) : string :=
  match bs with
  | [] => ""
  | b :: rest =>
      String (hexDigit (Z.shiftr b 4))
             (String (hexDigit (Z.land b 15)) (hexString rest))
  end.

(** [hex.EncodeToString(sha256(s))] *)
Definition hexSum (s : string) : string :=
  let msg := map (fun c => Z.of_N (N_of_ascii c)) (list_ascii_of_string s) in
  hexString (flat_map (bigEndian 4) (digest msg)).

End Sha256.

(** ** Package [net/url]

    [Parse], [URL.IsAbs], [URL.ResolveReference] and [URL.String], with
    the escaping rules they rest on. A bracketed host is checked for its
    closing bracket, port and escapes, not as an IP literal. *)

Module GoUrl.
Import GoStrings.

Record Userinfo : Type := mkUserinfo {
  username : string;
  password : string;
  passwordSet : bool
}.

Record URL : Type := mkURL {
  Scheme : string;
  Opaque : string;
  User : option Userinfo;
  Host : string;
  Path : string;
  RawPath : string;
  OmitHost : bool;
  ForceQuery : bool;
  RawQuery : string;
  Fragment : string;
  RawFragment : string
}.

Definition emptyURL : URL :=
  mkURL "" "" None "" "" "" false false "" "" "".

Inductive encoding : Type :=
| encodePath | encodePathSegment | encodeHost | encodeZone
| encodeUserPassword | encodeQueryComponent | encodeFragment.

Definition isHostMode (mode : encoding) : bool :=
  match mode with encodeHost | encodeZone => true | _ => false end.

Definition shouldEscape (c : ascii) (mode : encoding) : bool :=
  if isAlnum c then false
  else if isHostMode mode
          && byteOneOf c ("!$&'()*+,;=:[]<>" +:+ dquote) then false
  else if byteOneOf c "-_.~" then false
  else if byteOneOf c "$&+,/:;=?@" then
    match mode with
    | encodePath => Ascii.eqb c "?"
    | encodePathSegment => byteOneOf c "/;,?"
    | encodeUserPassword => byteOneOf c "@/?:"
    | encodeQueryComponent => true
    | encodeFragment => false
    | encodeHost | encodeZone => true
    end
  else if match mode with encodeFragment => byteOneOf c "!()*" | _ => false end
  then false
  else true.

Definition ishex (c : ascii) : bool :=
  isDigit c || byteIn "a" "f" c || byteIn "A" "F" c.

Definition unhex (c : ascii) : N :=
  if isDigit c then N_of_ascii c - 48
  else if byteIn "a" "f" c then N_of_ascii c - 97 + 10
  else if byteIn "A" "F" c then N_of_ascii c - 65 + 10
  else 0.

(** [unescape]: [None] is an [EscapeError] or [InvalidHostError]. *)
Fixpoint unescape (s : string) (mode : encoding) : option string :=
  match s with
  | EmptyString => Some ""
  | String c rest =>
      if Ascii.eqb c "%" then
        match rest with
        | String h1 (String h2 rest') =>
            let v := ascii_of_N (unhex h1 * 16 + unhex h2) in
            let isPct25 := Ascii.eqb h1 "2" && Ascii.eqb h2 "5" in
            if negb (ishex h1 && ishex h2) then None
            else if match mode with
                    | encodeHost => (unhex h1 <? 8)%N && negb isPct25
                    | encodeZone =>
                        negb isPct25 && negb (Ascii.eqb v " ")
                        && shouldEscape v encodeHost
                    | _ => false
                    end
            then None
            else String v <$> unescape rest' mode
        | _ => None
        end
      else if Ascii.eqb c "+" then
        String (match mode with
                | encodeQueryComponent => " "%char
                | _ => "+"%char
                end) <$> unescape rest mode
      else if isHostMode mode && (N_of_ascii c <? 128)%N
              && shouldEscape c encodeHost
      then None
      else String c <$> unescape rest mode
  end.

Definition upperhex (d : N) : ascii :=
  if (d <? 10)%N then ascii_of_N (48 + d) else ascii_of_N (55 + d).

Fixpoint escape (s : string) (mode : encoding) : string :=
  match s with
  | EmptyString => ""
  | String c rest =>
      if shouldEscape c mode then
        match mode, Ascii.eqb c " " with
        | encodeQueryComponent, true => String "+" (escape rest mode)
        | _, _ =>
            String "%"
              (String (upperhex (N_of_ascii c / 16))
                 (String (upperhex (N_of_ascii c mod 16)) (escape rest mode)))
        end
      else String c (escape rest mode)
  end.

Fixpoint validEncoded (s : string) (mode : encoding) : bool :=
  match s with
  | EmptyString => true
  | String c rest =>
      (byteOneOf c "!$&'()*+,;=:@[]%" || negb (shouldEscape c mode))
      && validEncoded rest mode
  end.

Definition stringContainsCTLByte (s : string) : bool :=
  existsb (fun c => (N_of_ascii c <? 32)%N || (N_of_ascii c =? 127)%N)
          (list_ascii_of_string s).

(** [getScheme]: the scheme, if any, and the rest. [acc] is the prefix
    read so far, last byte first. *)
Fixpoint getSchemeFrom (rawURL : string) (acc : string) (s : string)
  : result (string * string) :=
  match s with
  | EmptyString => Ok ("", rawURL)
  | String c s' =>
      if isLower c || isUpper c then getSchemeFrom rawURL (String c acc) s'
      else if isDigit c || byteOneOf c "+-." then
        if String.eqb acc "" then Ok ("", rawURL)
        else getSchemeFrom rawURL (String c acc) s'
      else if Ascii.eqb c ":" then
        if String.eqb acc "" then Err (UrlError "missing protocol scheme")
        else Ok (rev acc, s')
      else Ok ("", rawURL)
  end.

Definition getScheme (rawURL : string) : result (string * string) :=
  getSchemeFrom rawURL "" rawURL.

Definition validOptionalPort (port : string) : bool :=
  match port with
  | EmptyString => true
  | String c digits =>
      Ascii.eqb c ":" && forallb isDigit (list_ascii_of_string digits)
  end.

Definition validUserinfo (s : string) : bool :=
  forallb (fun c => isAlnum c || byteOneOf c "-._:~!$&'()*+,;=%@")
          (list_ascii_of_string s).

Definition orErr {A} (o : option A) (detail : string) : result A :=
  match o with Some a => Ok a | None => Err (UrlError detail) end.

Definition parseHost (host : string) : result string :=
  let plain := orErr (unescape host encodeHost) "invalid host" in
  if HasPrefix host "[" then
    match LastIndex host "]" with
    | None => Err (UrlError "missing ']' in host")
    | Some i =>
        if negb (validOptionalPort (drop (S i) host))
        then Err (UrlError "invalid port after host")
        else
          match Index (take i host) "%25" with
          | Some zone =>
              match unescape (take zone host) encodeHost,
                    unescape (drop zone (take i host)) encodeZone,
                    unescape (drop i host) encodeHost with
              | Some host1, Some host2, Some host3 =>
                  Ok (host1 +:+ host2 +:+ host3)
              | _, _, _ => Err (UrlError "invalid URL escape")
              end
          | None => plain
          end
    end
  else
    match LastIndex host ":" with
    | Some i =>
        if negb (validOptionalPort (drop i host))
        then Err (UrlError "invalid port after host")
        else plain
    | None => plain
    end.

Definition parseAuthority (authority : string)
  : result (option Userinfo * string) :=
  let at_ := LastIndex authority "@" in
  match parseHost (match at_ with
                   | Some i => drop (S i) authority
                   | None => authority
                   end) with
  | Err e => Err e
  | Ok host =>
      match at_ with
      | None => Ok (None, host)
      | Some i =>
          let userinfo := take i authority in
          if negb (validUserinfo userinfo)
          then Err (UrlError "net/url: invalid userinfo")
          else if negb (Contains userinfo ":") then
            match unescape userinfo encodeUserPassword with
            | Some u => Ok (Some (mkUserinfo u "" false), host)
            | None => Err (UrlError "invalid URL escape")
            end
          else
            let '(name, pass, _) := Cut userinfo ":" in
            match unescape name encodeUserPassword,
                  unescape pass encodeUserPassword with
            | Some u, Some p => Ok (Some (mkUserinfo u p true), host)
            | _, _ => Err (UrlError "invalid URL escape")
            end
      end
  end.

Definition withPath (u : URL) (path rawpath : string) : URL :=
  mkURL (Scheme u) (Opaque u) (User u) (Host u) path rawpath
        (OmitHost u) (ForceQuery u) (RawQuery u) (Fragment u) (RawFragment u).

Definition setPath (u : URL) (p : string) : result URL :=
  match unescape p encodePath with
  | None => Err (UrlError "invalid URL escape")
  | Some path =>
      Ok (withPath u path
            (if String.eqb p (escape path encodePath) then "" else p))
  end.

Definition setFragment (u : URL) (f : string) : result URL :=
  match unescape f encodeFragment with
  | None => Err (UrlError "invalid URL escape")
  | Some frag =>
      Ok (mkURL (Scheme u) (Opaque u) (User u) (Host u) (Path u) (RawPath u)
            (OmitHost u) (ForceQuery u) (RawQuery u) frag
            (if String.eqb f (escape frag encodeFragment) then "" else f))
  end.

Definition EscapedPath (u : URL) : string :=
  if negb (String.eqb (RawPath u) "")
     && validEncoded (RawPath u) encodePath
     && match unescape (RawPath u) encodePath with
        | Some p => String.eqb p (Path u)
        | None => false
        end
  then RawPath u
  else if String.eqb (Path u) "*" then "*"
  else escape (Path u) encodePath.

Definition EscapedFragment (u : URL) : string :=
  if negb (String.eqb (RawFragment u) "")
     && validEncoded (RawFragment u) encodeFragment
     && match unescape (RawFragment u) encodeFragment with
        | Some f => String.eqb f (Fragment u)
        | None => false
        end
  then RawFragment u
  else escape (Fragment u) encodeFragment.

(** [parse(rawURL, viaRequest = false)] *)
Definition parse (rawURL : string) : result URL :=
  if stringContainsCTLByte rawURL
  then Err (UrlError "net/url: invalid control character in URL")
  else if String.eqb rawURL "*" then Ok (withPath emptyURL "*" "")
  else
    match getScheme rawURL with
    | Err e => Err e
    | Ok (scheme, rest) =>
        let scheme := ToLower scheme in
        let '(rest, forceQuery, rawQuery) :=
          if HasSuffix rest "?" && (CountByte rest "?" =? 1)%nat
          then (take (String.length rest - 1) rest, true, "")
          else let '(before, after, _) := Cut rest "?" in
               (before, false, after) in
        let url := mkURL scheme "" None "" "" "" false forceQuery rawQuery "" "" in
        if negb (HasPrefix rest "/") && negb (String.eqb scheme "")
        then (* a rootless path after a scheme is opaque *)
          Ok (mkURL scheme rest None "" "" "" false forceQuery rawQuery "" "")
        else if negb (HasPrefix rest "/")
                && Contains (fst (fst (Cut rest "/"))) ":"
        then Err (UrlError "first path segment in URL cannot contain colon")
        else if (negb (String.eqb scheme "") || negb (HasPrefix rest "///"))
                && HasPrefix rest "//"
        then
          let authority := drop 2 rest in
          let '(authority, rest) :=
            match Index authority "/" with
            | Some i => (take i authority, drop i authority)
            | None => (authority, "")
            end in
          match parseAuthority authority with
          | Err e => Err e
          | Ok (user, host) =>
              setPath (mkURL scheme "" user host "" "" false
                             forceQuery rawQuery "" "") rest
          end
        else if negb (String.eqb scheme "") && HasPrefix rest "/"
        then setPath (mkURL scheme "" None "" "" "" true
                            forceQuery rawQuery "" "") rest
        else setPath url rest
    end.

(** [url.Parse] *)
Definition Parse (rawURL : string) : result URL :=
  let '(u, frag, _) := Cut rawURL "#" in
  match parse u with
  | Err e => Err e
  | Ok url => if String.eqb frag "" then Ok url else setFragment url frag
  end.

Definition IsAbs (u : URL) : bool := negb (String.eqb (Scheme u) "").

(** One element of the merged path against the output written so far. *)
Definition resolveStep (st : string * bool) (elem : string) : string * bool :=
  let '(dst, first) := st in
  if String.eqb elem "." then (dst, false)
  else if String.eqb elem ".." then
    let str := drop 1 dst in
    match LastIndex str "/" with
    | None => ("/", true)
    | Some index => ("/" +:+ take index str, first)
    end
  else ((if first then dst else dst +:+ "/") +:+ elem, false).

Definition resolvePath (base ref : string) : string :=
  let full :=
    if String.eqb ref "" then base
    else if negb (HasPrefix ref "/") then
      match LastIndex base "/" with
      | Some i => take (S i) base +:+ ref
      | None => ref
      end
    else ref in
  if String.eqb full "" then ""
  else
    let elems := SplitByte full "/" in
    let '(dst, _) := fold_left resolveStep elems ("/", true) in
    let last := List.last elems "" in
    let r := if String.eqb last "." || String.eqb last ".."
             then dst +:+ "/" else dst in
    if HasPrefix (drop 1 r) "/" then drop 1 r else r.

(** [setPath] on a path [resolvePath] produced from escaped paths. *)
Definition setPath' (u : URL) (p : string) : URL :=
  match setPath u p with Ok u' => u' | Err _ => u end.

Definition ResolveReference (u ref : URL) : URL :=
  let url := if String.eqb (Scheme ref) ""
             then mkURL (Scheme u) (Opaque ref) (User ref) (Host ref)
                    (Path ref) (RawPath ref) (OmitHost ref) (ForceQuery ref)
                    (RawQuery ref) (Fragment ref) (RawFragment ref)
             else ref in
  if negb (String.eqb (Scheme ref) "") || negb (String.eqb (Host ref) "")
     || match User ref with Some _ => true | None => false end
  then setPath' url (resolvePath (EscapedPath ref) "")
  else if negb (String.eqb (Opaque ref) "")
  then mkURL (Scheme url) (Opaque url) None "" "" (RawPath url)
         (OmitHost url) (ForceQuery url) (RawQuery url)
         (Fragment url) (RawFragment url)
  else
    let url :=
      if String.eqb (Path ref) "" && negb (ForceQuery ref)
         && String.eqb (RawQuery ref) ""
      then
        let keepFrag := String.eqb (Fragment ref) "" in
        mkURL (Scheme url) (Opaque url) (User url) (Host url) (Path url)
          (RawPath url) (OmitHost url) (ForceQuery url) (RawQuery u)
          (if keepFrag then Fragment u else Fragment url)
          (if keepFrag then RawFragment u else RawFragment url)
      else url in
    if String.eqb (Path ref) "" && negb (String.eqb (Opaque u) "")
    then mkURL (Scheme url) (Opaque u) None "" "" (RawPath url)
           (OmitHost url) (ForceQuery url) (RawQuery url)
           (Fragment url) (RawFragment url)
    else
      let url := mkURL (Scheme url) (Opaque url) (User u) (Host u) (Path url)
                   (RawPath url) (OmitHost url) (ForceQuery url)
                   (RawQuery url) (Fragment url) (RawFragment url) in
      setPath' url (resolvePath (EscapedPath u) (EscapedPath ref)).

Definition userString (ui : Userinfo) : string :=
  escape (username ui) encodeUserPassword
  +:+ (if passwordSet ui
       then ":" +:+ escape (password ui) encodeUserPassword else "").

(** [URL.String] *)
Definition String_ (u : URL) : string :=
  let hasUser := match User u with Some _ => true | None => false end in
  let scheme := if String.eqb (Scheme u) "" then "" else Scheme u +:+ ":" in
  let body :=
    if negb (String.eqb (Opaque u) "") then scheme +:+ Opaque u
    else
      let auth :=
        if negb (String.eqb (Scheme u) "") || negb (String.eqb (Host u) "")
           || hasUser
        then
          if OmitHost u && String.eqb (Host u) "" && negb hasUser then ""
          else
            (if negb (String.eqb (Host u) "") || negb (String.eqb (Path u) "")
                || hasUser then "//" else "")
            +:+ match User u with
                | Some ui => userString ui +:+ "@"
                | None => ""
                end
            +:+ escape (Host u) encodeHost
        else "" in
      let path := EscapedPath u in
      let buf := scheme +:+ auth in
      let buf :=
        if negb (String.eqb path "") && negb (HasPrefix path "/")
           && negb (String.eqb (Host u) "")
        then buf +:+ "/" else buf in
      let buf :=
        if String.eqb buf "" && Contains (fst (fst (Cut path "/"))) ":"
        then "./" else buf in
      buf +:+ path in
  body
  +:+ (if ForceQuery u || negb (String.eqb (RawQuery u) "")
       then "?" +:+ RawQuery u else "")
  +:+ (if String.eqb (Fragment u) "" then ""
       else "#" +:+ EscapedFragment u).

End GoUrl.

(** [fmt.Sprintf("%d", n)] for a non-negative [n]. *)
Definition Itoa (n : nat) : string := NilEmpty.string_of_uint (Nat.to_uint n).

(** ** Package [filesystem]: the path mapper *)

Module filesystem.
Import GoStrings.

Record FileSystem : Type := mkFileSystem {
  outputDir : string;
  flatten : bool;
  urlToPath : gmap string string;  (* cache of URL to file path mappings *)
  pathsInUse : gmap string bool    (* used paths, to avoid collisions *)
}.

Definition New (outputDir : string) (flatten : bool) : FileSystem :=
  mkFileSystem outputDir flatten ∅ ∅.

(** [fs.pathsInUse[p]]: a missing key reads as [false]. *)
Definition inUse (fs : FileSystem) (p : string) : bool :=
  default false (pathsInUse fs !! p).

Definition generateHashFromURL (urlStr : string) : string :=
  Sha256.hexSum urlStr.

Definition generateFilenameFromURL (urlStr : string) : string :=
  take 16 (generateHashFromURL urlStr) +:+ ".bin".

(** The [for fs.pathsInUse[newPath]] loop of [resolveConflict]. Each
    round tries the next counter; [fuel] bounds the rounds. *)
Fixpoint conflictLoop (fs : FileSystem) (candidate : nat -> string)
    (fuel : nat) (newPath : string) (counter : nat) : string :=
  match fuel with
  | O => newPath
  | S fuel' =>
      if inUse fs newPath
      then conflictLoop fs candidate fuel' (candidate counter) (S counter)
      else newPath
  end.

Definition hashedPath (base hash8 ext : string) : string :=
  base +:+ "_" +:+ hash8 +:+ ext.

Definition countedPath (base hash8 ext : string) (counter : nat) : string :=
  base +:+ "_" +:+ hash8 +:+ "_" +:+ Itoa counter +:+ ext.

Definition resolveConflict (fs : FileSystem) (originalPath urlStr : string)
  : string :=
  let ext := GoPath.Ext originalPath in
  let base := TrimSuffix originalPath ext in
  let hash := generateHashFromURL urlStr in
  let newPath := hashedPath base (take 8 hash) ext in
  conflictLoop fs (countedPath base (take 8 hash) ext)
               (S (size (pathsInUse fs))) newPath 1.

(** Flattened mode: the output directory joined with the file name of
    the URL's path, or with a name made from the URL's hash when the
    path has no file name. *)
Definition flatPath (fs : FileSystem) (urlStr : string) (parsedURL : GoUrl.URL)
  : string :=
  let filename := GoPath.Base (GoUrl.Path parsedURL) in
  let filename :=
    if String.eqb filename "" || String.eqb filename "."
       || String.eqb filename "/"
    then generateFilenameFromURL urlStr else filename in
  GoPath.Join (outputDir fs) filename.

(** The path computed for a URL that is not cached yet. *)
Definition freshPath (fs : FileSystem) (urlStr : string) (parsedURL : GoUrl.URL)
  : string :=
  if flatten fs then
    let localPath := flatPath fs urlStr parsedURL in
    (* handle naming conflicts *)
    if inUse fs localPath then resolveConflict fs localPath urlStr
    else localPath
  else
    (* preserve the URL path structure *)
    let urlPath := TrimPrefix (GoUrl.Path parsedURL) "/" in
    GoPath.Join (outputDir fs) urlPath.

Definition GetLocalPath (fs : FileSystem) (urlStr : string)
  : FileSystem * result string :=
  match urlToPath fs !! urlStr with
  | Some localPath => (fs, Ok localPath)
  | None =>
      match GoUrl.Parse urlStr with
      | Err err => (fs, Err (Wrapped ("failed to parse URL " +:+ urlStr) err))
      | Ok parsedURL =>
          let localPath := freshPath fs urlStr parsedURL in
          (mkFileSystem (outputDir fs) (flatten fs)
             (<[urlStr := localPath]> (urlToPath fs))
             (<[localPath := true]> (pathsInUse fs)),
           Ok localPath)
      end
  end.

Definition GetRelativePath (fs : FileSystem) (fromURL toURL : string)
  : FileSystem * result string :=
  let '(fs, r) := GetLocalPath fs fromURL in
  match r with
  | Err err => (fs, Err err)
  | Ok fromPath =>
      let '(fs, r) := GetLocalPath fs toURL in
      match r with
      | Err err => (fs, Err err)
      | Ok toPath =>
          let fromDir := GoPath.Dir fromPath in
          match GoPath.Rel fromDir toPath with
          | Err err =>
              (fs, Err (Wrapped "failed to calculate relative path" err))
          | Ok relPath => (fs, Ok relPath)
          end
      end
  end.

End filesystem.

(** ** Package [downloader]: parser, resolver, rewriter, filters *)

Module downloader.
Import GoStrings.
Export filesystem.

Record M3U8File : Type := mkM3U8File {
  Content : string;
  BaseURL : GoUrl.URL;
  URLs : list string;
  IsM3U8 : gmap string bool   (* which URLs are M3U8 files *)
}.

Definition resolveRelativePath (base : GoUrl.URL) (relativePath : string)
  : string :=
  let basePath := GoPath.Dir (GoUrl.Path base) in
  let resolved := GoPath.Join basePath relativePath in
  GoUrl.String_
    (GoUrl.mkURL (GoUrl.Scheme base) "" None (GoUrl.Host base) resolved ""
                 false false "" "" "").

Definition resolveURL (base : GoUrl.URL) (ref : string) : string :=
  match GoUrl.Parse ref with
  | Err _ => resolveRelativePath base ref
  | Ok refURL =>
      if GoUrl.IsAbs refURL then ref
      else GoUrl.String_ (GoUrl.ResolveReference base refURL)
  end.

Definition urlTags : list string :=
  ["EXT-X-KEY"; "EXT-X-MEDIA"; "EXT-X-MAP"; "EXT-X-I-FRAME-STREAM-INF"].

Definition containsURL (line : string) : bool :=
  existsb (Contains line) urlTags.

Definition uriPrefix : string := "URI=" +:+ dquote.

Fixpoint extractLoop (fuel : nat) (line : string) (urls : list string)
  : list string :=
  match fuel with
  | O => urls
  | S fuel' =>
      match Index line uriPrefix with
      | None => urls
      | Some idx =>
          let line := drop (idx + String.length uriPrefix) line in
          match Index line dquote with
          | None => urls
          | Some endIdx =>
              extractLoop fuel' (drop (endIdx + 1) line)
                          (urls ++ [take endIdx line])
          end
      end
  end.

Definition extractURLsFromTag (line : string) : list string :=
  extractLoop (S (String.length line)) line [].

(** The nested-playlist test of a bare reference line. *)
Definition looksLikeM3U8 (line : string) : bool :=
  HasSuffix line ".m3u8" || Contains line ".m3u8?".

Definition addTagURL (baseURL : GoUrl.URL) (m3u8 : M3U8File) (u : string)
  : M3U8File :=
  let resolved := resolveURL baseURL u in
  mkM3U8File (Content m3u8) (BaseURL m3u8) (URLs m3u8 ++ [resolved])
    (if negb (HasSuffix u ".m3u8")
     then <[resolved := false]> (IsM3U8 m3u8) else IsM3U8 m3u8).

(** The body of the scanning loop of [ParseM3U8], for one token. *)
Definition parseLine (baseURL : GoUrl.URL) (m3u8 : M3U8File) (text : string)
  : M3U8File :=
  let line := TrimSpace text in
  if String.eqb line "" || (HasPrefix line "#" && negb (containsURL line))
  then m3u8
  else if HasPrefix line "#"
  then fold_left (addTagURL baseURL) (extractURLsFromTag line) m3u8
  else
    let resolved := resolveURL baseURL line in
    mkM3U8File (Content m3u8) (BaseURL m3u8) (URLs m3u8 ++ [resolved])
      (<[resolved := looksLikeM3U8 line]> (IsM3U8 m3u8)).

Definition ParseM3U8 (content : string) (baseURL : GoUrl.URL)
  : result M3U8File :=
  let m3u8 := mkM3U8File content baseURL [] ∅ in
  let '(lines, scanErr) := GoBufio.scanLines content in
  let m3u8 := fold_left (parseLine baseURL) lines m3u8 in
  match scanErr with
  | Some err => Err (Wrapped "error scanning M3U8 file" err)
  | None => Ok m3u8
  end.

(** *** The rewriter

    A computation over the shared [FileSystem] that may panic. *)

Definition M (A : Type) : Type := FileSystem -> outcome A * FileSystem.

Definition ret {A} (a : A) : M A := fun fs => (Ret a, fs).

Definition bind {A B} (m : M A) (k : A -> M B) : M B :=
  fun fs =>
    match m fs with
    | (Ret a, fs') => k a fs'
    | (Panic msg, fs') => (Panic msg, fs')
    end.

Definition liftOutcome {A} (o : outcome A) : M A := fun fs => (o, fs).

(** A call of a [FileSystem] method. *)
Definition call {A} (f : FileSystem -> FileSystem * A) : M A :=
  fun fs => let '(fs', a) := f fs in (Ret a, fs').

Notation "x <- m ;; k" := (bind m (fun x => k))
  (at level 100, m at next level, right associativity).

Definition mustParseURL (urlStr : string) : outcome GoUrl.URL :=
  match GoUrl.Parse urlStr with
  | Ok u => Ret u
  | Err err => Panic (Wrapped ("failed to parse URL " +:+ urlStr) err)
  end.

Definition containsURI (line : string) : bool := Contains line uriPrefix.

Definition rewriteSegmentLine (line sourceURL : string) : M string :=
  base <- liftOutcome (mustParseURL sourceURL) ;;
  match ParseM3U8 "" base with
  | Err _ => ret line
  | Ok m3u8File =>
      let absoluteURL := resolveURL (BaseURL m3u8File) line in
      r <- call (fun fs => GetRelativePath fs sourceURL absoluteURL) ;;
      match r with
      | Err _ => ret line
      | Ok relativePath => ret relativePath
      end
  end.

(** The [for] loop of [rewriteTagLine] on the current [result]. *)
Fixpoint rewriteTagLoop (fuel : nat) (sourceURL : string) (result : string)
  : M string :=
  match fuel with
  | O => ret result
  | S fuel' =>
      match Index result uriPrefix with
      | None => ret result
      | Some uriStart =>
          let uriValueStart := uriStart + String.length uriPrefix in
          match Index (drop uriValueStart result) dquote with
          | None => ret result
          | Some uriEnd =>
              let absoluteURL := take uriEnd (drop uriValueStart result) in
              base <- liftOutcome (mustParseURL sourceURL) ;;
              let absoluteURL :=
                match ParseM3U8 "" base with
                | Ok m3u8File => resolveURL (BaseURL m3u8File) absoluteURL
                | Err _ => absoluteURL
                end in
              r <- call (fun fs => GetRelativePath fs sourceURL absoluteURL) ;;
              match r with
              | Err _ =>
                  (* skip this URL *)
                  rewriteTagLoop fuel' sourceURL
                                 (drop (uriValueStart + uriEnd) result)
              | Ok relativePath =>
                  let before := take uriValueStart result in
                  let after := drop (uriValueStart + uriEnd) result in
                  ret (before +:+ relativePath +:+ after)
              end
          end
      end
  end.

(** [rewriteTagLine]; its error result is always [nil]. *)
Definition rewriteTagLine (line sourceURL : string) : M (result string) :=
  r <- rewriteTagLoop (S (String.length line)) sourceURL line ;;
  ret (Ok r).

(** The body of the scanning loop of [RewriteM3U8URLs]. *)
Definition rewriteLine (sourceURL : string) (line : string) : M string :=
  if HasPrefix line "#" then
    if containsURI line then
      r <- rewriteTagLine line sourceURL ;;
      match r with
      | Err _ => ret line
      | Ok rewrittenLine => ret rewrittenLine
      end
    else ret line
  else if negb (String.eqb line "") && negb (HasPrefix line "#")
  then rewriteSegmentLine line sourceURL
  else ret line.

Fixpoint rewriteLines (sourceURL : string) (lines : list string)
    (output : string) : M string :=
  match lines with
  | [] => ret output
  | line :: rest =>
      rewrittenLine <- rewriteLine sourceURL line ;;
      rewriteLines sourceURL rest (output +:+ rewrittenLine +:+ nl)
  end.

Definition RewriteM3U8URLs (content sourceURL : string) : M (result string) :=
  let '(lines, scanErr) := GoBufio.scanLines content in
  output <- rewriteLines sourceURL lines "" ;;
  match scanErr with
  | Some err => ret (Err (Wrapped "error scanning M3U8 file" err))
  | None => ret (Ok output)
  end.

(** *** The orchestrator's filters *)

Record Downloader : Type := mkDownloader {
  fs : FileSystem;
  visited : gmap string bool;
  concurrency : nat;
  rewriteURLs : bool;
  include : list string;   (* file extensions to include *)
  exclude : list string    (* file extensions to exclude *)
}.

Definition extMatches (ext : string) (e : string) : bool :=
  String.eqb ext e || String.eqb ext ("." +:+ e).

Definition shouldDownload (d : Downloader) (urlStr : string) : bool :=
  let ext := ToLower (GoPath.Ext urlStr) in
  let ext := match Index ext "?" with
             | Some idx => take idx ext
             | None => ext
             end in
  if existsb (extMatches ext) (exclude d) then false
  else if (List.length (include d) =? 0)%nat then true
  else existsb (extMatches ext) (include d).

Definition filterURLs (d : Downloader) (urls : list string) : list string :=
  List.filter (shouldDownload d) urls.

Definition isVisited (visited : gmap string bool) (urlStr : string) : bool :=
  default false (visited !! urlStr).

Definition markVisited (visited : gmap string bool) (urlStr : string)
  : gmap string bool :=
  <[urlStr := true]> visited.

End downloader.

(** ** The worker pool of [downloadURLs]

    [d.concurrency] goroutines receive URLs from [urlChan] and run
    [downloadURL] on each. [isVisited] and [markVisited] each take
    [visitedLock] for their own body only, so a worker is observed
    between them: a worker's position is the next of its three actions
    on shared state. ([downloadM3U8] starts with the same check, mark
    and fetch.) The scheduler is a list of worker indices.

    The model follows the workers of one pool, started on a fresh
    [Downloader], up to their calls of [Fetch]. What a worker does
    with the answer (it writes the file or, for a playlist, parses it
    and runs a nested pool on the same visited set) and its exit on an
    error are not part of it; [crawl] below has them, for one worker. *)

Module pool.
Import downloader.

Inductive position : Type :=
| AtIsVisited     (* about to call d.isVisited(urlStr) *)
| AtMarkVisited   (* found it unvisited, about to call d.markVisited *)
| AtFetch.        (* marked, about to call d.fetcher.Fetch *)

(** [None]: waiting on [urlChan]. *)
Definition worker : Type := option (string * position).

Record state : Type := mkState {
  visitedSet : gmap string bool;
  fetched : list string;      (* Fetch invocations, latest first *)
  urlChan : list string;
  workers : list worker
}.

Definition start (urls : list string) (concurrency : nat) : state :=
  mkState ∅ [] urls (replicate concurrency None).

(** [downloadURLs] up to the start of its workers: the URLs that pass
    [filterURLs] are sent to [urlChan], whatever their [isM3U8] flag. *)
Definition downloadURLs (d : Downloader) (urls : list string) : state :=
  start (filterURLs d urls) (concurrency d).

Definition setWorker (s : state) (i : nat) (w : worker) : list worker :=
  <[i := w]> (workers s).

(** One action of worker [i]; [None] when it has nothing to do. *)
Definition step (i : nat) (s : state) : option state :=
  match workers s !! i with
  | None => None
  | Some None =>
      match urlChan s with
      | [] => None
      | urlStr :: rest =>
          Some (mkState (visitedSet s) (fetched s) rest
                        (setWorker s i (Some (urlStr, AtIsVisited))))
      end
  | Some (Some (urlStr, AtIsVisited)) =>
      Some (mkState (visitedSet s) (fetched s) (urlChan s)
              (setWorker s i
                 (if isVisited (visitedSet s) urlStr then None
                  else Some (urlStr, AtMarkVisited))))
  | Some (Some (urlStr, AtMarkVisited)) =>
      Some (mkState (markVisited (visitedSet s) urlStr) (fetched s)
              (urlChan s) (setWorker s i (Some (urlStr, AtFetch))))
  | Some (Some (urlStr, AtFetch)) =>
      Some (mkState (visitedSet s) (urlStr :: fetched s) (urlChan s)
              (setWorker s i None))
  end.

Fixpoint run (schedule : list nat) (s : state) : option state :=
  match schedule with
  | [] => Some s
  | i :: rest =>
      match step i s with
      | Some s' => run rest s'
      | None => None
      end
  end.

Definition fetchCount (s : state) (urlStr : string) : nat :=
  List.length (List.filter (String.eqb urlStr) (fetched s)).

(** What holds of every state a single worker reaches: fetched URLs are
    distinct and marked, and the worker is past its check only for a URL
    not fetched yet. *)
Definition sequentialInvariant (s : state) : Prop :=
  NoDup (fetched s)
  /\ (forall u, u ∈ fetched s -> isVisited (visitedSet s) u = true)
  /\ match workers s with
     | [None] | [Some (_, AtIsVisited)] => True
     | [Some (u, AtMarkVisited)] => isVisited (visitedSet s) u = false
     | [Some (u, AtFetch)] =>
         isVisited (visitedSet s) u = true /\ u ∉ fetched s
     | _ => False
     end.

End pool.

(** ** Package [cmd]: the command line *)

Module cmd.
Import GoStrings.

(** The body of the loop of [normalizeExtensions], for one entry. *)
Definition normalizeExtension (ext : string) : string :=
  let ext := TrimSpace ext in
  if negb (String.eqb ext "") && negb (HasPrefix ext ".")
  then "." +:+ ext else ext.

Definition normalizeExtensions (exts : list string) : list string :=
  map normalizeExtension exts.

End cmd.

(** ** Package [downloader]: the progress tracker *)

Module progress.
Local Open Scope Z_scope.

(** An [int] or [int64] result, wrapped around at 64 bits. *)
Definition wrap64 (z : Z) : Z := (z + 2 ^ 63) mod 2 ^ 64 - 2 ^ 63.

(** [fmt.Sprintf("%d", z)] *)
Definition formatInt (z : Z) : string :=
  if z <? 0 then "-" +:+ Itoa (Z.to_nat (- z)) else Itoa (Z.to_nat z).

(** Times are nanoseconds on the process clock; the zero [time.Time]
    of [lastUpdate] is 0. *)
Record ProgressTracker : Type := mkProgressTracker {
  totalFiles : Z;
  downloadedFiles : Z;
  m3u8Files : Z;
  segmentFiles : Z;
  totalBytes : Z;
  downloadedBytes : Z;
  startTime : Z;
  lastUpdate : Z;
  lastBytes : Z;
  enabled : bool;
  verbose : bool
}.

(** [now] is the value of [time.Now()]. *)
Definition NewProgressTracker (enabled verbose : bool) (now : Z)
  : ProgressTracker :=
  mkProgressTracker 0 0 0 0 0 0 now 0 0 enabled verbose.

Definition SetTotalFiles (p : ProgressTracker) (total : Z) : ProgressTracker :=
  if negb (enabled p) then p
  else mkProgressTracker total (downloadedFiles p) (m3u8Files p)
         (segmentFiles p) (totalBytes p) (downloadedBytes p) (startTime p)
         (lastUpdate p) (lastBytes p) (enabled p) (verbose p).

Definition IncrementM3U8 (p : ProgressTracker) : ProgressTracker :=
  if negb (enabled p) then p
  else mkProgressTracker (totalFiles p) (wrap64 (downloadedFiles p + 1))
         (wrap64 (m3u8Files p + 1)) (segmentFiles p) (totalBytes p)
         (downloadedBytes p) (startTime p) (lastUpdate p) (lastBytes p)
         (enabled p) (verbose p).

Definition IncrementSegment (p : ProgressTracker) (bytes : Z)
  : ProgressTracker :=
  if negb (enabled p) then p
  else mkProgressTracker (totalFiles p) (wrap64 (downloadedFiles p + 1))
         (m3u8Files p) (wrap64 (segmentFiles p + 1)) (totalBytes p)
         (wrap64 (downloadedBytes p + bytes)) (startTime p) (lastUpdate p)
         (lastBytes p) (enabled p) (verbose p).

Definition AddBytes (p : ProgressTracker) (bytes : Z) : ProgressTracker :=
  if negb (enabled p) then p
  else mkProgressTracker (totalFiles p) (downloadedFiles p) (m3u8Files p)
         (segmentFiles p) (totalBytes p) (wrap64 (downloadedBytes p + bytes))
         (startTime p) (lastUpdate p) (lastBytes p) (enabled p) (verbose p).

(** *** [formatBytes] *)

Definition unit : Z := 1024.

Definition units : list string := ["KB"; "MB"; "GB"; "TB"].

(** The result of [formatBytes]: the text, or the run-time panic of
    the index expression [units[exp]]. *)
Inductive formatted : Type :=
| Text (s : string)
| IndexOutOfRange (index length : nat).

(** The loop [for n := bytes / unit; n >= unit; n /= unit]. Each round
    divides [n] by 1024, so a 64-bit [n] allows fewer than 7 rounds. *)
Fixpoint scaleLoop (fuel : nat) (n div : Z) (exp : nat) : Z * nat :=
  match fuel with
  | O => (div, exp)
  | S fuel' =>
      if unit <=? n
      then scaleLoop fuel' (Z.quot n unit) (wrap64 (div * unit)) (S exp)
      else (div, exp)
  end.

(** [fmt.Sprintf("%.1f", float64(num)/float64(den))] where [num] is
    below [2^53] and [den] is a power of two: the conversions and the
    quotient are exact, and the decimal is the quotient rounded to a
    tenth, a tie going to the even digit. *)
Definition fixed1 (num den : Z) : string :=
  let q := (10 * num) / den in
  let r := (10 * num) mod den in
  let tenths :=
    if 2 * r <? den then q
    else if den <? 2 * r then q + 1
    else if Z.even q then q else q + 1 in
  formatInt (tenths / 10) +:+ "." +:+ formatInt (tenths mod 10).

Definition formatBytes (bytes : Z) : formatted :=
  if bytes <? unit then Text (formatInt bytes +:+ " B")
  else
    let '(div, exp) := scaleLoop 7 (Z.quot bytes unit) unit 0 in
    match nth_error units exp with
    | Some u => Text (fixed1 bytes div +:+ " " +:+ u)
    | None => IndexOutOfRange exp (List.length units)
    end.

(** *** [formatDuration], on [time.Duration] as nanoseconds *)

Definition Second : Z := 1000000000.
Definition Minute : Z := 60 * Second.
Definition Hour : Z := 60 * Minute.
Definition minDuration : Z := - 2 ^ 63.
Definition maxDuration : Z := 2 ^ 63 - 1.

(** [uint64(x)+uint64(x) < uint64(y)] *)
Definition lessThanHalf (x y : Z) : bool :=
  (x mod 2 ^ 64 + x mod 2 ^ 64) mod 2 ^ 64 <? y mod 2 ^ 64.

(** [Duration.Round] *)
Definition Round (d m : Z) : Z :=
  if m <=? 0 then d
  else
    let r := Z.rem d m in
    if d <? 0 then
      let r := wrap64 (- r) in
      if lessThanHalf r m then wrap64 (d + r)
      else
        let d1 := wrap64 (wrap64 (d - m) + r) in
        if d1 <? d then d1 else minDuration
    else
      if lessThanHalf r m then wrap64 (d - r)
      else
        let d1 := wrap64 (wrap64 (d + m) - r) in
        if d <? d1 then d1 else maxDuration.

(** The three formats of [formatDuration]. *)
Definition clock (h m s : Z) : string :=
  if 0 <? h
  then formatInt h +:+ "h " +:+ formatInt m +:+ "m " +:+ formatInt s +:+ "s"
  else if 0 <? m then formatInt m +:+ "m " +:+ formatInt s +:+ "s"
  else formatInt s +:+ "s".

(** The hours, minutes and seconds [formatDuration] prints. *)
Definition clockFields (d : Z) : Z * Z * Z :=
  let d := Round d Second in
  let h := Z.quot d Hour in
  let d := wrap64 (d - wrap64 (h * Hour)) in
  let m := Z.quot d Minute in
  let d := wrap64 (d - wrap64 (m * Minute)) in
  let s := Z.quot d Second in
  (h, m, s).

Definition formatDuration (d : Z) : string :=
  let '(h, m, s) := clockFields d in clock h m s.

End progress.

(** ** The crawl with one worker

    With [concurrency] 1 every pool of [downloadURLs] has one worker,
    and the goroutine that started it waits in [wg.Wait] until the
    worker is done: one goroutine at a time touches the [Downloader],
    so the crawl of [Download] is sequential, nested playlists
    included. (The goroutine of [Download] that prints the progress
    only reads the tracker.) The fetcher and package [os] are the
    world, given by oracles; what is printed is left out. *)

Module crawl.
Import GoStrings downloader.

(** An error the crawl returns. *)
Inductive failure : Type :=
| External (detail : string)   (* an error of the fetcher or of package [os] *)
| Internal (e : error)         (* an error of the parser or the path mapper *)
| Because (msg : string) (cause : failure).   (* fmt.Errorf("...: %w", err) *)

Inductive osCall : Type :=
| MkdirAll (dir : string)
| OsWriteFile (name content : string)
| Rename (oldpath newpath : string)
| Remove (name : string).

Record World : Type := mkWorld {
  (** the answer to the [n]-th call of [Fetcher.Fetch], counted from 0:
      the body, or the error *)
  Fetch : nat -> string -> string + failure;
  (** the error, if any, of the [n]-th call of package [os] *)
  osError : nat -> osCall -> option failure
}.

(** The parts of the [Downloader] that change, and what the crawl has
    asked of the world. *)
Record state : Type := mkState {
  fs : FileSystem;
  visited : gmap string bool;
  progress : progress.ProgressTracker;
  fetched : list string;      (* calls of Fetch, latest first *)
  osCalls : list osCall       (* calls of package os, latest first *)
}.

(** How a call ends. *)
Inductive status : Type :=
| Returns (err : option failure)   (* the error returned, [nil] as [None] *)
| Panics (value : error)
| Unfinished                       (* still running when the fuel ended *)
| Concurrent.                      (* more than one worker: not sequential *)

Definition setFs (s : state) (fs' : FileSystem) : state :=
  mkState fs' (visited s) (progress s) (fetched s) (osCalls s).

Definition setProgress (s : state) (p : progress.ProgressTracker) : state :=
  mkState (fs s) (visited s) p (fetched s) (osCalls s).

(** A call of package [os]. *)
Definition osDo (w : World) (c : osCall) (s : state) : state * option failure :=
  (mkState (fs s) (visited s) (progress s) (fetched s) (c :: osCalls s),
   osError w (List.length (osCalls s)) c).

(** A call of [d.fetcher.Fetch]. *)
Definition fetch (w : World) (urlStr : string) (s : state)
  : state * (string + failure) :=
  (mkState (fs s) (visited s) (progress s) (urlStr :: fetched s) (osCalls s),
   Fetch w (List.length (fetched s)) urlStr).

(** [FileSystem.WriteFile] *)
Definition WriteFile (w : World) (urlStr content : string) (s : state)
  : state * (string + failure) :=
  let '(fs', r) := GetLocalPath (fs s) urlStr in
  let s := setFs s fs' in
  match r with
  | Err err => (s, inr (Internal err))
  | Ok localPath =>
      let dir := GoPath.Dir localPath in
      let '(s, e) := osDo w (MkdirAll dir) s in
      match e with
      | Some err =>
          (s, inr (Because ("failed to create directory " +:+ dir) err))
      | None =>
          let tmpPath := localPath +:+ ".tmp" in
          let '(s, e) := osDo w (OsWriteFile tmpPath content) s in
          match e with
          | Some err =>
              (s, inr (Because ("failed to write file " +:+ tmpPath) err))
          | None =>
              let '(s, e) := osDo w (Rename tmpPath localPath) s in
              match e with
              | Some err =>
                  let '(s, _) := osDo w (Remove tmpPath) s in
                  (s, inr (Because ("failed to rename " +:+ tmpPath +:+ " to "
                                    +:+ localPath) err))
              | None => (s, inl localPath)
              end
          end
      end
  end.

Definition markVisitedIn (s : state) (urlStr : string) : state :=
  mkState (fs s) (markVisited (visited s) urlStr) (progress s) (fetched s)
          (osCalls s).

(** [downloadURL]; [downloadM3U8] is the recursive call. *)
Definition downloadURL (downloadM3U8 : string -> state -> state * status)
    (w : World) (urlStr : string) (isM3U8 : bool) (s : state)
  : state * status :=
  if isM3U8 then downloadM3U8 urlStr s
  else if isVisited (visited s) urlStr then (s, Returns None)
  else
    let s := markVisitedIn s urlStr in
    let '(s, r) := fetch w urlStr s in
    match r with
    | inr err => (s, Returns (Some err))
    | inl content =>
        let '(s, r) := WriteFile w urlStr content s in
        match r with
        | inr err => (s, Returns (Some err))
        | inl localPath =>
            (setProgress s
               (progress.IncrementSegment (progress s)
                  (Z.of_nat (String.length content))),
             Returns None)
        end
    end.

(** The one worker of [downloadURLs]: it takes the URLs off the channel
    in order and leaves at the first error, which [downloadURLs] then
    returns. *)
Fixpoint worker (downloadURL : string -> state -> state * status)
    (urlChan : list string) (s : state) : state * status :=
  match urlChan with
  | [] => (s, Returns None)
  | urlStr :: rest =>
      match downloadURL urlStr s with
      | (s, Returns None) => worker downloadURL rest s
      | (s, Returns (Some err)) =>
          (s, Returns (Some (Because ("failed to download " +:+ urlStr) err)))
      | (s, st) => (s, st)
      end
  end.

Definition downloadURLs (downloadM3U8 : string -> state -> state * status)
    (d : Downloader) (w : World) (urls : list string)
    (isM3U8 : gmap string bool) (s : state) : state * status :=
  match filterURLs d urls with
  | [] => (s, Returns None)
  | filteredURLs =>
      match concurrency d with
      | 0 => (s, Returns None)
      | 1 =>
          worker (fun urlStr =>
                    downloadURL downloadM3U8 w urlStr
                                (default false (isM3U8 !! urlStr)))
                 filteredURLs s
      | _ => (s, Concurrent)
      end
  end.

(** The end of [downloadM3U8], after the references are downloaded. *)
Definition writeM3U8 (d : Downloader) (w : World) (m3u8URL content : string)
    (s : state) : state * status :=
  let '(s, st, content) :=
    if rewriteURLs d then
      match RewriteM3U8URLs content m3u8URL (fs s) with
      | (Panic value, fs') => (setFs s fs', Panics value, content)
      | (Ret (Ok rewrittenContent), fs') =>
          (setFs s fs', Returns None, rewrittenContent)
      | (Ret (Err _), fs') => (setFs s fs', Returns None, content)
      end
    else (s, Returns None, content) in
  match st with
  | Returns None =>
      let '(s, r) := WriteFile w m3u8URL content s in
      match r with
      | inr err => (s, Returns (Some (Because "failed to write M3U8 file" err)))
      | inl localPath =>
          let p := progress.IncrementM3U8 (progress s) in
          let p := progress.AddBytes p (Z.of_nat (String.length content)) in
          (setProgress s p, Returns None)
      end
  | _ => (s, st)
  end.

Fixpoint downloadM3U8 (fuel : nat) (d : Downloader) (w : World)
    (m3u8URL : string) (s : state) : state * status :=
  match fuel with
  | O => (s, Unfinished)
  | S fuel' =>
      if isVisited (visited s) m3u8URL then (s, Returns None)
      else
        let s := markVisitedIn s m3u8URL in
        let '(s, r) := fetch w m3u8URL s in
        match r with
        | inr err => (s, Returns (Some err))
        | inl content =>
            match GoUrl.Parse m3u8URL with
            | Err err =>
                (s, Returns (Some (Because "failed to parse M3U8 URL"
                                           (Internal err))))
            | Ok parsedURL =>
                match ParseM3U8 content parsedURL with
                | Err err =>
                    (s, Returns (Some (Because "failed to parse M3U8 content"
                                               (Internal err))))
                | Ok m3u8File =>
                    match downloadURLs (downloadM3U8 fuel' d w) d w
                            (URLs m3u8File) (IsM3U8 m3u8File) s with
                    | (s, Returns None) => writeM3U8 d w m3u8URL content s
                    | (s, st) => (s, st)
                    end
                end
            end
        end
  end.

(** The state of a [Downloader] before [Download]; [now] is the value
    of [time.Now()] in [New]. *)
Definition start (d : Downloader) (verbose : bool) (now : Z) : state :=
  mkState (downloader.fs d) (downloader.visited d)
          (progress.NewProgressTracker true verbose now) [] [].

Definition Download (fuel : nat) (d : Downloader) (w : World)
    (m3u8URL : string) (s : state) : state * status :=
  match downloadM3U8 fuel d w m3u8URL s with
  | (s, Returns (Some err)) =>
      (s, Returns (Some (Because "failed to download M3U8" err)))
  | (s, st) => (s, st)
  end.

End crawl.

(** ** Sequences of path assignments *)

Import downloader.

(** [GetLocalPath] called on each URL in turn: the final mapper and the
    result of every call. *)
Fixpoint assignAll (fs : FileSystem) (urls : list string)
  : FileSystem * list (result string) :=
  match urls with
  | [] => (fs, [])
  | u :: rest =>
      let '(fs1, r) := GetLocalPath fs u in
      let '(fs2, rs) := assignAll fs1 rest in
      (fs2, r :: rs)
  end.

(** * Vocabulary of the statements *)

(** The three ways a call of [GetLocalPath] goes. *)
Inductive GetLocalPath_case (fs : FileSystem) (u : string)
  : FileSystem * result string -> Prop :=
| glp_cached p :
    urlToPath fs !! u = Some p ->
    GetLocalPath_case fs u (fs, Ok p)
| glp_unparsable e :
    urlToPath fs !! u = None ->
    GoUrl.Parse u = Err e ->
    GetLocalPath_case fs u (fs, Err (Wrapped ("failed to parse URL " +:+ u) e))
| glp_fresh parsed :
    urlToPath fs !! u = None ->
    GoUrl.Parse u = Ok parsed ->
    GetLocalPath_case fs u
      (mkFileSystem (outputDir fs) (flatten fs)
         (<[u := freshPath fs u parsed]> (urlToPath fs))
         (<[freshPath fs u parsed := true]> (pathsInUse fs)),
       Ok (freshPath fs u parsed)).

(** The mapper only grows: root and mode stay, entries stay, claimed
    paths stay claimed. *)
Record grows (fs fs' : FileSystem) : Prop := mkGrows {
  grows_outputDir : outputDir fs' = outputDir fs;
  grows_flatten : flatten fs' = flatten fs;
  grows_urlToPath : urlToPath fs ⊆ urlToPath fs';
  grows_inUse : forall p, inUse fs p = true -> inUse fs' p = true
}.

(** Every assigned path is claimed, and no two URLs share a path. *)
Record wellFormed (fs : FileSystem) : Prop := mkWellFormed {
  wf_claimed : forall u p, urlToPath fs !! u = Some p -> inUse fs p = true;
  wf_injective : forall u1 u2 p,
    urlToPath fs !! u1 = Some p -> urlToPath fs !! u2 = Some p -> u1 = u2
}.

(** The paths [resolveConflict] tries, in order: the hash-suffixed one,
    then the counted ones from 1 on. *)
Definition triedPath (base hash8 ext : string) (k : nat) : string :=
  match k with
  | O => hashedPath base hash8 ext
  | S _ => countedPath base hash8 ext k
  end.

(** A computation that only lets the mapper grow. *)
Definition preserves {A} (m : M A) : Prop := forall fs, grows fs (m fs).2.

Definition returns {A} (m : M A) : Prop :=
  forall fs, exists a fs', m fs = (Ret a, fs').

(** A non-empty line that does not start with [#]: what the rewriter
    takes for a segment or playlist URL. *)
Definition isBareReference (line : string) : bool :=
  negb (String.eqb line "") && negb (GoStrings.HasPrefix line "#").

Definition exampleSource : string := "https://example.com/path/playlist.m3u8".

Definition exampleBase : GoUrl.URL :=
  GoUrl.mkURL "https" "" None "example.com" "/path/playlist.m3u8" ""
              false false "" "" "".

(** The parser finds a quoted [URI] value in the line. *)
Definition hasQuotedURI (line : string) : bool :=
  match extractURLsFromTag line with [] => false | _ :: _ => true end.

Definition isURITagLine (line : string) : bool :=
  GoStrings.HasPrefix line "#" && hasQuotedURI line.

(** The lines on which the rewriter parses the source URL. *)
Definition needsSource (line : string) : bool :=
  isBareReference line || isURITagLine line.

(** The lines that take neither rewriting branch of [RewriteM3U8URLs]:
    the empty line, and a line starting with [#] without [uriPrefix]. *)
Definition passesThrough (line : string) : bool :=
  String.eqb line ""
  || (GoStrings.HasPrefix line "#" && negb (containsURI line)).

(** Each line followed by a newline. *)
Fixpoint unlines (lines : list string) : string :=
  match lines with
  | [] => ""
  | line :: rest => line +:+ nl +:+ unlines rest
  end.

(** The references one scanned token adds to [URLs], in order. *)
Definition lineRefs (baseURL : GoUrl.URL) (text : string) : list string :=
  let line := GoStrings.TrimSpace text in
  if String.eqb line ""
     || (GoStrings.HasPrefix line "#" && negb (containsURL line))
  then []
  else if GoStrings.HasPrefix line "#"
  then map (resolveURL baseURL) (extractURLsFromTag line)
  else [resolveURL baseURL line].

(** The extension [shouldDownload] compares: the lower-cased [Ext] of
    the URL up to a query. *)
Definition urlExt (urlStr : string) : string :=
  let ext := GoStrings.ToLower (GoPath.Ext urlStr) in
  match GoStrings.Index ext "?" with
  | Some idx => GoStrings.take idx ext
  | None => ext
  end.

(** ** Paths and names *)

(** The byte occurs in the string. *)
Fixpoint hasByte (c : ascii) (s : string) : bool :=
  match s with
  | EmptyString => false
  | String a s' => Ascii.eqb a c || hasByte c s'
  end.

(** A path element that names a file or directory: not empty, not [.]
    and not [..], and free of slashes. *)
Definition isName (e : string) : bool :=
  negb (hasByte "/" e) && negb (String.eqb e "")
  && negb (String.eqb e ".") && negb (String.eqb e "..").

(** The non-empty elements of a path other than [.]. *)
Definition pathElems (p : string) : list string :=
  List.filter (fun e => negb (String.eqb e "" || String.eqb e "."))
              (GoStrings.SplitByte p "/").

(** The kept elements of [Clean], last one first. *)
Definition cleanStack (p : string) : list string :=
  fold_left (GoPath.cleanStep (GoStrings.HasPrefix p "/"))
            (GoStrings.SplitByte p "/") [].

(** The path has a [..] element. *)
Definition hasDotDot (p : string) : bool :=
  existsb (String.eqb "..") (GoStrings.SplitByte p "/").

(** The number of [..] elements of the cleaned path. *)
Definition dotDots (p : string) : nat :=
  List.length (List.filter (String.eqb "..") (cleanStack p)).

(** All [..] elements come first, and the others are names. *)
Fixpoint dotsFirst (l : list string) : bool :=
  match l with
  | [] => true
  | e :: l' =>
      if String.eqb e ".." then dotsFirst l' else forallb isName (e :: l')
  end.

Definition render (rooted : bool) (l : list string) : string :=
  let out := (if rooted then "/" else "") +:+ GoStrings.Join l "/" in
  if String.eqb out "" then "." else out.

(** A stack of kept elements in canonical form: names on top of [..]
    elements, and no [..] under a root. *)
Definition canonStack (rooted : bool) (kept : list string) : Prop :=
  exists names k,
    kept = (names ++ replicate k "..")%list
    /\ Forall (fun e => isName e = true) names
    /\ (rooted = true -> k = 0).

(** A cleaned path with at least one element, as its directory part
    followed by the last element. *)
Definition dirPrefix (rooted : bool) (l : list string) : string :=
  (if rooted then "/" else "")
  +:+ match l with [] => "" | _ :: _ => GoStrings.Join l "/" +:+ "/" end.

(** The number of [..] elements of a list. *)
Definition countDots (l : list string) : nat :=
  List.length (List.filter (String.eqb "..") l).

(** A lower-case hexadecimal digit. *)
Definition isHexChar (c : ascii) : bool := isDigit c || byteIn "a" "f" c.

(** What [resolveConflict] inserts before the extension. *)
Definition conflictTag (hash8 : string) (k : nat) : string :=
  "_" +:+ hash8 +:+ match k with O => "" | S _ => "_" +:+ Itoa k end.

(** Every path the mapper holds is the output directory joined with
    one name. *)
Definition flatMapper (fs : FileSystem) : Prop :=
  forall u p, urlToPath fs !! u = Some p ->
              exists name, isName name = true
                           /\ p = GoPath.Join (outputDir fs) name.

(** In hierarchical mode the mapper holds, for each URL, the path a
    fresh mapper gives it. *)
Definition hierarchicalCache (outputDir : string) (fs : FileSystem) : Prop :=
  filesystem.outputDir fs = outputDir /\ flatten fs = false
  /\ forall u p, urlToPath fs !! u = Some p ->
                 (GetLocalPath (New outputDir false) u).2 = Ok p.

(** ** Lines, filters, the pool and the tracker *)

(** A line the scanner cannot hold: it has [MaxScanTokenSize] bytes or
    more before its newline. *)
Definition tooLong (line : string) : bool :=
  (GoBufio.MaxScanTokenSize <=? N.of_nat (String.length line))%N.

(** The lines of a text: its pieces between newlines. *)
Definition textLines (content : string) : list string :=
  GoStrings.SplitByte content "010".

(** A scanned token that makes the parser flag [url] as a nested
    playlist: trimmed, it is a bare reference that looks like a
    playlist and resolves to [url]. *)
Definition flagsAsPlaylist (baseURL : GoUrl.URL) (url text : string) : Prop :=
  let line := GoStrings.TrimSpace text in
  isBareReference line = true /\ looksLikeM3U8 line = true
  /\ resolveURL baseURL line = url.

(** How a line of the input ends. *)
Inductive lineEnding : Type := LF | CRLF.

Definition ending (e : lineEnding) : string :=
  match e with LF => nl | CRLF => cr +:+ nl end.

(** Lines with their endings, one after the other. *)
Fixpoint terminated (lines : list (string * lineEnding)) : string :=
  match lines with
  | [] => ""
  | (line, e) :: rest => line +:+ ending e +:+ terminated rest
  end.

(** A line the rewriter has nothing to do with: no bare reference and
    no tag with a quoted URI, no line break inside, and short enough
    for the scanner with its line ending. *)
Definition plainLine (line : string) : bool :=
  negb (needsSource line)
  && negb (hasByte "010" line) && negb (hasByte "013" line)
  && (N.of_nat (String.length line) + 1 <? GoBufio.MaxScanTokenSize)%N.

(** A string with no space at either end. *)
Definition trimmed (t : string) : Prop :=
  GoStrings.leadingSpace GoStrings.spaceRunes t = None
  /\ GoStrings.leadingSpace (map GoStrings.rev GoStrings.spaceRunes)
                           (GoStrings.rev t) = None.

(** The string has an ASCII upper-case letter. *)
Definition hasUpper (s : string) : bool :=
  existsb isUpper (list_ascii_of_string s).

(** A [Downloader] with other filter lists. *)
Definition withFilters (d : Downloader) (inc exc : list string) : Downloader :=
  mkDownloader (fs d) (visited d) (concurrency d) (rewriteURLs d) inc exc.

(** The calls that change a [ProgressTracker]. *)
Inductive trackerCall : Type :=
| CallSetTotalFiles (total : Z)
| CallIncrementM3U8
| CallIncrementSegment (bytes : Z)
| CallAddBytes (bytes : Z).

Definition applyCall (p : progress.ProgressTracker) (c : trackerCall)
  : progress.ProgressTracker :=
  match c with
  | CallSetTotalFiles total => progress.SetTotalFiles p total
  | CallIncrementM3U8 => progress.IncrementM3U8 p
  | CallIncrementSegment bytes => progress.IncrementSegment p bytes
  | CallAddBytes bytes => progress.AddBytes p bytes
  end.

(** The bytes a call reports. *)
Definition callBytes (c : trackerCall) : Z :=
  match c with
  | CallIncrementSegment bytes | CallAddBytes bytes => bytes
  | _ => 0%Z
  end.

(** [n] times the byte [c]. *)
Fixpoint repeatByte (c : ascii) (n : nat) : string :=
  match n with
  | O => ""
  | S n' => String c (repeatByte c n')
  end.

(** What holds of the crawl at every moment, [before] being the
    visited set it started with: no URL was fetched twice, every URL
    fetched was unvisited at the start and is visited now, and no mark
    was taken back. *)
Definition fetchedOnce (before : gmap string bool) (s : crawl.state) : Prop :=
  NoDup (crawl.fetched s)
  /\ (forall u, u ∈ crawl.fetched s ->
        isVisited before u = false /\ isVisited (crawl.visited s) u = true)
  /\ (forall u, isVisited before u = true ->
        isVisited (crawl.visited s) u = true).

(** The steps that leave the visited set and the fetches alone. *)
Definition sameCrawl (s s' : crawl.state) : Prop :=
  crawl.visited s' = crawl.visited s /\ crawl.fetched s' = crawl.fetched s.

(** * Properties *)

(** Closed facts are settled by evaluation, conjunct by conjunct. *)
Ltac compute_conj :=
  repeat match goal with |- _ /\ _ => split end; vm_compute; reflexivity.

(** ** Strings *)

Section string_facts.
Import GoStrings.

Lemma append_cons (a : ascii) (s t : string) :
  String a s +:+ t = String a (s +:+ t).
Proof. reflexivity. Qed.

Lemma append_nil_l (t : string) : "" +:+ t = t.
Proof. reflexivity. Qed.

Lemma append_nil_r (s : string) : s +:+ "" = s.
Proof.
  induction s as [|a s IH]; [done|]. by rewrite append_cons, IH.
Qed.

Lemma append_assoc (a b c : string) : (a +:+ b) +:+ c = a +:+ (b +:+ c).
Proof.
  induction a as [|x a IH]; [done|]. by rewrite !append_cons, IH.
Qed.

Lemma length_append (a b : string) :
  String.length (a +:+ b) = String.length a + String.length b.
Proof.
  induction a as [|x a IH]; [done|]. rewrite append_cons. cbn. by rewrite IH.
Qed.

Lemma append_inv_head (s a b : string) : s +:+ a = s +:+ b -> a = b.
Proof.
  induction s as [|x s IH]; [done|]. rewrite !append_cons. intros [=]. auto.
Qed.

Lemma append_inv_tail (s a b : string) : a +:+ s = b +:+ s -> a = b.
Proof.
  revert b. induction a as [|x a IH]; intros [|y b];
    rewrite ?append_cons, ?append_nil_l; intros H.
  - done.
  - apply (f_equal String.length) in H. cbn in H.
    rewrite length_append in H. lia.
  - apply (f_equal String.length) in H. cbn in H.
    rewrite length_append in H. lia.
  - injection H as -> H. f_equal. by apply IH.
Qed.

Lemma take_drop (n : nat) (s : string) : take n s +:+ drop n s = s.
Proof.
  revert s. induction n as [|n IH]; intros [|a s]; cbn; try done.
  by rewrite append_cons, IH.
Qed.

Lemma drop_append (a b : string) : drop (String.length a) (a +:+ b) = b.
Proof.
  induction a as [|x a IH]; [by destruct b|]. by rewrite append_cons.
Qed.

Lemma take_append (a b : string) : take (String.length a) (a +:+ b) = a.
Proof.
  induction a as [|x a IH]; [by destruct b|].
  rewrite append_cons. cbn. by rewrite IH.
Qed.

Lemma length_drop (n : nat) (s : string) :
  String.length (drop n s) = String.length s - n.
Proof. revert s. induction n as [|n IH]; intros [|a s]; cbn; auto. Qed.

Lemma length_take (n : nat) (s : string) :
  String.length (take n s) = Nat.min n (String.length s).
Proof.
  revert s. induction n as [|n IH]; intros [|a s]; cbn; auto.
Qed.

Lemma HasPrefix_spec (s p : string) :
  HasPrefix s p = true <-> exists t, s = p +:+ t.
Proof.
  revert s. induction p as [|a p IH]; intros s; cbn.
  - split; [by exists s|done].
  - destruct s as [|b s]; cbn.
    + split; [done|]. by intros [t [=]].
    + rewrite andb_true_iff, IH. split.
      * intros [Hab [t ->]]. apply Ascii.eqb_eq in Hab as ->. by exists t.
      * intros [t Ht]. rewrite append_cons in Ht. injection Ht as -> ->.
        split; [apply Ascii.eqb_refl|by exists t].
Qed.

Lemma HasSuffix_spec (s suf : string) :
  HasSuffix s suf = true <-> exists t, s = t +:+ suf.
Proof.
  unfold HasSuffix. rewrite andb_true_iff, Nat.leb_le, String.eqb_eq. split.
  - intros [Hlen Heq].
    set (n := String.length s - String.length suf) in *.
    exists (take n s). rewrite <- (take_drop n s) at 1. by rewrite Heq.
  - intros [t ->]. rewrite length_append. split; [lia|].
    replace (String.length t + String.length suf - String.length suf)
      with (String.length t) by lia.
    apply drop_append.
Qed.

(** [Index] returns the position of an occurrence. *)
Lemma Index_Some (s sub : string) (i : nat) :
  Index s sub = Some i ->
  s = take i s +:+ sub +:+ drop (i + String.length sub) s.
Proof.
  revert i. induction s as [|a s IH]; intros i; cbn [Index].
  - destruct (HasPrefix "" sub) eqn:Hp; [|done].
    intros [= <-]. apply HasPrefix_spec in Hp as [t Ht].
    destruct sub; [done|by destruct t].
  - destruct (HasPrefix (String a s) sub) eqn:Hp.
    + intros [= <-]. apply HasPrefix_spec in Hp as [t Ht].
      cbn [take plus]. rewrite append_nil_l. rewrite Ht.
      by rewrite drop_append.
    + destruct (Index s sub) as [j|] eqn:Hj; [|done].
      intros [= <-]. cbn [take drop plus]. rewrite append_cons.
      f_equal. by apply IH.
Qed.

Lemma Index_None (s sub : string) :
  Index s sub = None -> forall a b, s <> a +:+ sub +:+ b.
Proof.
  induction s as [|x s IH]; cbn [Index].
  - destruct (HasPrefix "" sub) eqn:Hp; [done|]. intros _ a b Heq.
    destruct a; [|done]. rewrite append_nil_l in Heq.
    assert (HasPrefix "" sub = true) by (apply HasPrefix_spec; eauto).
    congruence.
  - destruct (HasPrefix (String x s) sub) eqn:Hp; [done|].
    destruct (Index s sub) eqn:Hi; [done|]. intros _ a b Heq.
    destruct a as [|y a].
    + rewrite append_nil_l in Heq.
      assert (HasPrefix (String x s) sub = true)
        by (apply HasPrefix_spec; eauto).
      congruence.
    + rewrite append_cons in Heq. injection Heq as -> Heq. by eapply IH.
Qed.

Lemma Contains_spec (s sub : string) :
  Contains s sub = true <-> exists a b, s = a +:+ sub +:+ b.
Proof.
  unfold Contains. destruct (Index s sub) as [i|] eqn:Hi.
  - split; [|done]. intros _. apply Index_Some in Hi. eauto.
  - split; [done|]. intros (a & b & Heq). by eapply Index_None in Hi.
Qed.

Lemma Index_bound (s sub : string) (i : nat) :
  Index s sub = Some i -> i + String.length sub <= String.length s.
Proof.
  revert i. induction s as [|a s IH]; intros i; cbn [Index].
  - destruct (HasPrefix "" sub) eqn:Hp; [|done]. intros [= <-].
    apply HasPrefix_spec in Hp as [t Ht].
    apply (f_equal String.length) in Ht. rewrite length_append in Ht. lia.
  - destruct (HasPrefix (String a s) sub) eqn:Hp.
    + intros [= <-]. apply HasPrefix_spec in Hp as [t Ht].
      apply (f_equal String.length) in Ht. rewrite length_append in Ht. lia.
    + destruct (Index s sub) as [j|] eqn:Hj; [|done].
      intros [= <-]. specialize (IH j eq_refl). cbn. lia.
Qed.

Lemma Itoa_inj (n m : nat) : Itoa n = Itoa m -> n = m.
Proof.
  unfold Itoa. intros H.
  apply DecimalNat.Unsigned.to_uint_inj.
  assert (Some (Nat.to_uint n) = Some (Nat.to_uint m)) as [=]; [|done].
  by rewrite <- !NilEmpty.usu, H.
Qed.

End string_facts.

(** ** The path mapper *)

Section filesystem_facts.

Lemma GetLocalPath_cases (fs : FileSystem) (u : string) :
  GetLocalPath_case fs u (GetLocalPath fs u).
Proof.
  unfold GetLocalPath.
  destruct (urlToPath fs !! u) as [p|] eqn:Hu; [by constructor|].
  destruct (GoUrl.Parse u) as [parsed|e] eqn:Hp; by constructor.
Qed.

Lemma GetLocalPath_cached (fs : FileSystem) (u p : string) :
  urlToPath fs !! u = Some p -> GetLocalPath fs u = (fs, Ok p).
Proof. intros H. unfold GetLocalPath. by rewrite H. Qed.

Lemma GetLocalPath_Ok (fs fs' : FileSystem) (u p : string) :
  GetLocalPath fs u = (fs', Ok p) -> urlToPath fs' !! u = Some p.
Proof.
  destruct (GetLocalPath_cases fs u) as [q Hq|e Hu He|parsed Hu Hp];
    intros [= <- <-]; [done|]. cbn. apply lookup_insert_eq.
Qed.

Lemma grows_refl (fs : FileSystem) : grows fs fs.
Proof. by split. Qed.

Lemma grows_trans (fs1 fs2 fs3 : FileSystem) :
  grows fs1 fs2 -> grows fs2 fs3 -> grows fs1 fs3.
Proof.
  intros [Ho Hf Hu Hp] [Ho' Hf' Hu' Hp']. split; try congruence; auto.
  by etrans.
Qed.

Lemma grows_lookup (fs fs' : FileSystem) (u p : string) :
  grows fs fs' -> urlToPath fs !! u = Some p -> urlToPath fs' !! u = Some p.
Proof. intros [_ _ Hsub _] H. by eapply lookup_weaken. Qed.

Lemma inUse_insert (fs : FileSystem) (m : gmap string string) (p q : string) :
  inUse fs p = true ->
  inUse (mkFileSystem (outputDir fs) (flatten fs) m
                      (<[q := true]> (pathsInUse fs))) p = true.
Proof.
  unfold inUse. cbn. intros H.
  destruct (decide (q = p)) as [->|Hne];
    [by rewrite lookup_insert_eq|by rewrite lookup_insert_ne].
Qed.

Lemma GetLocalPath_grows (fs : FileSystem) (u : string) :
  grows fs (GetLocalPath fs u).1.
Proof.
  destruct (GetLocalPath_cases fs u) as [q Hq|e Hu He|parsed Hu Hp]; cbn;
    try apply grows_refl.
  split; cbn; try done.
  - by apply insert_subseteq.
  - intros p. apply inUse_insert.
Qed.

Lemma assignAll_grows (fs : FileSystem) (urls : list string) :
  grows fs (assignAll fs urls).1.
Proof.
  revert fs. induction urls as [|u urls IH]; intros fs; cbn.
  - apply grows_refl.
  - pose proof (GetLocalPath_grows fs u) as H1.
    destruct (GetLocalPath fs u) as [fs1 r]. specialize (IH fs1).
    destruct (assignAll fs1 urls) as [fs2 rs]. cbn in *.
    by eapply grows_trans.
Qed.

(** A URL that does not parse never enters the mapper. *)
Lemma GetLocalPath_unparsable (fs : FileSystem) (u v : string) (e : error) :
  GoUrl.Parse u = Err e -> urlToPath fs !! u = None ->
  urlToPath (GetLocalPath fs v).1 !! u = None.
Proof.
  intros He Hu.
  destruct (GetLocalPath_cases fs v) as [q Hq|e' Hv He'|parsed Hv Hp]; cbn;
    try done.
  rewrite lookup_insert_ne; [done|]. intros ->. congruence.
Qed.

Lemma assignAll_unparsable (fs : FileSystem) (urls : list string)
    (u : string) (e : error) :
  GoUrl.Parse u = Err e -> urlToPath fs !! u = None ->
  urlToPath (assignAll fs urls).1 !! u = None.
Proof.
  intros He. revert fs. induction urls as [|v urls IH]; intros fs Hu; cbn.
  - done.
  - pose proof (GetLocalPath_unparsable fs u v e He Hu) as H1.
    destruct (GetLocalPath fs v) as [fs1 r]. specialize (IH fs1 H1).
    by destruct (assignAll fs1 urls) as [fs2 rs].
Qed.

End filesystem_facts.

(** C7. Path assignment is idempotent. Whatever the mapper's state, the
    first [GetLocalPath] call on a URL fixes its result: a successful
    result is stored under the URL, and after any further calls (on this
    or on other URLs) a call on the URL returns that same result and
    leaves the mapper as it is. In particular any number of repeated
    calls all return the result of the first. ([GetLocalPath] holds the
    mapper's lock for its whole body, so the calls of concurrent callers
    take effect as one such sequence.) *)
Theorem GetLocalPath_idempotent (fs : FileSystem) (u : string) :
  let first := GetLocalPath fs u in
  (forall later,
      let fs2 := (assignAll first.1 later).1 in
      GetLocalPath fs2 u = (fs2, first.2))
  /\ (forall p, first.2 = Ok p -> urlToPath first.1 !! u = Some p)
  /\ (forall n, (assignAll fs (replicate (S n) u)).2 = replicate (S n) first.2).
Proof.
  cbn zeta.
  assert (Hstable : forall later,
    GetLocalPath (assignAll (GetLocalPath fs u).1 later).1 u
    = ((assignAll (GetLocalPath fs u).1 later).1, (GetLocalPath fs u).2)).
  { intros later.
    destruct (GetLocalPath_cases fs u) as [q Hq|e Hu He|parsed Hu Hp]; cbn.
    - apply GetLocalPath_cached.
      eapply grows_lookup; [apply assignAll_grows|done].
    - pose proof (assignAll_unparsable fs later u e He Hu) as Hnone.
      unfold GetLocalPath. by rewrite Hnone, He.
    - apply GetLocalPath_cached.
      eapply grows_lookup; [apply assignAll_grows|]. cbn.
      apply lookup_insert_eq. }
  split; [apply Hstable|]. split.
  - intros p Hp. apply (GetLocalPath_Ok fs).
    destruct (GetLocalPath fs u) as [fs1 r1]. cbn in Hp. by subst.
  - intros n. cbn [replicate assignAll].
    specialize (Hstable []). cbn in Hstable.
    destruct (GetLocalPath fs u) as [fs1 r1]. cbn in *.
    assert (assignAll fs1 (replicate n u) = (fs1, replicate n r1)) as ->; [|done].
    induction n as [|n IH]; [done|].
    cbn [replicate assignAll]. by rewrite Hstable, IH.
Qed.

Lemma GetLocalPath_idempotent_witness :
  let u := "https://example.com/path/to/file.ts" in
  (GetLocalPath (New "out" false) u).2 = Ok "out/path/to/file.ts"
  /\ urlToPath (GetLocalPath (New "out" false) u).1 !! u
     = Some "out/path/to/file.ts".
Proof.
  cbn zeta. split; [vm_compute; reflexivity|].
  apply (proj1 (proj2 (GetLocalPath_idempotent (New "out" false) _))).
  vm_compute; reflexivity.
Defined.

(** ** Collision handling in flattened mode *)

Section collisions.

Variable fs : FileSystem.
Variables base hash8 ext : string.

Lemma triedPath_inj (i j : nat) :
  triedPath base hash8 ext i = triedPath base hash8 ext j -> i = j.
Proof.
  unfold triedPath, hashedPath, countedPath.
  destruct i as [|i], j as [|j]; intros H; [done| | |].
  - do 3 apply append_inv_head in H.
    apply (f_equal String.length) in H. rewrite !length_append in H.
    cbn in H. lia.
  - do 3 apply append_inv_head in H.
    apply (f_equal String.length) in H. rewrite !length_append in H.
    cbn in H. lia.
  - do 4 apply append_inv_head in H. apply append_inv_tail in H.
    by apply Itoa_inj.
Qed.

(** Among any [size + 1] distinct paths one is unclaimed. *)
Lemma unclaimed_exists :
  exists j, j <= size (pathsInUse fs)
            /\ inUse fs (triedPath base hash8 ext j) = false.
Proof.
  set (n := size (pathsInUse fs)).
  set (f := triedPath base hash8 ext).
  destruct (decide (Forall (fun j => is_Some (pathsInUse fs !! f j))
                           (seq 0 (S n)))) as [Hall|Hnot].
  - exfalso.
    assert (NoDup (f <$> seq 0 (S n))) as Hnd.
    { apply NoDup_fmap_2; [|apply NoDup_seq].
      intros i j. apply triedPath_inj. }
    assert (list_to_set (f <$> seq 0 (S n)) ⊆ dom (pathsInUse fs)) as Hsub.
    { intros p Hp. apply elem_of_list_to_set, list_elem_of_fmap in Hp
        as (j & -> & Hj).
      apply elem_of_dom. rewrite Forall_forall in Hall. by apply Hall. }
    apply subseteq_size in Hsub.
    rewrite size_list_to_set, length_fmap, length_seq, size_dom in Hsub by done.
    fold n in Hsub. lia.
  - apply not_Forall_Exists in Hnot; [|apply _].
    apply Exists_exists in Hnot as (j & Hj & Hfree).
    apply elem_of_seq in Hj. exists j. split; [lia|].
    unfold inUse. destruct (pathsInUse fs !! f j) eqn:E; [|done].
    exfalso. apply Hfree. by eexists.
Qed.

Lemma least_unclaimed (j : nat) :
  inUse fs (triedPath base hash8 ext j) = false ->
  exists j', j' <= j /\ inUse fs (triedPath base hash8 ext j') = false
             /\ forall i, i < j' -> inUse fs (triedPath base hash8 ext i) = true.
Proof.
  induction j as [j IH] using lt_wf_ind. intros Hfree.
  destruct (decide (Forall (fun i => inUse fs (triedPath base hash8 ext i) = true)
                           (seq 0 j))) as [Hall|Hnot].
  - exists j. repeat split; [lia|done|]. intros i Hi.
    rewrite Forall_forall in Hall. apply Hall, elem_of_seq. lia.
  - apply not_Forall_Exists in Hnot; [|apply _].
    apply Exists_exists in Hnot as (i & Hi & Hfi).
    apply elem_of_seq in Hi. apply not_true_is_false in Hfi.
    destruct (IH i ltac:(lia) Hfi) as (j' & Hj' & Hfj' & Hleast).
    exists j'. repeat split; [lia|done|done].
Qed.

(** The loop stops at the first unclaimed path among those it can reach. *)
Lemma conflictLoop_least (fuel k j : nat) :
  k <= j -> j < k + fuel ->
  inUse fs (triedPath base hash8 ext j) = false ->
  (forall i, k <= i -> i < j -> inUse fs (triedPath base hash8 ext i) = true) ->
  conflictLoop fs (countedPath base hash8 ext) fuel
               (triedPath base hash8 ext k) (S k)
  = triedPath base hash8 ext j.
Proof.
  revert k. induction fuel as [|fuel IH]; intros k Hkj Hj Hfree Hbusy; [lia|].
  cbn [conflictLoop]. destruct (decide (k = j)) as [->|Hne].
  - by rewrite Hfree.
  - rewrite Hbusy by lia. apply (IH (S k)); [lia|lia|done|].
    intros i ??. apply Hbusy; lia.
Qed.

End collisions.

Section hash_length.
Import Sha256.

Lemma round_length (st : list Z) (kw : Z * Z) :
  List.length st = 8 -> List.length (round st kw) = 8.
Proof.
  intros H. do 9 (destruct st as [|? st]; try done).
Qed.

Lemma compress_length (h block : list Z) :
  List.length h = 8 -> List.length (compress h block) = 8.
Proof.
  intros H. unfold compress.
  rewrite length_map, length_combine.
  assert (forall kws st, List.length st = 8 ->
            List.length (fold_left round kws st) = 8) as Hfold.
  { induction kws as [|kw kws IH]; intros st Hst; [done|].
    cbn. by apply IH, round_length. }
  rewrite Hfold by done. lia.
Qed.

Lemma digest_length (msg : list Z) : List.length (digest msg) = 8.
Proof.
  unfold digest. generalize (blocks (List.length (words (List.length (pad msg)) (pad msg)))
                                    (words (List.length (pad msg)) (pad msg))).
  assert (List.length H0 = 8) as Hlen by done. revert Hlen.
  generalize H0. intros h Hh bs. revert h Hh.
  induction bs as [|b bs IH]; intros h Hh; [done|].
  cbn. by apply IH, compress_length.
Qed.

Lemma hexString_length (bs : list Z) :
  String.length (hexString bs) = 2 * List.length bs.
Proof. induction bs as [|b bs IH]; [done|]. cbn. rewrite IH. lia. Qed.

Lemma flat_map_bigEndian_length (ws : list Z) :
  List.length (flat_map (bigEndian 4) ws) = 4 * List.length ws.
Proof.
  induction ws as [|w ws IH]; [done|].
  cbn [flat_map]. rewrite length_app, IH. cbn. lia.
Qed.

(** The hexadecimal SHA-256 digest has 64 characters. *)
Lemma generateHashFromURL_length (urlStr : string) :
  String.length (generateHashFromURL urlStr) = 64.
Proof.
  unfold generateHashFromURL, hexSum.
  by rewrite hexString_length, flat_map_bigEndian_length, digest_length.
Qed.

End hash_length.

Lemma hash8_length (urlStr : string) :
  String.length (GoStrings.take 8 (generateHashFromURL urlStr)) = 8.
Proof. by rewrite length_take, generateHashFromURL_length. Qed.

(** [resolveConflict] returns the first unclaimed path of its sequence. *)
Lemma resolveConflict_spec (fs : FileSystem) (originalPath urlStr : string) :
  let ext := GoPath.Ext originalPath in
  let base := GoStrings.TrimSuffix originalPath ext in
  let hash8 := GoStrings.take 8 (generateHashFromURL urlStr) in
  exists k,
    resolveConflict fs originalPath urlStr = triedPath base hash8 ext k
    /\ inUse fs (triedPath base hash8 ext k) = false
    /\ forall i, i < k -> inUse fs (triedPath base hash8 ext i) = true.
Proof.
  intros ext base hash8.
  destruct (unclaimed_exists fs base hash8 ext) as (j0 & Hj0 & Hfree0).
  destruct (least_unclaimed fs base hash8 ext j0 Hfree0)
    as (k & Hk & Hfree & Hbusy).
  exists k. split; [|done].
  unfold resolveConflict. fold ext base hash8.
  apply (conflictLoop_least fs base hash8 ext _ 0 k); [lia|lia|done|].
  intros i _ Hi. by apply Hbusy.
Qed.

Lemma freshPath_unclaimed (fs : FileSystem) (urlStr : string)
    (parsedURL : GoUrl.URL) :
  flatten fs = true -> inUse fs (freshPath fs urlStr parsedURL) = false.
Proof.
  intros Hflat. unfold freshPath. rewrite Hflat.
  destruct (inUse fs (flatPath fs urlStr parsedURL)) eqn:Huse; [|done].
  destruct (resolveConflict_spec fs (flatPath fs urlStr parsedURL) urlStr)
    as (k & -> & Hfree & _).
  done.
Qed.

Lemma New_wellFormed (outputDir : string) (flat : bool) :
  wellFormed (New outputDir flat).
Proof. split; cbn; intros *; by rewrite lookup_empty. Qed.

Lemma GetLocalPath_wellFormed (fs : FileSystem) (u : string) :
  flatten fs = true -> wellFormed fs -> wellFormed (GetLocalPath fs u).1.
Proof.
  intros Hflat [Hcl Hinj].
  destruct (GetLocalPath_cases fs u) as [q Hq|e Hu He|parsed Hu Hp]; cbn;
    [by split..|].
  pose proof (freshPath_unclaimed fs u parsed Hflat) as Hfree.
  set (p := freshPath fs u parsed) in *.
  assert (forall v, urlToPath fs !! v <> Some p) as Hnew.
  { intros v Hv. apply Hcl in Hv. congruence. }
  split; cbn.
  - intros v q. destruct (decide (u = v)) as [<-|Hne].
    + rewrite lookup_insert_eq. intros [= <-].
      unfold inUse. cbn. by rewrite lookup_insert_eq.
    + rewrite lookup_insert_ne by done. intros Hv.
      by apply inUse_insert, (Hcl v).
  - intros v1 v2 q.
    destruct (decide (u = v1)) as [<-|Hne1], (decide (u = v2)) as [<-|Hne2];
      rewrite ?lookup_insert_eq, ?lookup_insert_ne by done; try done.
    + intros [= <-] Hv2. by destruct (Hnew v2).
    + intros Hv1 [= <-]. by destruct (Hnew v1).
    + apply Hinj.
Qed.

Lemma assignAll_wellFormed (fs : FileSystem) (urls : list string) :
  flatten fs = true -> wellFormed fs -> wellFormed (assignAll fs urls).1.
Proof.
  revert fs. induction urls as [|u urls IH]; intros fs Hflat Hwf; [done|].
  cbn. pose proof (GetLocalPath_wellFormed fs u Hflat Hwf) as Hwf1.
  pose proof (grows_flatten _ _ (GetLocalPath_grows fs u)) as Hflat1.
  destruct (GetLocalPath fs u) as [fs1 r]. cbn in *.
  specialize (IH fs1 ltac:(congruence) Hwf1).
  by destruct (assignAll fs1 urls) as [fs2 rs].
Qed.

(** Every successful result of a run is the final entry of its URL. *)
Lemma assignAll_results (fs : FileSystem) (urls : list string)
    (i : nat) (u p : string) :
  urls !! i = Some u -> (assignAll fs urls).2 !! i = Some (Ok p) ->
  urlToPath (assignAll fs urls).1 !! u = Some p.
Proof.
  revert fs i. induction urls as [|v urls IH]; intros fs i Hu Hr; [done|].
  cbn in *.
  pose proof (fun fs' q => GetLocalPath_Ok fs fs' v q) as Hok.
  destruct (GetLocalPath fs v) as [fs1 r].
  pose proof (assignAll_grows fs1 urls) as Hgrow. specialize (IH fs1).
  destruct (assignAll fs1 urls) as [fs2 rs]. cbn in *.
  destruct i as [|i]; cbn in *.
  - injection Hu as ->. injection Hr as ->.
    eapply grows_lookup; [done|]. by apply Hok.
  - by apply (IH i).
Qed.

(** C2 (as amended: flattened mode). From a new flattened-mode mapper,
    whatever the sequence of [GetLocalPath] calls, two calls on distinct
    URLs that succeed return distinct paths. The collision policy: when
    the path computed for a URL is already claimed, the assigned path is
    the first unclaimed one among [base_hash8.ext], [base_hash8_1.ext],
    [base_hash8_2.ext], ... where [hash8] is the first 8 characters of the
    URL's hash; an unclaimed computed path is assigned as it is. *)
Theorem flattened_paths_distinct (outputDir : string) (urls : list string) :
  let run := assignAll (New outputDir true) urls in
  (forall i j u1 u2 p1 p2,
      urls !! i = Some u1 -> urls !! j = Some u2 ->
      run.2 !! i = Some (Ok p1) -> run.2 !! j = Some (Ok p2) ->
      u1 <> u2 -> p1 <> p2)
  /\ (forall fs urlStr parsedURL,
        flatten fs = true ->
        let localPath := flatPath fs urlStr parsedURL in
        let ext := GoPath.Ext localPath in
        let base := GoStrings.TrimSuffix localPath ext in
        let hash8 := GoStrings.take 8 (generateHashFromURL urlStr) in
        String.length hash8 = 8
        /\ inUse fs (freshPath fs urlStr parsedURL) = false
        /\ (inUse fs localPath = false ->
            freshPath fs urlStr parsedURL = localPath)
        /\ (inUse fs localPath = true ->
            exists k,
              freshPath fs urlStr parsedURL = triedPath base hash8 ext k
              /\ forall i, i < k ->
                   inUse fs (triedPath base hash8 ext i) = true)).
Proof.
  cbn zeta. split.
  - intros i j u1 u2 p1 p2 Hu1 Hu2 Hp1 Hp2 Hne ->.
    pose proof (assignAll_wellFormed (New outputDir true) urls eq_refl
                  (New_wellFormed outputDir true)) as [_ Hinj].
    apply Hne, (Hinj u1 u2 p2); by eapply assignAll_results.
  - intros fs urlStr parsedURL Hflat.
    split; [apply hash8_length|].
    split; [by apply freshPath_unclaimed|].
    unfold freshPath. rewrite Hflat. split.
    + by intros ->.
    + intros ->.
      destruct (resolveConflict_spec fs (flatPath fs urlStr parsedURL) urlStr)
        as (k & Hk & _ & Hbusy).
      eauto.
Qed.

Lemma flattened_paths_distinct_witness :
  (assignAll (New "out" true)
     ["https://a.example.com/v1/seg.ts"; "https://b.example.com/v2/seg.ts"]).2
  = [Ok "out/seg.ts"; Ok "out/seg_62b0396b.ts"]
  /\ "out/seg.ts" <> "out/seg_62b0396b.ts".
Proof.
  split; [vm_compute; reflexivity|].
  apply (proj1 (flattened_paths_distinct "out"
           ["https://a.example.com/v1/seg.ts"; "https://b.example.com/v2/seg.ts"])
           0 1 "https://a.example.com/v1/seg.ts" "https://b.example.com/v2/seg.ts").
  - reflexivity.
  - reflexivity.
  - vm_compute; reflexivity.
  - vm_compute; reflexivity.
  - discriminate.
Defined.

(** C2 (as stated) fails in hierarchical mode: two URLs that differ in
    their host only are both assigned [out/v/seg.ts]. *)
Lemma hierarchical_paths_collide :
  (assignAll (New "out" false)
     ["https://a.example.com/v/seg.ts"; "https://b.example.com/v/seg.ts"]).2
  = [Ok "out/v/seg.ts"; Ok "out/v/seg.ts"].
Proof. vm_compute. reflexivity. Qed.

(** ** The rewriter and the mapper's state *)

Lemma preserves_ret {A} (a : A) : preserves (ret a).
Proof. intros fs. apply grows_refl. Qed.

Lemma preserves_liftOutcome {A} (o : outcome A) : preserves (liftOutcome o).
Proof. intros fs. apply grows_refl. Qed.

Lemma preserves_bind {A B} (m : M A) (k : A -> M B) :
  preserves m -> (forall a, preserves (k a)) -> preserves (bind m k).
Proof.
  intros Hm Hk fs. unfold bind. specialize (Hm fs).
  destruct (m fs) as [[a|msg] fs1]; cbn in *; [|done].
  eapply grows_trans; [done|apply Hk].
Qed.

Lemma GetRelativePath_grows (fs : FileSystem) (fromURL toURL : string) :
  grows fs (GetRelativePath fs fromURL toURL).1.
Proof.
  unfold GetRelativePath.
  pose proof (GetLocalPath_grows fs fromURL) as H1.
  destruct (GetLocalPath fs fromURL) as [fs1 [fromPath|e]]; [|done].
  pose proof (GetLocalPath_grows fs1 toURL) as H2.
  destruct (GetLocalPath fs1 toURL) as [fs2 [toPath|e]]; cbn in *;
    [|by eapply grows_trans].
  destruct (GoPath.Rel _ _); by eapply grows_trans.
Qed.

Lemma preserves_GetRelativePath (fromURL toURL : string) :
  preserves (call (fun fs => GetRelativePath fs fromURL toURL)).
Proof.
  intros fs. unfold call.
  pose proof (GetRelativePath_grows fs fromURL toURL) as H.
  by destruct (GetRelativePath fs fromURL toURL).
Qed.

Ltac preserves_step :=
  repeat first
    [ apply preserves_ret
    | apply preserves_liftOutcome
    | apply preserves_GetRelativePath
    | apply preserves_bind; [|intros ?]
    | match goal with
      | |- preserves (match ?x with _ => _ end) => destruct x
      | |- preserves (if ?b then _ else _) => destruct b
      end ].

Lemma rewriteSegmentLine_preserves (line sourceURL : string) :
  preserves (rewriteSegmentLine line sourceURL).
Proof. unfold rewriteSegmentLine. preserves_step. Qed.

Lemma rewriteTagLoop_preserves (fuel : nat) (sourceURL result : string) :
  preserves (rewriteTagLoop fuel sourceURL result).
Proof.
  revert result. induction fuel as [|fuel IH]; intros result; cbn.
  - apply preserves_ret.
  - preserves_step. apply IH.
Qed.

Lemma rewriteLine_preserves (sourceURL line : string) :
  preserves (rewriteLine sourceURL line).
Proof.
  unfold rewriteLine, rewriteTagLine. preserves_step.
  all: first [apply rewriteTagLoop_preserves|apply rewriteSegmentLine_preserves].
Qed.

Lemma rewriteLines_preserves (sourceURL : string) (lines : list string)
    (output : string) :
  preserves (rewriteLines sourceURL lines output).
Proof.
  revert output. induction lines as [|line lines IH]; intros output; cbn.
  - apply preserves_ret.
  - apply preserves_bind; [apply rewriteLine_preserves|intros ?; apply IH].
Qed.

Lemma RewriteM3U8URLs_preserves (content sourceURL : string) :
  preserves (RewriteM3U8URLs content sourceURL).
Proof.
  unfold RewriteM3U8URLs. destruct (GoBufio.scanLines content) as [lines e].
  apply preserves_bind; [apply rewriteLines_preserves|].
  intros ?. destruct e; apply preserves_ret.
Qed.

(** Parsing empty content cannot fail. *)
Lemma ParseM3U8_empty (baseURL : GoUrl.URL) :
  ParseM3U8 "" baseURL = Ok (mkM3U8File "" baseURL [] ∅).
Proof. reflexivity. Qed.

(** A bare reference line, when the source URL parses. *)
Lemma rewriteSegmentLine_eq (line sourceURL : string) (base : GoUrl.URL)
    (fs : FileSystem) :
  GoUrl.Parse sourceURL = Ok base ->
  rewriteSegmentLine line sourceURL fs
  = let r := GetRelativePath fs sourceURL (resolveURL base line) in
    (Ret (match r.2 with Ok relativePath => relativePath | Err _ => line end),
     r.1).
Proof.
  intros Hbase. unfold rewriteSegmentLine, bind, liftOutcome, mustParseURL, call.
  rewrite Hbase, ParseM3U8_empty. cbn.
  by destruct (GetRelativePath fs sourceURL (resolveURL base line))
    as [fs' [rel|e]].
Qed.

Lemma GetLocalPath_parsable (fs : FileSystem) (u : string) :
  isOk (GoUrl.Parse u) = true ->
  exists p, (GetLocalPath fs u).2 = Ok p
            /\ urlToPath (GetLocalPath fs u).1 !! u = Some p.
Proof.
  intros Hok.
  destruct (GetLocalPath_cases fs u) as [q Hq|e Hu He|parsed Hu Hp]; cbn.
  - eauto.
  - by rewrite He in Hok.
  - eexists. split; [done|]. apply lookup_insert_eq.
Qed.

Lemma GetRelativePath_assigns (fs : FileSystem) (fromURL toURL : string) :
  isOk (GoUrl.Parse fromURL) = true -> isOk (GoUrl.Parse toURL) = true ->
  is_Some (urlToPath (GetRelativePath fs fromURL toURL).1 !! toURL).
Proof.
  intros Hfrom Hto. unfold GetRelativePath.
  destruct (GetLocalPath_parsable fs fromURL Hfrom) as (p1 & Hr1 & _).
  destruct (GetLocalPath fs fromURL) as [fs1 r1]. cbn in Hr1. subst r1.
  destruct (GetLocalPath_parsable fs1 toURL Hto) as (p2 & Hr2 & Hin).
  destruct (GetLocalPath fs1 toURL) as [fs2 r2]. cbn in *. subst r2.
  by destruct (GoPath.Rel _ _).
Qed.

Lemma exampleSource_parses : GoUrl.Parse exampleSource = Ok exampleBase.
Proof. vm_compute. reflexivity. Qed.

(** C3 (as amended). Rewriting never changes or removes an assignment:
    the output root and the mode stay, every URL assigned before keeps
    its path, and every claimed path stays claimed. It does add
    assignments: a bare reference line is resolved against the source
    URL and passed to [GetRelativePath], which assigns a path to the
    resolved URL if it has none yet and parses; the line becomes the
    relative path when that is computed, and stays as it is otherwise. *)
Theorem RewriteM3U8URLs_keeps_assignments (content sourceURL : string)
    (fs : FileSystem) :
  let fs' := (RewriteM3U8URLs content sourceURL fs).2 in
  (outputDir fs' = outputDir fs /\ flatten fs' = flatten fs
   /\ (forall u p, urlToPath fs !! u = Some p -> urlToPath fs' !! u = Some p)
   /\ (forall p, inUse fs p = true -> inUse fs' p = true))
  /\ (forall base line,
        GoUrl.Parse sourceURL = Ok base -> isBareReference line = true ->
        let target := resolveURL base line in
        let r := GetRelativePath fs sourceURL target in
        rewriteLine sourceURL line fs
        = (Ret (match r.2 with Ok relativePath => relativePath | Err _ => line end),
           r.1)
        /\ (isOk (GoUrl.Parse target) = true ->
            is_Some (urlToPath r.1 !! target))).
Proof.
  cbn zeta. split.
  - destruct (RewriteM3U8URLs_preserves content sourceURL fs) as [Ho Hf Hu Hp].
    repeat split; try done. intros u p Hup. by eapply lookup_weaken.
  - intros base line Hbase Hbare. split.
    + unfold isBareReference in Hbare. apply andb_true_iff in Hbare as [H1 H2].
      apply negb_true_iff in H2. unfold rewriteLine. rewrite H2, H1.
      cbn [negb andb].
      exact (rewriteSegmentLine_eq line sourceURL base fs Hbase).
    + intros Htarget. apply GetRelativePath_assigns; [|done].
      by rewrite Hbase.
Qed.

Lemma RewriteM3U8URLs_keeps_assignments_witness :
  let segment := "https://example.com/path/seg.ts" in
  let crawled := (assignAll (New "out" false) [segment]).1 in
  let content := "seg.ts" +:+ nl +:+ "https://example.com/path/sub.vtt" +:+ nl in
  urlToPath crawled !! segment = Some "out/path/seg.ts"
  /\ urlToPath (RewriteM3U8URLs content exampleSource crawled).2 !! segment
     = Some "out/path/seg.ts".
Proof.
  cbn zeta. split; [vm_compute; reflexivity|].
  apply (proj1 (RewriteM3U8URLs_keeps_assignments _ exampleSource _)).
  vm_compute; reflexivity.
Defined.

(** C3 (as stated) fails. With [.vtt] excluded the crawl assigns a path
    to the segment only; rewriting the playlist then adds an entry for
    the skipped subtitle URL and replaces its line by [sub.vtt]. *)
Lemma RewriteM3U8URLs_assigns_skipped_URL :
  let d := mkDownloader (New "out" false) ∅ 5 true [] [".vtt"] in
  let skipped := "https://example.com/path/sub.vtt" in
  let content := "seg.ts" +:+ nl +:+ skipped +:+ nl in
  exists doc,
    ParseM3U8 content exampleBase = Ok doc
    /\ URLs doc = ["https://example.com/path/seg.ts"; skipped]
    /\ filterURLs d (URLs doc) = ["https://example.com/path/seg.ts"]
    /\ let crawled := (assignAll (fs d) (filterURLs d (URLs doc))).1 in
       let rewritten := RewriteM3U8URLs content exampleSource crawled in
       urlToPath crawled !! skipped = None
       /\ rewritten.1 = Ret (Ok ("seg.ts" +:+ nl +:+ "sub.vtt" +:+ nl))
       /\ urlToPath rewritten.2 !! skipped = Some "out/path/sub.vtt".
Proof.
  cbn zeta. eexists. split; [vm_compute; reflexivity|].
  compute_conj.
Qed.

(** ** Panics of the rewriter *)

Lemma returns_ret {A} (a : A) : returns (ret a).
Proof. intros fs. by exists a, fs. Qed.

Lemma returns_call {A} (f : FileSystem -> FileSystem * A) : returns (call f).
Proof. intros fs. unfold call. destruct (f fs) as [fs' a]. by exists a, fs'. Qed.

Lemma returns_bind {A B} (m : M A) (k : A -> M B) :
  returns m -> (forall a, returns (k a)) -> returns (bind m k).
Proof.
  intros Hm Hk fs. unfold bind. destruct (Hm fs) as (a & fs1 & ->).
  apply Hk.
Qed.

Lemma returns_mustParseURL (sourceURL : string) :
  isOk (GoUrl.Parse sourceURL) = true ->
  returns (liftOutcome (mustParseURL sourceURL)).
Proof.
  intros Hok fs. unfold liftOutcome, mustParseURL.
  destruct (GoUrl.Parse sourceURL) as [u|e]; [by exists u, fs|done].
Qed.

Ltac returns_step :=
  repeat first
    [ apply returns_ret
    | apply returns_call
    | apply returns_mustParseURL; assumption
    | apply returns_bind; [|intros ?]
    | match goal with
      | |- returns (match ?x with _ => _ end) => destruct x
      | |- returns (if ?b then _ else _) => destruct b
      end ].

Lemma rewriteTagLoop_returns (fuel : nat) (sourceURL result : string) :
  isOk (GoUrl.Parse sourceURL) = true ->
  returns (rewriteTagLoop fuel sourceURL result).
Proof.
  intros Hok. revert result. induction fuel as [|fuel IH]; intros result; cbn.
  - apply returns_ret.
  - returns_step. apply IH.
Qed.

Lemma rewriteLine_returns (sourceURL line : string) :
  isOk (GoUrl.Parse sourceURL) = true -> returns (rewriteLine sourceURL line).
Proof.
  intros Hok. unfold rewriteLine, rewriteTagLine, rewriteSegmentLine.
  returns_step. by apply rewriteTagLoop_returns.
Qed.

Lemma rewriteLines_returns (sourceURL : string) (lines : list string)
    (output : string) :
  isOk (GoUrl.Parse sourceURL) = true ->
  returns (rewriteLines sourceURL lines output).
Proof.
  intros Hok. revert output.
  induction lines as [|line lines IH]; intros output; cbn.
  - apply returns_ret.
  - apply returns_bind; [by apply rewriteLine_returns|intros ?; apply IH].
Qed.

(** The accumulator of [extractLoop] is a prefix of its result. *)
Lemma extractLoop_acc (fuel : nat) (line : string) (urls : list string) :
  exists more, extractLoop fuel line urls = (urls ++ more)%list.
Proof.
  revert line urls. induction fuel as [|fuel IH]; intros line urls; cbn.
  - exists []. by rewrite app_nil_r.
  - destruct (GoStrings.Index line uriPrefix) as [idx|];
      [|exists []; by rewrite app_nil_r].
    destruct (GoStrings.Index _ dquote) as [endIdx|];
      [|exists []; by rewrite app_nil_r].
    edestruct IH as [more ->]. rewrite <- app_assoc. eauto.
Qed.

(** A quoted [URI] value: the first [uriPrefix] is followed by a
    closing quote. *)
Lemma hasQuotedURI_spec (line : string) :
  hasQuotedURI line = true <->
  exists idx endIdx,
    GoStrings.Index line uriPrefix = Some idx
    /\ GoStrings.Index
         (GoStrings.drop (idx + String.length uriPrefix) line) dquote
       = Some endIdx.
Proof.
  unfold hasQuotedURI, extractURLsFromTag. cbn [extractLoop].
  destruct (GoStrings.Index line uriPrefix) as [idx|].
  - destruct (GoStrings.Index (GoStrings.drop (idx + String.length uriPrefix) line)
                dquote) as [endIdx|] eqn:Hend.
    + edestruct extractLoop_acc as [more ->]. split; [eauto|done].
    + split; [done|]. intros (? & ? & [= <-] & ?). congruence.
  - split; [done|]. by intros (? & ? & ? & ?).
Qed.

Lemma rewriteLine_quiet (sourceURL line : string) (fs : FileSystem) :
  needsSource line = false -> rewriteLine sourceURL line fs = (Ret line, fs).
Proof.
  unfold needsSource, isBareReference, isURITagLine, rewriteLine.
  intros Hq. apply orb_false_iff in Hq as [Hbare Htag].
  destruct (GoStrings.HasPrefix line "#") eqn:Hhash; cbn in *.
  - unfold containsURI, GoStrings.Contains, rewriteTagLine.
    destruct (GoStrings.Index line uriPrefix) as [idx|] eqn:Hidx; [|done].
    unfold bind. cbn [rewriteTagLoop]. rewrite Hidx.
    destruct (GoStrings.Index (GoStrings.drop (idx + String.length uriPrefix) line)
                dquote) as [endIdx|] eqn:Hend; [|done].
    assert (hasQuotedURI line = true) by (apply hasQuotedURI_spec; eauto).
    congruence.
  - rewrite andb_true_r in Hbare. by rewrite Hbare.
Qed.

Lemma rewriteLine_panics (sourceURL line : string) (fs : FileSystem)
    (e : error) :
  GoUrl.Parse sourceURL = Err e -> needsSource line = true ->
  rewriteLine sourceURL line fs
  = (Panic (Wrapped ("failed to parse URL " +:+ sourceURL) e), fs).
Proof.
  unfold needsSource, isBareReference, isURITagLine, rewriteLine.
  intros Hbad Hn.
  assert (mustParseURL sourceURL
          = Panic (Wrapped ("failed to parse URL " +:+ sourceURL) e)) as Hpanic.
  { unfold mustParseURL. by rewrite Hbad. }
  destruct (GoStrings.HasPrefix line "#") eqn:Hhash; cbn in Hn.
  - rewrite andb_false_r in Hn. cbn in Hn.
    apply hasQuotedURI_spec in Hn as (idx & endIdx & Hidx & Hend).
    unfold containsURI, GoStrings.Contains, rewriteTagLine. rewrite Hidx.
    unfold bind. cbn [rewriteTagLoop]. rewrite Hidx, Hend.
    unfold bind, liftOutcome. by rewrite Hpanic.
  - rewrite orb_false_r, andb_true_r in Hn. rewrite Hn. cbn.
    unfold rewriteSegmentLine, bind, liftOutcome. by rewrite Hpanic.
Qed.

Lemma rewriteLines_panics (sourceURL : string) (lines : list string)
    (output : string) (fs : FileSystem) (e : error) :
  GoUrl.Parse sourceURL = Err e ->
  Exists (fun line => needsSource line = true) lines ->
  rewriteLines sourceURL lines output fs
  = (Panic (Wrapped ("failed to parse URL " +:+ sourceURL) e), fs).
Proof.
  intros Hbad. revert output.
  induction lines as [|line lines IH]; intros output Hex.
  - by apply Exists_nil in Hex.
  - cbn. unfold bind. destruct (needsSource line) eqn:Hn.
    + by rewrite (rewriteLine_panics _ _ _ e).
    + rewrite rewriteLine_quiet by done. apply IH.
      apply Exists_cons in Hex as [Hex|Hex]; [congruence|done].
Qed.

Lemma rewriteLines_quiet (sourceURL : string) (lines : list string)
    (output : string) (fs : FileSystem) :
  Forall (fun line => needsSource line = false) lines ->
  rewriteLines sourceURL lines output fs = (Ret (output +:+ unlines lines), fs).
Proof.
  revert output. induction lines as [|line lines IH]; intros output Hall; cbn.
  - by rewrite append_nil_r.
  - apply Forall_cons in Hall as [Hq Hall]. unfold bind.
    rewrite rewriteLine_quiet by done. rewrite IH by done.
    by rewrite !append_assoc.
Qed.

(** C10 (as amended). [RewriteM3U8URLs] returns, without a panic, whenever its source
    URL parses. When [url.Parse] rejects the source URL and the scanner
    yields at least one bare reference line or one tag line with a quoted
    [URI] value, the call panics in [mustParseURL] rather than return an
    error (and before it has touched the mapper). Without such a line
    nothing needs the source URL and the lines are copied. *)
Theorem RewriteM3U8URLs_panics_only_on_bad_source (content sourceURL : string)
    (fs : FileSystem) :
  let lines := (GoBufio.scanLines content).1 in
  (isOk (GoUrl.Parse sourceURL) = true ->
   exists r fs', RewriteM3U8URLs content sourceURL fs = (Ret r, fs'))
  /\ (forall e,
        GoUrl.Parse sourceURL = Err e ->
        (exists line, line ∈ lines
                      /\ (isBareReference line || isURITagLine line) = true) ->
        RewriteM3U8URLs content sourceURL fs
        = (Panic (Wrapped ("failed to parse URL " +:+ sourceURL) e), fs))
  /\ ((forall line, line ∈ lines ->
          (isBareReference line || isURITagLine line) = false) ->
      exists r, RewriteM3U8URLs content sourceURL fs = (Ret r, fs)).
Proof.
  cbn zeta. unfold RewriteM3U8URLs.
  destruct (GoBufio.scanLines content) as [lines scanErr]. cbn [fst].
  split; [|split].
  - intros Hok.
    assert (returns (output <- rewriteLines sourceURL lines "";;
                     match scanErr with
                     | Some err => ret (Err (Wrapped "error scanning M3U8 file" err))
                     | None => ret (Ok output)
                     end)) as Hret; [|apply Hret].
    apply returns_bind; [by apply rewriteLines_returns|].
    intros ?. destruct scanErr; apply returns_ret.
  - intros e Hbad (line & Hin & Hneeds). unfold bind.
    rewrite (rewriteLines_panics _ _ _ _ e); [done|done|].
    apply Exists_exists. eauto.
  - intros Hquiet. unfold bind.
    rewrite rewriteLines_quiet by (by apply Forall_forall).
    destruct scanErr; eauto.
Qed.

Lemma RewriteM3U8URLs_panics_only_on_bad_source_witness :
  (exists r fs',
      RewriteM3U8URLs ("seg.ts" +:+ nl) exampleSource (New "out" false)
      = (Ret r, fs'))
  /\ RewriteM3U8URLs ("#EXTM3U" +:+ nl +:+ "seg.ts" +:+ nl) "%zz" (New "out" false)
     = (Panic (Wrapped "failed to parse URL %zz" (UrlError "invalid URL escape")),
        New "out" false).
Proof.
  split.
  - apply (proj1 (RewriteM3U8URLs_panics_only_on_bad_source _ _ _)).
    vm_compute; reflexivity.
  - apply (proj1 (proj2 (RewriteM3U8URLs_panics_only_on_bad_source
                    ("#EXTM3U" +:+ nl +:+ "seg.ts" +:+ nl) "%zz" (New "out" false)))).
    + vm_compute; reflexivity.
    + exists "seg.ts". split; [|vm_compute; reflexivity].
      vm_compute. apply list_elem_of_further, list_elem_of_here.
Defined.

(** C10 (as stated) fails. The source URL does not parse and the second
    line of the content is a bare reference, but the first line has
    65537 bytes: the scanner stops there with [bufio.ErrTooLong], no
    line reaches [mustParseURL], and the call returns the scan error
    instead of panicking. *)
Lemma RewriteM3U8URLs_scan_error_hides_reference :
  let content := "#" +:+ repeatByte "x" (N.to_nat 65536) +:+ nl
                 +:+ "seg.ts" +:+ nl in
  GoUrl.Parse "%zz" = Err (UrlError "invalid URL escape")
  /\ textLines content !! 1 = Some "seg.ts"
  /\ isBareReference "seg.ts" = true
  /\ RewriteM3U8URLs content "%zz" (New "out" false)
     = (Ret (Err (Wrapped "error scanning M3U8 file" ErrTooLong)),
        New "out" false).
Proof.
  cbn zeta. repeat split; vm_compute; reflexivity.
Qed.

(** ** Lines the rewriter leaves alone *)

Lemma rewriteLine_passesThrough (sourceURL line : string) (fs : FileSystem) :
  passesThrough line = true -> rewriteLine sourceURL line fs = (Ret line, fs).
Proof.
  unfold passesThrough, rewriteLine. intros Hp.
  destruct (GoStrings.HasPrefix line "#") eqn:Hhash; cbn in *.
  - destruct (containsURI line); [|done].
    rewrite orb_false_r in Hp. apply String.eqb_eq in Hp. by subst.
  - rewrite orb_false_r in Hp. by rewrite Hp.
Qed.

Lemma rewriteLines_shape (sourceURL : string) (lines : list string)
    (output out : string) (fs fs' : FileSystem) :
  rewriteLines sourceURL lines output fs = (Ret out, fs') ->
  exists outs,
    out = output +:+ unlines outs
    /\ Forall2 (fun line o => passesThrough line = true -> o = line) lines outs.
Proof.
  revert output fs. induction lines as [|line lines IH]; intros output fs; cbn.
  - intros [= <- <-]. exists []. by rewrite append_nil_r.
  - unfold bind.
    destruct (rewriteLine sourceURL line fs) as [[o|msg] fs1] eqn:Hline;
      [|done].
    intros Hrest. apply IH in Hrest as (outs & -> & Hall).
    exists (o :: outs). split.
    + cbn. by rewrite !append_assoc.
    + constructor; [|done]. intros Hp.
      rewrite rewriteLine_passesThrough in Hline by done. congruence.
Qed.

(** C9 (as amended). The output of the rewriter is its rewritten lines in
    order, each followed by a newline, one per line the scanner yields.
    A line that is empty, or that starts with [#] and does not contain
    the text [URI=] followed by a quote, is copied unchanged. (Every
    other line starting with [#] is treated as a tag to rewrite,
    whatever its tag name, and every other non-empty line as a
    reference.) The rewriter returns this output whenever the scanner
    reports no error and the source URL parses. *)
Theorem RewriteM3U8URLs_copies_other_lines (content sourceURL : string)
    (fs : FileSystem) :
  let lines := (GoBufio.scanLines content).1 in
  (forall out fs',
      RewriteM3U8URLs content sourceURL fs = (Ret (Ok out), fs') ->
      exists outs,
        out = unlines outs
        /\ List.length outs = List.length lines
        /\ forall i line,
             lines !! i = Some line -> passesThrough line = true ->
             outs !! i = Some line)
  /\ ((GoBufio.scanLines content).2 = None ->
      isOk (GoUrl.Parse sourceURL) = true ->
      exists out fs', RewriteM3U8URLs content sourceURL fs = (Ret (Ok out), fs')).
Proof.
  cbn zeta. unfold RewriteM3U8URLs.
  destruct (GoBufio.scanLines content) as [lines scanErr]. cbn [fst snd]. split.
  - intros out fs'. unfold bind.
    destruct (rewriteLines sourceURL lines "" fs) as [[output|msg] fs1] eqn:Hrun;
      [|done].
    destruct scanErr; [done|]. intros [= <- <-].
    apply rewriteLines_shape in Hrun as (outs & -> & Hall).
    exists outs. split; [done|]. split; [symmetry; by eapply Forall2_length|].
    intros i line Hi Hp.
    destruct (Forall2_lookup_l _ _ _ _ _ Hall Hi) as (o & Ho & Heq).
    by rewrite Ho, Heq.
  - intros -> Hok. unfold bind.
    destruct (rewriteLines_returns sourceURL lines "" Hok fs)
      as (output & fs1 & ->).
    eauto.
Qed.

Lemma RewriteM3U8URLs_copies_other_lines_witness :
  let content := "#EXTM3U" +:+ nl +:+ nl +:+ "#EXTINF:9.9," +:+ nl
                 +:+ "https://example.com/path/seg.ts" +:+ nl in
  exists outs,
    "#EXTM3U" +:+ nl +:+ nl +:+ "#EXTINF:9.9," +:+ nl +:+ "seg.ts" +:+ nl
    = unlines outs
    /\ List.length outs = List.length (GoBufio.scanLines content).1
    /\ forall i line,
         (GoBufio.scanLines content).1 !! i = Some line ->
         passesThrough line = true -> outs !! i = Some line.
Proof.
  cbn zeta.
  eapply (proj1 (RewriteM3U8URLs_copies_other_lines _ exampleSource
                   (New "out" false))).
  vm_compute. reflexivity.
Defined.

(** C9 (as stated) fails: a tag line that is none of the four
    reference-bearing tags, from which the parser takes no reference,
    is rewritten because it carries a [URI] attribute. *)
Lemma RewriteM3U8URLs_rewrites_other_tag :
  let line := "#EXT-X-SESSION-DATA:DATA-ID=" +:+ dquote +:+ "com.example.title"
              +:+ dquote +:+ ",URI=" +:+ dquote
              +:+ "https://cdn.example.com/data/title.json" +:+ dquote in
  let changed := "#EXT-X-SESSION-DATA:DATA-ID=" +:+ dquote +:+ "com.example.title"
                 +:+ dquote +:+ ",URI=" +:+ dquote
                 +:+ "../data/title.json" +:+ dquote in
  GoStrings.HasPrefix line "#" = true
  /\ containsURL line = false
  /\ (exists doc, ParseM3U8 (line +:+ nl) exampleBase = Ok doc /\ URLs doc = [])
  /\ (RewriteM3U8URLs (line +:+ nl) exampleSource (New "out" false)).1
     = Ret (Ok (changed +:+ nl))
  /\ String.eqb changed line = false.
Proof.
  cbn zeta. split; [vm_compute; reflexivity|].
  split; [vm_compute; reflexivity|].
  split; [eexists; split; vm_compute; reflexivity|].
  compute_conj.
Qed.

(** ** The parser *)

Lemma addTagURLs_URLs (baseURL : GoUrl.URL) (us : list string) (m : M3U8File) :
  URLs (fold_left (addTagURL baseURL) us m)
  = (URLs m ++ map (resolveURL baseURL) us)%list.
Proof.
  revert m. induction us as [|u us IH]; intros m; cbn.
  - by rewrite app_nil_r.
  - rewrite IH. cbn. by rewrite <- app_assoc.
Qed.

Lemma addTagURLs_other (baseURL : GoUrl.URL) (us : list string) (m : M3U8File)
    (url : string) :
  url ∉ map (resolveURL baseURL) us ->
  IsM3U8 (fold_left (addTagURL baseURL) us m) !! url = IsM3U8 m !! url.
Proof.
  revert m. induction us as [|u us IH]; intros m Hnot; cbn; [done|].
  cbn in Hnot. apply not_elem_of_cons in Hnot as [Hne Hnot].
  rewrite IH by done. cbn.
  destruct (negb (GoStrings.HasSuffix u ".m3u8")); [|done].
  by rewrite lookup_insert_ne.
Qed.

Lemma parseLine_URLs (baseURL : GoUrl.URL) (m : M3U8File) (text : string) :
  URLs (parseLine baseURL m text) = (URLs m ++ lineRefs baseURL text)%list.
Proof.
  unfold parseLine, lineRefs.
  destruct (_ || _); [by rewrite app_nil_r|].
  destruct (GoStrings.HasPrefix _ "#"); [apply addTagURLs_URLs|done].
Qed.

Lemma parseLine_other (baseURL : GoUrl.URL) (m : M3U8File) (text url : string) :
  url ∉ lineRefs baseURL text ->
  IsM3U8 (parseLine baseURL m text) !! url = IsM3U8 m !! url.
Proof.
  unfold parseLine, lineRefs.
  destruct (_ || _); [done|].
  destruct (GoStrings.HasPrefix _ "#"); [apply addTagURLs_other|].
  intros Hnot. cbn. apply lookup_insert_ne. set_solver.
Qed.

Lemma parseLines_URLs (baseURL : GoUrl.URL) (lines : list string) (m : M3U8File) :
  URLs (fold_left (parseLine baseURL) lines m)
  = (URLs m ++ flat_map (lineRefs baseURL) lines)%list.
Proof.
  revert m. induction lines as [|text lines IH]; intros m; cbn.
  - by rewrite app_nil_r.
  - by rewrite IH, parseLine_URLs, <- app_assoc.
Qed.

Lemma parseLines_other (baseURL : GoUrl.URL) (lines : list string)
    (m : M3U8File) (url : string) :
  Forall (fun text => url ∉ lineRefs baseURL text) lines ->
  IsM3U8 (fold_left (parseLine baseURL) lines m) !! url = IsM3U8 m !! url.
Proof.
  revert m. induction lines as [|text lines IH]; intros m Hall; cbn; [done|].
  apply Forall_cons in Hall as [Hnot Hall].
  by rewrite IH, parseLine_other.
Qed.

Lemma parseLine_bare (baseURL : GoUrl.URL) (m : M3U8File) (text : string) :
  isBareReference (GoStrings.TrimSpace text) = true ->
  lineRefs baseURL text = [resolveURL baseURL (GoStrings.TrimSpace text)]
  /\ IsM3U8 (parseLine baseURL m text)
       !! resolveURL baseURL (GoStrings.TrimSpace text)
     = Some (looksLikeM3U8 (GoStrings.TrimSpace text)).
Proof.
  unfold isBareReference, lineRefs, parseLine.
  intros Hbare. apply andb_true_iff in Hbare as [Hne Hhash].
  apply negb_true_iff in Hne, Hhash. rewrite Hne, Hhash. cbn.
  split; [done|apply lookup_insert_eq].
Qed.

Lemma looksLikeM3U8_spec (line : string) :
  looksLikeM3U8 line = true <->
  (exists p, line = p +:+ ".m3u8") \/ (exists a b, line = a +:+ ".m3u8?" +:+ b).
Proof.
  unfold looksLikeM3U8.
  by rewrite orb_true_iff, HasSuffix_spec, Contains_spec.
Qed.

(** What the parser does with bare reference lines. Parsing succeeds
    unless the scanner fails. The reference list is the in-order concatenation of the references of
    the scanned lines, and a line that, trimmed, is non-empty and does
    not start with [#] contributes exactly its resolved URL. The parser
    records for that URL the flag [looksLikeM3U8] of the trimmed line:
    it ends with [.m3u8] or contains [.m3u8?]. Flags are kept per
    resolved URL, so the flag stands in the result when no later line of
    the playlist yields the same URL. *)
Theorem ParseM3U8_bare_lines (content : string) (baseURL : GoUrl.URL) :
  let lines := (GoBufio.scanLines content).1 in
  ((GoBufio.scanLines content).2 = None ->
   exists doc, ParseM3U8 content baseURL = Ok doc)
  /\ forall doc,
      ParseM3U8 content baseURL = Ok doc ->
      forall pre text post,
        lines = (pre ++ text :: post)%list ->
        let line := GoStrings.TrimSpace text in
        isBareReference line = true ->
        URLs doc = (flat_map (lineRefs baseURL) pre
                    ++ resolveURL baseURL line
                    :: flat_map (lineRefs baseURL) post)%list
        /\ (Forall (fun later => resolveURL baseURL line ∉ lineRefs baseURL later)
                   post ->
            IsM3U8 doc !! resolveURL baseURL line = Some (looksLikeM3U8 line))
        /\ (looksLikeM3U8 line = true <->
            (exists p, line = p +:+ ".m3u8")
            \/ (exists a b, line = a +:+ ".m3u8?" +:+ b)).
Proof.
  cbn zeta. unfold ParseM3U8.
  destruct (GoBufio.scanLines content) as [lines scanErr]. cbn [fst snd].
  split; [intros ->; eauto|].
  intros doc Hdoc pre text post -> Hbare.
  destruct scanErr; [done|]. injection Hdoc as <-.
  destruct (parseLine_bare baseURL
              (fold_left (parseLine baseURL) pre (mkM3U8File content baseURL [] ∅))
              text Hbare) as [Hrefs Hflag].
  split; [|split; [|apply looksLikeM3U8_spec]].
  - rewrite parseLines_URLs. cbn [URLs app].
    rewrite flat_map_app. cbn [flat_map]. by rewrite Hrefs.
  - intros Hlater. rewrite fold_left_app. cbn [fold_left].
    by rewrite parseLines_other.
Qed.

Lemma ParseM3U8_bare_lines_witness :
  let content := "#EXTM3U" +:+ nl +:+ "  high.m3u8 " +:+ nl +:+ "seg.ts" +:+ nl in
  exists doc,
    ParseM3U8 content exampleBase = Ok doc
    /\ IsM3U8 doc !! "https://example.com/path/high.m3u8" = Some true.
Proof.
  cbn zeta.
  destruct (proj1 (ParseM3U8_bare_lines
                     ("#EXTM3U" +:+ nl +:+ "  high.m3u8 " +:+ nl +:+ "seg.ts" +:+ nl)
                     exampleBase) eq_refl) as [doc Hdoc].
  exists doc. split; [done|].
  apply (proj1 (proj2 (proj2 (ParseM3U8_bare_lines _ _) doc Hdoc
                         ["#EXTM3U"] "  high.m3u8 " ["seg.ts"] eq_refl eq_refl))).
  repeat constructor. vm_compute.
  intros Hin. apply list_elem_of_singleton in Hin. discriminate.
Defined.

(** C8. The code departs from the claim. The first line contains
    [.m3u8?]: it is a nested playlist by the claim, and the parser
    first records its URL as one. The tag line names the same playlist
    in its URI; the branch for tags tests the suffix [.m3u8] only, not
    [.m3u8?] as the branch for bare lines does, and records that URL as
    not a playlist. In the parsed result the URL of the first line is
    not a playlist. *)
Lemma ParseM3U8_flag_overwritten :
  let content := "x.m3u8?a" +:+ nl
                 +:+ "#EXT-X-MEDIA:TYPE=AUDIO,URI=" +:+ dquote +:+ "x.m3u8?a"
                 +:+ dquote +:+ nl in
  let url := "https://example.com/path/x.m3u8?a" in
  exists doc,
    ParseM3U8 content exampleBase = Ok doc
    /\ URLs doc = [url; url]
    /\ isBareReference "x.m3u8?a" = true
    /\ looksLikeM3U8 "x.m3u8?a" = true
    /\ IsM3U8 doc !! url = Some false.
Proof.
  cbn zeta. eexists. split; [vm_compute; reflexivity|].
  compute_conj.
Qed.

(** ** The resolver *)



(** ** The orchestrator's filter *)

Lemma shouldDownload_spec (d : Downloader) (urlStr : string) :
  shouldDownload d urlStr
  = negb (existsb (extMatches (urlExt urlStr)) (exclude d))
    && (match include d with [] => true | _ :: _ => false end
        || existsb (extMatches (urlExt urlStr)) (include d)).
Proof.
  unfold shouldDownload. fold (urlExt urlStr).
  destruct (existsb _ (exclude d)); [done|]. cbn.
  by destruct (include d).
Qed.

(** C5 (as amended). The filter is applied to every discovered
    reference before anything is enqueued, with no exception for nested
    playlists: a reference the parser flags as a playlist is among the
    URLs sent to the workers exactly when it is a discovered reference
    whose extension matches no exclude entry and, if the include list
    is not empty, matches an include entry. *)
Theorem filterURLs_filters_playlists (d : Downloader) (doc : M3U8File)
    (urlStr : string) :
  IsM3U8 doc !! urlStr = Some true ->
  (urlStr ∈ pool.urlChan (pool.downloadURLs d (URLs doc)) <->
   urlStr ∈ URLs doc
   /\ existsb (extMatches (urlExt urlStr)) (exclude d) = false
   /\ (include d = [] \/ existsb (extMatches (urlExt urlStr)) (include d) = true)).
Proof.
  intros _. unfold pool.downloadURLs, filterURLs. cbn [pool.urlChan pool.start].
  rewrite !list_elem_of_In, filter_In, shouldDownload_spec.
  rewrite andb_true_iff, negb_true_iff, orb_true_iff.
  assert (match include d with [] => true | _ :: _ => false end = true
          <-> include d = []) as ->; [by destruct (include d)|]. done.
Qed.

Lemma filterURLs_filters_playlists_witness :
  let d := mkDownloader (New "out" false) ∅ 5 true [".m3u8"; ".ts"] [] in
  let doc := mkM3U8File "" exampleBase ["https://example.com/path/high.m3u8"]
               {["https://example.com/path/high.m3u8" := true]} in
  "https://example.com/path/high.m3u8"
  ∈ pool.urlChan (pool.downloadURLs d (URLs doc)).
Proof.
  cbn zeta.
  apply filterURLs_filters_playlists.
  - vm_compute; reflexivity.
  - split; [apply list_elem_of_here|]. split; [vm_compute; reflexivity|].
    right. vm_compute; reflexivity.
Defined.

(** C5 (as stated) fails: with an include list of [.ts], or with
    [.m3u8] excluded, the nested playlists of a master playlist are
    flagged by the parser and dropped by the filter. *)
Lemma filterURLs_drops_playlists :
  let content := "high.m3u8" +:+ nl +:+ "low.m3u8" +:+ nl in
  let including := mkDownloader (New "out" false) ∅ 5 true [".ts"] [] in
  let excluding := mkDownloader (New "out" false) ∅ 5 true [] [".m3u8"] in
  exists doc,
    ParseM3U8 content exampleBase = Ok doc
    /\ URLs doc = ["https://example.com/path/high.m3u8";
                   "https://example.com/path/low.m3u8"]
    /\ IsM3U8 doc !! "https://example.com/path/high.m3u8" = Some true
    /\ IsM3U8 doc !! "https://example.com/path/low.m3u8" = Some true
    /\ pool.urlChan (pool.downloadURLs including (URLs doc)) = []
    /\ pool.urlChan (pool.downloadURLs excluding (URLs doc)) = [].
Proof.
  cbn zeta. eexists. split; [vm_compute; reflexivity|].
  compute_conj.
Qed.

(** ** A mapping failure inside a tag line *)

(** Whenever the mapping of a tag line's first quoted URI fails and no
    further [uriPrefix] follows, [rewriteTagLine] returns, as its
    rewritten line and without an error, the text from the closing quote
    on. *)
Lemma rewriteTagLine_failed_URI (fs : FileSystem) (sourceURL line : string)
    (base : GoUrl.URL) (uriStart uriEnd : nat) (e : error) :
  let uriValueStart := uriStart + String.length uriPrefix in
  let value := GoStrings.take uriEnd (GoStrings.drop uriValueStart line) in
  let rest := GoStrings.drop (uriValueStart + uriEnd) line in
  GoUrl.Parse sourceURL = Ok base ->
  GoStrings.Index line uriPrefix = Some uriStart ->
  GoStrings.Index (GoStrings.drop uriValueStart line) dquote = Some uriEnd ->
  (GetRelativePath fs sourceURL (resolveURL base value)).2 = Err e ->
  containsURI rest = false ->
  (rewriteTagLine line sourceURL fs).1 = Ret (Ok rest)
  /\ String.length rest < String.length line.
Proof.
  cbn zeta. intros Hbase Hstart Hend Hrel Hrest. split.
  - unfold rewriteTagLine, bind. cbn [rewriteTagLoop].
    rewrite Hstart, Hend. unfold bind, liftOutcome, mustParseURL, call.
    rewrite Hbase, ParseM3U8_empty. cbn [BaseURL].
    destruct (GetRelativePath fs sourceURL _) as [fs1 r]. cbn in Hrel. subst r.
    unfold containsURI, GoStrings.Contains in Hrest.
    destruct (String.length line) as [|fuel]; cbn [rewriteTagLoop]; [done|].
    by destruct (GoStrings.Index
                   (GoStrings.drop (uriStart + String.length uriPrefix + uriEnd)
                                   line) uriPrefix).
  - apply Index_bound in Hstart, Hend. rewrite length_drop in *.
    assert (String.length uriPrefix = 5) as Hfive by reflexivity. lia.
Qed.

(** C4 fails on the code. The source URL parses, the key's URL is
    resolved, and [filepath.Rel] cannot relate the two local paths, so
    [GetRelativePath] fails; [rewriteTagLine] then keeps only the text
    from the closing quote on and returns it without an error, and the
    rewriter writes that remainder instead of the original line. *)
Theorem rewriteTagLine_truncates_failed_line :
  let line := "#EXT-X-KEY:METHOD=AES-128,URI=" +:+ dquote +:+ "key.bin"
              +:+ dquote +:+ ",IV=0x01" in
  let sourceURL := "https://example.com/../pl.m3u8" in
  let fs := New "." false in
  isOk (GoUrl.Parse sourceURL) = true
  /\ (GetRelativePath fs sourceURL "https://example.com/key.bin").2
     = Err (Wrapped "failed to calculate relative path"
                    (RelError "key.bin" ".."))
  /\ (rewriteTagLine line sourceURL fs).1 = Ret (Ok (dquote +:+ ",IV=0x01"))
  /\ (RewriteM3U8URLs (line +:+ nl) sourceURL fs).1
     = Ret (Ok (dquote +:+ ",IV=0x01" +:+ nl)).
Proof. cbn zeta. compute_conj. Qed.

(** ** Deduplication in the worker pool *)

Section pool_facts.
Import pool.

(** C1 fails on the code. When a URL is on the channel twice and there
    are two workers, both can call [isVisited] before either calls
    [markVisited], and then both fetch the URL: the check and the mark
    are two critical sections. A playlist that lists one segment on two
    lines puts its URL on the channel twice. *)
Theorem duplicate_fetch_reachable :
  (forall url,
      exists s,
        run [0; 1; 0; 1; 0; 1; 0; 1] (start [url; url] 2) = Some s
        /\ fetched s = [url; url]
        /\ fetchCount s url = 2
        /\ urlChan s = [] /\ workers s = [None; None])
  /\ (let content := "#EXTM3U" +:+ nl +:+ "seg.ts" +:+ nl +:+ "seg.ts" +:+ nl in
      let d := mkDownloader (New "out" false) ∅ 2 true [] [] in
      exists doc,
        ParseM3U8 content exampleBase = Ok doc
        /\ downloadURLs d (URLs doc)
           = start ["https://example.com/path/seg.ts";
                    "https://example.com/path/seg.ts"] 2).
Proof.
  split.
  - intros url. eexists. split.
    + unfold start. cbn -[isVisited markVisited].
      unfold isVisited at 1. rewrite lookup_empty. cbn -[isVisited markVisited].
      unfold isVisited at 1. rewrite lookup_empty. cbn -[isVisited markVisited].
      reflexivity.
    + unfold fetchCount. cbn. by rewrite String.eqb_refl.
  - cbn zeta. eexists. split; vm_compute; reflexivity.
Qed.

Lemma isVisited_markVisited (v : gmap string bool) (u u' : string) :
  isVisited (markVisited v u) u' = (bool_decide (u = u') || isVisited v u').
Proof.
  unfold isVisited, markVisited. case_bool_decide as Hu.
  - subst. by rewrite lookup_insert_eq.
  - by rewrite lookup_insert_ne.
Qed.

Lemma step_sequentialInvariant (i : nat) (s s' : state) :
  sequentialInvariant s -> step i s = Some s' -> sequentialInvariant s'.
Proof.
  unfold sequentialInvariant, step. intros (Hnd & Hvis & Hw).
  destruct (workers s) as [|w [|w' ws]] eqn:Hws;
    [done| |by destruct w as [[? []]|]].
  destruct i as [|i]; cbn [lookup list_lookup]; [|done].
  unfold setWorker. rewrite Hws. cbn [insert list_insert].
  destruct w as [[u [| |]]|].
  - intros [= <-]. cbn.
    destruct (isVisited (visitedSet s) u) eqn:Hu; done.
  - intros [= <-]. cbn. split; [done|]. split.
    + intros u' Hu'. rewrite isVisited_markVisited, (Hvis u' Hu').
      apply orb_true_r.
    + split.
      * rewrite isVisited_markVisited, bool_decide_eq_true_2; done.
      * intros Hin. apply Hvis in Hin. congruence.
  - destruct Hw as [Hu Hnot]. intros [= <-]. cbn. split.
    + by constructor.
    + split; [|done]. intros u' [->|Hin]%elem_of_cons; auto.
  - destruct (urlChan s) as [|u rest]; [done|]. intros [= <-]. by cbn.
Qed.

(** With a single worker the check and the mark cannot be separated:
    no URL is fetched twice. *)
Lemma single_worker_fetches_once (urls : list string) (schedule : list nat)
    (s : state) :
  run schedule (start urls 1) = Some s -> NoDup (fetched s).
Proof.
  assert (sequentialInvariant (start urls 1)) as Hinit.
  { unfold sequentialInvariant, start. cbn. split; [constructor|].
    split; [|done]. intros u Hu. by apply elem_of_nil in Hu. }
  revert Hinit. generalize (start urls 1).
  induction schedule as [|i schedule IH]; intros s0 Hinv; cbn.
  - intros [= <-]. apply Hinv.
  - destruct (step i s0) as [s1|] eqn:Hstep; [|done].
    apply IH. by eapply step_sequentialInvariant.
Qed.

End pool_facts.

(** ** The loop bounds are never reached

    The loops of the source are modelled with a bound on their rounds.
    Each bound is large enough: the modelled loop leaves through its own
    exit test, so the result does not depend on the bound. (For
    [conflictLoop] this is [resolveConflict_spec].) *)

Section loop_bounds.
Import GoStrings.

Lemma uriPrefix_length : String.length uriPrefix = 5.
Proof. reflexivity. Qed.

Lemma drop_shorter (n : nat) (s : string) :
  0 < n -> n <= String.length s -> String.length (drop n s) < String.length s.
Proof. intros. rewrite length_drop. lia. Qed.

Lemma extractLoop_fuel (fuel fuel' : nat) (line : string) (urls : list string) :
  String.length line < fuel -> String.length line < fuel' ->
  extractLoop fuel line urls = extractLoop fuel' line urls.
Proof.
  revert fuel' line urls.
  induction fuel as [|fuel IH]; intros [|fuel'] line urls H1 H2; try lia.
  cbn [extractLoop].
  destruct (Index line uriPrefix) as [idx|] eqn:Hidx; [|done].
  destruct (Index (drop (idx + String.length uriPrefix) line) dquote)
    as [endIdx|] eqn:Hend; [|done].
  apply Index_bound in Hidx, Hend. rewrite length_drop in Hend.
  rewrite uriPrefix_length in *. cbn in Hend.
  apply IH; rewrite !length_drop; lia.
Qed.

Lemma rewriteTagLoop_fuel (fuel fuel' : nat) (sourceURL result : string)
    (fs : FileSystem) :
  String.length result < fuel -> String.length result < fuel' ->
  rewriteTagLoop fuel sourceURL result fs
  = rewriteTagLoop fuel' sourceURL result fs.
Proof.
  revert fuel' result fs.
  induction fuel as [|fuel IH]; intros [|fuel'] result fs H1 H2; try lia.
  cbn [rewriteTagLoop].
  destruct (Index result uriPrefix) as [uriStart|] eqn:Hidx; [|done].
  destruct (Index (drop (uriStart + String.length uriPrefix) result) dquote)
    as [uriEnd|] eqn:Hend; [|done].
  apply Index_bound in Hidx, Hend. rewrite length_drop in Hend.
  rewrite uriPrefix_length in *. cbn in Hend.
  unfold bind. destruct (liftOutcome (mustParseURL sourceURL) fs)
    as [[base|msg] fs0]; [|done].
  destruct (call _ fs0) as [[[relativePath|e]|msg] fs1]; [done| |done].
  apply IH; rewrite length_drop; lia.
Qed.

Lemma leadingSpace_width (runes : list string) (s : string) (w : nat) :
  Forall (fun r => r <> "") runes ->
  leadingSpace runes s = Some w -> 0 < w <= String.length s.
Proof.
  unfold leadingSpace. intros Hne.
  destruct (List.find (HasPrefix s) runes) as [r|] eqn:Hfind; [|done].
  intros [= <-]. apply find_some in Hfind as [Hin Hpre].
  rewrite Forall_forall in Hne. apply list_elem_of_In, Hne in Hin.
  apply HasPrefix_spec in Hpre as [t ->]. rewrite length_append.
  destruct r; [done|]. cbn. lia.
Qed.

Lemma trimLeftRunes_done (fuel : nat) (runes : list string) (s : string) :
  Forall (fun r => r <> "") runes -> String.length s <= fuel ->
  leadingSpace runes (trimLeftRunes fuel runes s) = None.
Proof.
  intros Hne. revert s. induction fuel as [|fuel IH]; intros s Hlen; cbn.
  - destruct s; [|cbn in Hlen; lia].
    destruct (leadingSpace runes "") as [w|] eqn:Hw; [|done].
    apply leadingSpace_width in Hw; [cbn in Hw; lia|done].
  - destruct (leadingSpace runes s) as [w|] eqn:Hw; [|done].
    apply leadingSpace_width in Hw; [|done].
    apply IH. rewrite length_drop. lia.
Qed.

Lemma spaceRunes_nonempty : Forall (fun r => r <> "") spaceRunes.
Proof. vm_compute. repeat constructor; discriminate. Qed.

(** [TrimSpace] leaves no space at the start. *)
Lemma TrimLeftSpace_done (s : string) :
  leadingSpace spaceRunes (TrimLeftSpace s) = None.
Proof. apply trimLeftRunes_done; [apply spaceRunes_nonempty|done]. Qed.

Lemma stripTrailingSlashes_done (fuel : nat) (p : string) :
  String.length p <= fuel ->
  HasSuffix (GoPath.stripTrailingSlashes fuel p) "/"
  && negb (String.eqb (GoPath.stripTrailingSlashes fuel p) "") = false.
Proof.
  revert p. induction fuel as [|fuel IH]; intros p Hlen; cbn.
  - destruct p; [done|cbn in Hlen; lia].
  - destruct (HasSuffix p "/" && negb (String.eqb p "")) eqn:Hs; [|done].
    apply IH. rewrite length_take.
    destruct p; [done|]. cbn in *. lia.
Qed.

(** A playlist shorter than the scanner's buffer scans without error. *)
Lemma scanFrom_short (data cur : string) (n : N) :
  (n + N.of_nat (String.length data) < GoBufio.MaxScanTokenSize)%N ->
  (GoBufio.scanFrom data cur n).2 = None.
Proof.
  revert cur n. induction data as [|c data IH]; intros cur n Hlen; cbn.
  - done.
  - destruct (Ascii.eqb c "010").
    + specialize (IH "" 0%N).
      destruct (GoBufio.scanFrom data "" 0) as [rest e]. cbn in *.
      apply IH. cbn [String.length] in Hlen. lia.
    + cbn [String.length] in Hlen.
      destruct (N.ltb_spec (n + 1) GoBufio.MaxScanTokenSize) as [Hlt|Hge];
        [|lia].
      apply IH. lia.
Qed.

Lemma scanLines_short (content : string) :
  (N.of_nat (String.length content) < GoBufio.MaxScanTokenSize)%N ->
  (GoBufio.scanLines content).2 = None.
Proof. intros H. by apply scanFrom_short. Qed.

End loop_bounds.

(** * Further properties of the code *)

(** ** Paths: [Clean], [Join], [Dir], [Base], [Ext] and [Rel] *)

Section path_facts.
Import GoStrings.

Lemma hasByte_append (c : ascii) (a b : string) :
  hasByte c (a +:+ b) = hasByte c a || hasByte c b.
Proof.
  induction a as [|x a IH]; [done|].
  rewrite append_cons. cbn. by rewrite IH, orb_assoc.
Qed.

Lemma SplitByte_nonempty (s : string) (c : ascii) : SplitByte s c <> [].
Proof.
  destruct s as [|a s]; cbn; [done|].
  destruct (Ascii.eqb a c); [done|]. by destruct (SplitByte s c).
Qed.

Lemma SplitByte_plain (s : string) (c : ascii) :
  hasByte c s = false -> SplitByte s c = [s].
Proof.
  induction s as [|a s IH]; cbn; [done|].
  intros [Ha Hs]%orb_false_iff. rewrite Ha, (IH Hs). done.
Qed.

Lemma SplitByte_app (a b : string) (c : ascii) :
  SplitByte (a +:+ String c b) c = (SplitByte a c ++ SplitByte b c)%list.
Proof.
  induction a as [|x a IH].
  - rewrite append_nil_l. cbn. by rewrite Ascii.eqb_refl.
  - rewrite append_cons. cbn. destruct (Ascii.eqb x c); [by rewrite IH|].
    rewrite IH. pose proof (SplitByte_nonempty a c).
    by destruct (SplitByte a c).
Qed.

Lemma SplitByte_free (s : string) (c : ascii) :
  Forall (fun e => hasByte c e = false) (SplitByte s c).
Proof.
  induction s as [|a s IH]; cbn; [by repeat constructor|].
  destruct (Ascii.eqb a c) eqn:Ha; [by constructor|].
  destruct (SplitByte s c) as [|x r]; [by repeat constructor; cbn; rewrite Ha|].
  inversion IH; subst. constructor; [|done]. cbn. by rewrite Ha.
Qed.

Lemma Join_cons (x y : string) (l : list string) (sep : string) :
  Join (x :: y :: l) sep = x +:+ sep +:+ Join (y :: l) sep.
Proof. reflexivity. Qed.

Lemma SplitByte_Join (l : list string) :
  l <> [] -> Forall (fun e => hasByte "/" e = false) l ->
  SplitByte (Join l "/") "/" = l.
Proof.
  induction l as [|x [|y l] IH]; [done| |].
  - intros _ Hx. inversion Hx; subst. cbn [Join]. by apply SplitByte_plain.
  - intros _ Hx. inversion Hx as [|? ? Hx1 Hx2]; subst.
    rewrite Join_cons. change ("/" +:+ Join (y :: l) "/")
      with (String "/" (Join (y :: l) "/")).
    rewrite SplitByte_app, IH, SplitByte_plain; done.
Qed.

Lemma Join_snoc (l : list string) (x : string) :
  l <> [] -> Join (l ++ [x])%list "/" = Join l "/" +:+ "/" +:+ x.
Proof.
  induction l as [|a [|b l] IH]; [done| |]; intros _.
  - reflexivity.
  - change ((a :: b :: l) ++ [x])%list with (a :: b :: (l ++ [x]))%list.
    rewrite !Join_cons. change (b :: l ++ [x])%list with ((b :: l) ++ [x])%list.
    rewrite IH by done. by rewrite !append_assoc.
Qed.

(** *** The element stack of [Clean] *)

Lemma Clean_render (p : string) :
  GoPath.Clean p = render (HasPrefix p "/") (List.rev (cleanStack p)).
Proof.
  unfold GoPath.Clean, render, cleanStack. destruct (String.eqb_spec p "") as [->|Hp].
  - reflexivity.
  - reflexivity.
Qed.

Lemma isName_spec (e : string) :
  isName e = true ->
  hasByte "/" e = false /\ e <> "" /\ e <> "." /\ e <> "..".
Proof.
  unfold isName. rewrite !andb_true_iff, !negb_true_iff, !String.eqb_neq.
  tauto.
Qed.

Lemma cleanStep_name (r : bool) (kept : list string) (e : string) :
  isName e = true -> GoPath.cleanStep r kept e = e :: kept.
Proof.
  intros (_ & H1 & H2 & H3)%isName_spec. unfold GoPath.cleanStep.
  apply String.eqb_neq in H1, H2, H3. by rewrite H1, H2, H3.
Qed.

Lemma cleanStep_pop (r : bool) (top : string) (rest : list string) :
  isName top = true -> GoPath.cleanStep r (top :: rest) ".." = rest.
Proof.
  intros (_ & _ & _ & H3)%isName_spec. cbn.
  apply String.eqb_neq in H3. by rewrite H3.
Qed.

Lemma cleanStep_canon (r : bool) (kept : list string) (e : string) :
  hasByte "/" e = false ->
  canonStack r kept -> canonStack r (GoPath.cleanStep r kept e).
Proof.
  intros He (names & k & -> & Hn & Hk). unfold GoPath.cleanStep.
  destruct (String.eqb_spec e "") as [->|H1]; [by exists names, k|].
  destruct (String.eqb_spec e ".") as [->|H2]; [by exists names, k|].
  cbn [orb]. destruct (String.eqb_spec e "..") as [->|H3].
  - destruct names as [|n names].
    + cbn [app]. destruct k as [|k].
      * cbn. destruct r; [by exists [], 0|]. by exists [], 1.
      * cbn. exists [], (S (S k)). split; [done|]. split; [done|].
        intros Hr. specialize (Hk Hr). done.
    + inversion Hn as [|? ? Hn1 Hn2]; subst. cbn.
      apply isName_spec in Hn1 as (_ & _ & _ & Hdd).
      apply String.eqb_neq in Hdd. rewrite Hdd. by exists names, k.
  - exists (e :: names), k. split; [done|]. split; [|done].
    constructor; [|done]. unfold isName. rewrite He. cbn.
    apply String.eqb_neq in H1, H2, H3. by rewrite H1, H2, H3.
Qed.

Lemma fold_cleanStep_canon (r : bool) (l kept : list string) :
  Forall (fun e => hasByte "/" e = false) l ->
  canonStack r kept -> canonStack r (fold_left (GoPath.cleanStep r) l kept).
Proof.
  revert kept. induction l as [|e l IH]; intros kept Hl Hk; [done|].
  inversion Hl; subst. cbn. apply IH; [done|]. by apply cleanStep_canon.
Qed.

Lemma cleanStack_canon (p : string) :
  canonStack (HasPrefix p "/") (cleanStack p).
Proof.
  apply fold_cleanStep_canon; [apply SplitByte_free|].
  by exists [], 0.
Qed.

(** Names are pushed, and as many [..] pop them again. *)
Lemma fold_cleanStep_names (r : bool) (l kept : list string) :
  Forall (fun e => isName e = true) l ->
  fold_left (GoPath.cleanStep r) l kept = (List.rev l ++ kept)%list.
Proof.
  revert kept. induction l as [|e l IH]; intros kept Hl; [done|].
  inversion Hl; subst. cbn [fold_left]. rewrite cleanStep_name by done.
  rewrite IH by done. cbn. by rewrite <- app_assoc.
Qed.

Lemma fold_cleanStep_pop (r : bool) (st kept : list string) :
  Forall (fun e => isName e = true) st ->
  fold_left (GoPath.cleanStep r) (replicate (List.length st) "..")
            (st ++ kept)%list = kept.
Proof.
  induction st as [|e st IH]; intros Hst; [done|].
  inversion Hst; subst. cbn [List.length replicate fold_left app].
  rewrite cleanStep_pop by done. by apply IH.
Qed.

Lemma fold_cleanStep_dots (k j : nat) :
  fold_left (GoPath.cleanStep false) (replicate k "..") (replicate j "..")
  = replicate (k + j) "..".
Proof.
  revert j. induction k as [|k IH]; intros j; [done|].
  cbn [replicate fold_left]. replace (S k + j) with (k + S j) by lia.
  rewrite <- IH. f_equal. by destruct j.
Qed.

Lemma rev_replicate {A} (k : nat) (x : A) :
  List.rev (replicate k x) = replicate k x.
Proof.
  induction k as [|k IH]; [done|]. cbn. rewrite IH. clear IH.
  induction k as [|k IH]; [done|]. cbn. by rewrite IH.
Qed.

(** Cleaning the elements of a canonical stack, first element first,
    gives the stack back. *)
Lemma fold_cleanStep_canonStack (r : bool) (st : list string) :
  canonStack r st -> fold_left (GoPath.cleanStep r) (List.rev st) [] = st.
Proof.
  intros (names & k & -> & Hn & Hk). rewrite rev_app_distr, fold_left_app.
  assert (fold_left (GoPath.cleanStep r) (List.rev (replicate k "..")) []
          = replicate k "..") as ->.
  { destruct r.
    - rewrite (Hk eq_refl). done.
    - rewrite rev_replicate. pose proof (fold_cleanStep_dots k 0) as H.
      by rewrite Nat.add_0_r in H. }
  rewrite fold_cleanStep_names, rev_involutive; [done|].
  by apply Forall_rev.
Qed.

Lemma canonStack_elements (r : bool) (st : list string) :
  canonStack r st ->
  Forall (fun e => hasByte "/" e = false /\ e <> "") st.
Proof.
  intros (names & k & -> & Hn & _). apply Forall_app. split.
  - eapply Forall_impl; [exact Hn|]. intros e He.
    apply isName_spec in He. tauto.
  - apply Forall_forall. intros e He%elem_of_replicate. by destruct He as [-> _].
Qed.

Lemma Join_head (x : string) (l : list string) :
  x <> "" -> hasByte "/" x = false ->
  exists c t, Join (x :: l) "/" = String c t /\ c <> "/"%char.
Proof.
  intros Hx Hs. destruct x as [|c x]; [done|]. cbn in Hs.
  apply orb_false_iff in Hs as [Hc _]. apply Ascii.eqb_neq in Hc.
  destruct l as [|y l].
  - by exists c, x.
  - rewrite Join_cons, append_cons. eauto.
Qed.

Lemma render_nil (r : bool) : render r [] = if r then "/" else ".".
Proof. by destruct r. Qed.

Lemma render_cons (r : bool) (x : string) (l : list string) :
  x <> "" -> hasByte "/" x = false ->
  render r (x :: l) = (if r then "/" else "") +:+ Join (x :: l) "/".
Proof.
  intros Hx Hs. unfold render.
  destruct (Join_head x l Hx Hs) as (c & t & -> & _). by destruct r.
Qed.

Lemma render_rooted (r : bool) (st : list string) :
  canonStack r st -> HasPrefix (render r (List.rev st)) "/" = r.
Proof.
  intros Hc. apply canonStack_elements, Forall_rev in Hc.
  destruct (List.rev st) as [|x l]; [by destruct r|].
  inversion Hc as [|? ? [Hs Hx] _]; subst.
  rewrite render_cons by done. destruct r; [done|].
  rewrite append_nil_l. destruct (Join_head x l Hx Hs) as (c & t & -> & Hc').
  cbn [HasPrefix]. apply Ascii.eqb_neq in Hc'. rewrite Ascii.eqb_sym in Hc'.
  by rewrite Hc'.
Qed.

Lemma SplitByte_render (r : bool) (st : list string) :
  canonStack r st ->
  fold_left (GoPath.cleanStep r) (SplitByte (render r (List.rev st)) "/") []
  = st.
Proof.
  intros Hc. pose proof (fold_cleanStep_canonStack r st Hc) as Hfold.
  apply canonStack_elements, Forall_rev in Hc.
  destruct (List.rev st) as [|x l] eqn:Hrev.
  - cbn in Hfold. subst st. by destruct r.
  - inversion Hc as [|? ? [Hs Hx] Hl]; subst.
    assert (SplitByte (Join (x :: l) "/") "/" = x :: l) as Hsplit.
    { apply SplitByte_Join; [done|]. constructor; [done|].
      eapply Forall_impl; [exact Hl|]. by intros ? []. }
    rewrite render_cons by done. destruct r.
    + change ("/" +:+ Join (x :: l) "/")
        with ("" +:+ String "/" (Join (x :: l) "/")).
      by rewrite SplitByte_app, Hsplit.
    + by rewrite append_nil_l, Hsplit.
Qed.

Lemma cleanStack_render (r : bool) (st : list string) :
  canonStack r st -> cleanStack (render r (List.rev st)) = st.
Proof.
  intros Hc. unfold cleanStack. rewrite render_rooted by done.
  by apply SplitByte_render.
Qed.

(** [Clean] is idempotent. *)
Lemma Clean_idem (p : string) : GoPath.Clean (GoPath.Clean p) = GoPath.Clean p.
Proof.
  rewrite (Clean_render p).
  pose proof (cleanStack_canon p) as Hc.
  rewrite Clean_render, render_rooted, cleanStack_render; done.
Qed.

(** *** [Join] on element stacks *)

Lemma HasPrefix_append_nonempty (a b p : string) :
  a <> "" -> String.length p <= 1 ->
  HasPrefix (a +:+ b) p = HasPrefix a p.
Proof.
  intros Ha Hp. destruct a as [|x a]; [done|]. rewrite append_cons.
  destruct p as [|c [|d p]]; cbn in *; [done| |lia].
  by rewrite !andb_true_r.
Qed.

Lemma Join_stack (a b : string) :
  a <> "" ->
  GoPath.Join a b
  = render (HasPrefix a "/")
      (List.rev (fold_left (GoPath.cleanStep (HasPrefix a "/"))
                           (SplitByte b "/") (cleanStack a))).
Proof.
  intros Ha. unfold GoPath.Join. apply String.eqb_neq in Ha as Ha'.
  rewrite Ha'. rewrite Clean_render. unfold cleanStack.
  rewrite HasPrefix_append_nonempty by (done || cbn; lia).
  change ("/" +:+ b) with (String "/" b).
  by rewrite SplitByte_app, fold_left_app.
Qed.

Lemma render_nonempty (r : bool) (l : list string) : render r l <> "".
Proof.
  unfold render. destruct (String.eqb_spec
    ((if r then "/" else "") +:+ Join l "/") ""); done.
Qed.

Lemma Join_render (r : bool) (st : list string) (b : string) :
  canonStack r st ->
  GoPath.Join (render r (List.rev st)) b
  = render r (List.rev (fold_left (GoPath.cleanStep r) (SplitByte b "/") st)).
Proof.
  intros Hc. rewrite Join_stack by apply render_nonempty.
  by rewrite render_rooted, cleanStack_render.
Qed.

Lemma Join_Clean (a b : string) :
  a <> "" -> GoPath.Join (GoPath.Clean a) b = GoPath.Join a b.
Proof.
  intros Ha. rewrite (Clean_render a), Join_render by apply cleanStack_canon.
  by rewrite Join_stack.
Qed.

Lemma canonStack_push (r : bool) (st : list string) (n : string) :
  isName n = true -> canonStack r st -> canonStack r (n :: st).
Proof.
  intros Hn (names & k & -> & Hnames & Hk).
  exists (n :: names), k. split; [done|]. split; [by constructor|done].
Qed.

Lemma Join_render_name (r : bool) (st : list string) (n : string) :
  canonStack r st -> isName n = true ->
  GoPath.Join (render r (List.rev st)) n = render r (List.rev (n :: st)).
Proof.
  intros Hc Hn. rewrite Join_render by done.
  apply isName_spec in Hn as Hn'. destruct Hn' as (Hs & _).
  rewrite SplitByte_plain by done. cbn [fold_left].
  by rewrite cleanStep_name.
Qed.

Lemma fold_Join_names (r : bool) (names st : list string) :
  canonStack r st -> Forall (fun e => isName e = true) names ->
  fold_left GoPath.Join names (render r (List.rev st))
  = render r (List.rev st ++ names)%list.
Proof.
  revert st. induction names as [|n names IH]; intros st Hc Hn.
  - by rewrite app_nil_r.
  - inversion Hn; subst. cbn [fold_left].
    rewrite Join_render_name by done.
    rewrite IH; [|by apply canonStack_push|done].
    cbn [List.rev]. by rewrite <- app_assoc.
Qed.

(** Without [..], cleaning keeps the names in order. *)
Lemma pathElems_names (p : string) :
  hasDotDot p = false -> Forall (fun e => isName e = true) (pathElems p).
Proof.
  unfold hasDotDot, pathElems. intros Hdd.
  pose proof (SplitByte_free p "/") as Hfree.
  induction (SplitByte p "/") as [|e l IH]; [constructor|].
  inversion Hfree as [|? ? Hfe Hfl]; subst. cbn [existsb] in Hdd.
  apply orb_false_iff in Hdd as [He Hl]. cbn [List.filter].
  destruct (String.eqb e "" || String.eqb e ".") eqn:Hskip; cbn [negb];
    [by apply IH|].
  constructor; [|by apply IH]. apply orb_false_iff in Hskip as [H1 H2].
  unfold isName. rewrite Hfe, H1, H2. cbn. rewrite String.eqb_sym in He.
  by rewrite He.
Qed.

Lemma fold_cleanStep_noDotDot (r : bool) (p : string) (st : list string) :
  hasDotDot p = false ->
  fold_left (GoPath.cleanStep r) (SplitByte p "/") st
  = (List.rev (pathElems p) ++ st)%list.
Proof.
  unfold hasDotDot, pathElems. revert st.
  induction (SplitByte p "/") as [|e l IH]; intros st Hdd; [done|].
  cbn [existsb] in Hdd. apply orb_false_iff in Hdd as [He Hl].
  cbn [fold_left List.filter]. rewrite IH by done.
  unfold GoPath.cleanStep.
  destruct (String.eqb e "" || String.eqb e ".") eqn:Hskip; cbn [negb];
    [done|].
  rewrite String.eqb_sym in He. rewrite He. cbn [List.rev].
  by rewrite <- app_assoc.
Qed.

(** *** [Dir] and [Base] *)

Lemma LastIndex_slash (s : string) :
  match LastIndex s "/" with
  | Some i => exists x e, s = x +:+ "/" +:+ e /\ String.length x = i
                          /\ hasByte "/" e = false
  | None => hasByte "/" s = false
  end.
Proof.
  induction s as [|c s IH]; [done|]. cbn [LastIndex].
  destruct (LastIndex s "/") as [i|].
  - destruct IH as (x & e & -> & Hx & He).
    exists (String c x), e. rewrite append_cons. cbn. by rewrite Hx.
  - cbn [HasPrefix hasByte]. rewrite Ascii.eqb_sym.
    destruct (Ascii.eqb_spec c "/") as [->|Hc]; cbn.
    + exists "", s. by rewrite append_nil_l.
    + done.
Qed.

Lemma LastIndex_plain (s : string) :
  hasByte "/" s = false -> LastIndex s "/" = None.
Proof.
  intros Hs. pose proof (LastIndex_slash s) as H.
  destruct (LastIndex s "/") as [i|]; [|done].
  destruct H as (x & e & -> & _ & _).
  rewrite !hasByte_append in Hs. cbn in Hs.
  by rewrite orb_true_r in Hs.
Qed.

Lemma LastIndex_last (x e : string) :
  hasByte "/" e = false ->
  LastIndex (x +:+ "/" +:+ e) "/" = Some (String.length x).
Proof.
  intros He. induction x as [|c x IH].
  - rewrite append_nil_l. change ("/" +:+ e) with (String "/" e).
    cbn [LastIndex]. by rewrite LastIndex_plain.
  - rewrite append_cons. cbn [LastIndex]. by rewrite IH.
Qed.

Lemma Dir_plain (e : string) : hasByte "/" e = false -> GoPath.Dir e = ".".
Proof. intros He. unfold GoPath.Dir, GoPath.lastSlash. by rewrite LastIndex_plain. Qed.

Lemma Dir_last (x e : string) :
  hasByte "/" e = false ->
  GoPath.Dir (x +:+ "/" +:+ e) = GoPath.Clean (x +:+ "/").
Proof.
  intros He. unfold GoPath.Dir, GoPath.lastSlash. rewrite LastIndex_last by done.
  f_equal. rewrite <- append_assoc.
  replace (S (String.length x)) with (String.length (x +:+ "/"))
    by (rewrite length_append; cbn; lia).
  apply take_append.
Qed.

Lemma render_snoc (r : bool) (l : list string) (x : string) :
  x <> "" -> render r (l ++ [x])%list = dirPrefix r l +:+ x.
Proof.
  intros Hx. unfold render, dirPrefix.
  assert (Join (l ++ [x]) "/"
          = match l with [] => "" | _ :: _ => Join l "/" +:+ "/" end +:+ x)
    as ->.
  { destruct l as [|a l]; [done|]. rewrite Join_snoc by done.
    by rewrite !append_assoc. }
  rewrite <- append_assoc.
  destruct (String.eqb_spec
    (((if r then "/" else "")
      +:+ match l with [] => "" | _ :: _ => Join l "/" +:+ "/" end) +:+ x) "")
    as [Heq|]; [|done].
  apply (f_equal String.length) in Heq. rewrite length_append in Heq.
  destruct x; [done|]. cbn in Heq. lia.
Qed.

Lemma dirPrefix_cons (r : bool) (a : string) (l : list string) :
  a <> "" -> hasByte "/" a = false ->
  dirPrefix r (a :: l) = render r (a :: l) +:+ "/".
Proof.
  intros Ha Hs. unfold dirPrefix. rewrite render_cons by done.
  by rewrite append_assoc.
Qed.

Lemma Dir_render_snoc (r : bool) (st : list string) (x : string) :
  canonStack r st -> x <> "" -> hasByte "/" x = false ->
  GoPath.Dir (render r (List.rev st ++ [x])%list) = render r (List.rev st).
Proof.
  intros Hc Hx Hs. rewrite render_snoc by done.
  pose proof (canonStack_elements r st Hc) as Hel. apply Forall_rev in Hel.
  destruct (List.rev st) as [|a l] eqn:Hrev.
  - unfold dirPrefix. rewrite append_nil_r. destruct r.
    + change ("/" +:+ x) with ("" +:+ "/" +:+ x). by rewrite Dir_last.
    + rewrite append_nil_l. by apply Dir_plain.
  - inversion Hel as [|? ? [Has Ha] _]; subst.
    rewrite dirPrefix_cons, append_assoc, Dir_last by done.
    rewrite <- Hrev.
    transitivity (GoPath.Join (render r (List.rev st)) "").
    + unfold GoPath.Join. pose proof (render_nonempty r (List.rev st)) as Hne.
      apply String.eqb_neq in Hne. by rewrite Hne.
    + by rewrite Join_render.
Qed.

Lemma Join_name (out n : string) :
  isName n = true ->
  GoPath.Join out n
  = render (HasPrefix out "/") (List.rev (cleanStack out) ++ [n])%list.
Proof.
  intros Hn. destruct (String.eqb_spec out "") as [->|Hout].
  - unfold GoPath.Join. cbn [String.eqb].
    apply isName_spec in Hn as Hn'. destruct Hn' as (Hs & Hne & _).
    apply String.eqb_neq in Hne as Hne'. rewrite Hne'.
    rewrite Clean_render. unfold cleanStack.
    rewrite SplitByte_plain by done. cbn [fold_left].
    rewrite cleanStep_name by done.
    assert (HasPrefix n "/" = false) as ->; [|done].
    destruct n as [|c n]; [done|]. cbn in Hs.
    apply orb_false_iff in Hs as [Hc _]. cbn [HasPrefix].
    rewrite Ascii.eqb_sym in Hc. by rewrite Hc.
  - rewrite Join_stack by done.
    apply isName_spec in Hn as Hn'. destruct Hn' as (Hs & _).
    rewrite SplitByte_plain by done. cbn [fold_left].
    by rewrite cleanStep_name.
Qed.

(** A file directly inside a directory has that directory as [Dir]. *)
Lemma Dir_Join_name (out n : string) :
  isName n = true -> GoPath.Dir (GoPath.Join out n) = GoPath.Clean out.
Proof.
  intros Hn. rewrite Join_name by done.
  apply isName_spec in Hn as (Hs & Hne & _).
  rewrite Dir_render_snoc; [|apply cleanStack_canon|done|done].
  by rewrite Clean_render.
Qed.

Lemma Base_cases (p : string) :
  GoPath.Base p = "." \/ GoPath.Base p = "/"
  \/ (GoPath.Base p <> "" /\ hasByte "/" (GoPath.Base p) = false).
Proof.
  unfold GoPath.Base. destruct (String.eqb_spec p ""); [by left|].
  set (p1 := GoPath.stripTrailingSlashes _ _).
  unfold GoPath.lastSlash. pose proof (LastIndex_slash p1) as H.
  destruct (LastIndex p1 "/") as [i|].
  - destruct H as (x & e & -> & <- & He).
    replace (S (String.length x)) with (String.length (x +:+ "/"))
      by (rewrite length_append; cbn; lia).
    rewrite <- append_assoc, drop_append.
    destruct (String.eqb_spec e ""); [by right; left|]. by right; right.
  - destruct (String.eqb_spec p1 ""); [by right; left|]. by right; right.
Qed.

(** *** [Rel] followed by [Join] *)

Lemma canonStack_nodot (r : bool) (st : list string) :
  canonStack r st -> Forall (fun e => e <> ".") st.
Proof.
  intros (names & k & -> & Hn & _). apply Forall_app. split.
  - eapply Forall_impl; [exact Hn|]. intros e He.
    apply isName_spec in He. tauto.
  - apply Forall_forall. intros e He%elem_of_replicate. by destruct He as [-> _].
Qed.

Lemma render_dot (r : bool) (st : list string) :
  canonStack r st ->
  render r (List.rev st) = "." <-> r = false /\ st = [].
Proof.
  intros Hc. split; [|by intros [-> ->]].
  pose proof (render_rooted r st Hc) as Hr.
  pose proof (SplitByte_render r st Hc) as Hs.
  intros Heq. rewrite Heq in Hr, Hs. cbn in Hr, Hs. by subst.
Qed.

Lemma elems_render (r : bool) (st : list string) :
  canonStack r st ->
  GoPath.elems (let p := render r (List.rev st) in
                if String.eqb p "." then "" else p)
  = ((if r then [""] else []) ++ List.rev st)%list.
Proof.
  intros Hc. cbn zeta.
  pose proof (canonStack_elements r st Hc) as Hel. apply Forall_rev in Hel.
  destruct (String.eqb_spec (render r (List.rev st)) ".") as [Hdot|Hdot].
  - apply render_dot in Hdot as [-> ->]; done.
  - destruct (List.rev st) as [|x l] eqn:Hrev.
    + destruct r; [done|]. by rewrite render_nil in Hdot.
    + inversion Hel as [|? ? [Hxs Hx] Hl]; subst.
      assert (SplitByte (Join (x :: l) "/") "/" = x :: l) as Hsplit.
      { apply SplitByte_Join; [done|]. constructor; [done|].
        eapply Forall_impl; [exact Hl|]. by intros ? []. }
      rewrite render_cons by done.
      destruct (Join_head x l Hx Hxs) as (c & t & Hj & Hc').
      unfold GoPath.elems. destruct r.
      * change ("/" +:+ Join (x :: l) "/")
          with (String "/" (Join (x :: l) "/")).
        cbn [String.eqb SplitByte]. rewrite Ascii.eqb_refl, Hsplit.
        rewrite Hj. done.
      * rewrite append_nil_l, Hsplit. rewrite Hj. cbn [String.eqb].
        apply Ascii.eqb_neq in Hc'. by rewrite Hc'.
Qed.

Lemma dropCommon_spec (b t brest trest : list string) :
  GoPath.dropCommon b t = (brest, trest) ->
  exists common, b = (common ++ brest)%list /\ t = (common ++ trest)%list.
Proof.
  revert t. induction b as [|x b IH]; intros t.
  - cbn. intros [= <- <-]. by exists [].
  - destruct t as [|y t]; cbn.
    + intros [= <- <-]. by exists [].
    + destruct (String.eqb_spec x y) as [->|Hxy].
      * intros (common & -> & ->)%IH. by exists (y :: common).
      * intros [= <- <-]. by exists [].
Qed.

Lemma cleanStack_noDotDot (p : string) :
  hasDotDot p = false -> cleanStack p = List.rev (pathElems p).
Proof.
  intros H. unfold cleanStack. rewrite fold_cleanStep_noDotDot by done.
  by rewrite app_nil_r.
Qed.

Lemma dropCommon_same (pre b t : list string) :
  GoPath.dropCommon (pre ++ b) (pre ++ t) = GoPath.dropCommon b t.
Proof.
  induction pre as [|x pre IH]; [done|]. cbn. by rewrite String.eqb_refl.
Qed.

(** [..] elements come first in a cleaned path. *)
Lemma dotsFirst_names (l : list string) :
  Forall (fun e => isName e = true) l -> dotsFirst l = true.
Proof.
  intros Hl. destruct l as [|e l]; [done|]. cbn [dotsFirst].
  inversion Hl as [|? ? He Hl']; subst.
  apply isName_spec in He as He'. destruct He' as (_ & _ & _ & Hdd).
  apply String.eqb_neq in Hdd. rewrite Hdd.
  apply forallb_forall. intros x Hx. rewrite Forall_forall in Hl.
  by apply Hl, list_elem_of_In.
Qed.

Lemma dotsFirst_replicate (k : nat) (l : list string) :
  dotsFirst l = true -> dotsFirst (replicate k ".." ++ l)%list = true.
Proof. intros Hl. induction k as [|k IH]; [done|]. exact IH. Qed.

Lemma canonStack_dotsFirst (r : bool) (st : list string) :
  canonStack r st -> dotsFirst (List.rev st) = true.
Proof.
  intros (names & k & -> & Hn & _).
  rewrite rev_app_distr, rev_replicate.
  by apply dotsFirst_replicate, dotsFirst_names, Forall_rev.
Qed.

Lemma dotsFirst_name_tail (e : string) (l : list string) :
  dotsFirst (e :: l) = true -> e <> ".." ->
  Forall (fun x => isName x = true) (e :: l).
Proof.
  cbn [dotsFirst]. intros H Hdd. apply String.eqb_neq in Hdd.
  rewrite Hdd in H. apply Forall_forall. intros x Hx.
  rewrite forallb_forall in H. by apply H, list_elem_of_In.
Qed.

Lemma dotsFirst_tail (e : string) (l : list string) :
  dotsFirst (e :: l) = true -> dotsFirst l = true.
Proof.
  cbn [dotsFirst]. destruct (String.eqb e ".."); [done|].
  cbn [forallb]. intros [_ H]%andb_true_iff. apply dotsFirst_names.
  apply Forall_forall. intros x Hx. rewrite forallb_forall in H.
  by apply H, list_elem_of_In.
Qed.

Lemma dotsFirst_prefix (l1 l2 : list string) :
  dotsFirst (l1 ++ l2)%list = true -> dotsFirst l1 = true.
Proof.
  induction l1 as [|e l1 IH]; [done|]. cbn [app dotsFirst].
  destruct (String.eqb e ".."); [exact IH|].
  cbn [forallb]. rewrite forallb_app. by intros [-> [-> _]%andb_true_iff]%andb_true_iff.
Qed.

Lemma countDots_names (l : list string) :
  Forall (fun e => isName e = true) l -> countDots l = 0.
Proof.
  unfold countDots. induction 1 as [|e l He _ IH]; [done|].
  cbn [List.filter]. apply isName_spec in He as (_ & _ & _ & Hdd).
  apply String.eqb_neq in Hdd. rewrite String.eqb_sym in Hdd.
  by rewrite Hdd.
Qed.

Lemma countDots_rev (l : list string) : countDots (List.rev l) = countDots l.
Proof.
  unfold countDots. induction l as [|e l IH]; [done|].
  cbn [List.rev List.filter]. rewrite List.filter_app, length_app, IH.
  cbn [List.filter]. destruct (String.eqb ".." e); cbn; lia.
Qed.

Lemma fold_cleanStep_dotsFirst (r : bool) (l : list string) (j : nat) :
  dotsFirst l = true -> (r = true -> countDots l = 0 /\ j = 0) ->
  fold_left (GoPath.cleanStep r) l (replicate j "..")
  = (List.rev l ++ replicate j "..")%list.
Proof.
  revert j. induction l as [|e l IH]; intros j Hl Hr; [done|].
  destruct (String.eqb_spec e "..") as [->|Hdd].
  - assert (r = false) as ->.
    { destruct r; [|done]. destruct (Hr eq_refl) as [H _]. done. }
    cbn [fold_left].
    assert (GoPath.cleanStep false (replicate j "..") ".."
            = replicate (S j) "..") as -> by (by destruct j).
    rewrite IH; [|by eapply dotsFirst_tail|done].
    cbn [List.rev]. by rewrite <- app_assoc.
  - rewrite fold_cleanStep_names; [done|]. by apply dotsFirst_name_tail.
Qed.

Lemma canonStack_rooted (st : list string) :
  canonStack true st -> countDots st = 0.
Proof.
  intros (names & k & -> & Hn & Hk). rewrite (Hk eq_refl), app_nil_r.
  by apply countDots_names.
Qed.

(** The elements of the base that [Rel] climbs over are names, when
    the base has no more [..] elements than the target. *)
Lemma dropCommon_names (b t brest trest : list string) :
  dotsFirst b = true -> dotsFirst t = true ->
  countDots b <= countDots t ->
  GoPath.dropCommon b t = (brest, trest) ->
  Forall (fun e => isName e = true) brest.
Proof.
  revert t. induction b as [|x b IH]; intros t Hb Ht Hle.
  - cbn. by intros [= <- <-].
  - destruct t as [|y t]; cbn [GoPath.dropCommon].
    + intros [= <- <-]. apply dotsFirst_name_tail; [done|].
      intros ->. unfold countDots in Hle. cbn [List.filter] in Hle.
      rewrite String.eqb_refl in Hle. cbn [length] in Hle. lia.
    + destruct (String.eqb_spec x y) as [->|Hxy].
      * apply IH; [by eapply dotsFirst_tail|by eapply dotsFirst_tail|].
        unfold countDots in *. cbn [List.filter] in Hle.
        destruct (String.eqb ".." y); cbn [length] in Hle; lia.
      * intros [= <- <-]. apply dotsFirst_name_tail; [done|].
        intros ->. assert (y <> "..") as Hy by congruence.
        apply dotsFirst_name_tail in Ht; [|done].
        apply countDots_names in Ht. unfold countDots in *.
        rewrite Ht in Hle. cbn [List.filter] in Hle.
        rewrite String.eqb_refl in Hle. cbn [length] in Hle. lia.
Qed.

(** The relative path [Rel] computes leads from the base to the
    target, when the base has no more [..] elements than the target. *)
Lemma Rel_Join (base targ rel : string) :
  dotDots base <= dotDots targ ->
  GoPath.Rel base targ = Ok rel ->
  GoPath.Join base rel = GoPath.Clean targ.
Proof.
  intros Hdd. unfold GoPath.Rel, dotDots in *.
  pose proof (cleanStack_canon base) as HcB.
  pose proof (cleanStack_canon targ) as HcT.
  pose proof (Join_stack base) as HJoin.
  rewrite (Clean_render base), (Clean_render targ).
  remember (HasPrefix base "/") as rB eqn:HrB.
  remember (HasPrefix targ "/") as rT eqn:HrT.
  remember (cleanStack base) as stB eqn:HsB.
  remember (cleanStack targ) as stT eqn:HsT.
  clear HrT HsT. fold (countDots stB) (countDots stT) in Hdd.
  destruct (String.eqb_spec (render rT (List.rev stT)) (render rB (List.rev stB)))
    as [Heq|Hne].
  { intros [= <-]. rewrite Heq.
    destruct (String.eqb_spec base "") as [->|Hbase]; [by subst|].
    by rewrite HJoin. }
  pose proof (elems_render rB stB HcB) as HeB. cbn zeta in HeB. rewrite HeB.
  assert (HasPrefix (if String.eqb (render rB (List.rev stB)) "." then ""
                     else render rB (List.rev stB)) "/" = rB) as ->.
  { destruct (String.eqb_spec (render rB (List.rev stB)) ".") as [Hd|Hd].
    - apply render_dot in Hd as [-> _]; done.
    - by apply render_rooted. }
  rewrite (render_rooted rT stT HcT).
  destruct (Bool.eqb rB rT) eqn:Hr; [|done]. cbn [negb].
  apply Bool.eqb_prop in Hr. subst rT.
  pose proof (canonStack_dotsFirst rB stB HcB) as HdfB.
  pose proof (fold_cleanStep_canonStack rB stT HcT) as HallT.
  (* the elements of the target *)
  assert (exists LT',
    GoPath.elems (render rB (List.rev stT))
    = ((if rB then [""] else []) ++ LT')%list
    /\ Forall (fun e => hasByte "/" e = false /\ e <> "") LT'
    /\ (LT' = List.rev stT \/ (LT' = ["."] /\ stT = []))
    /\ fold_left (GoPath.cleanStep rB) LT' [] = stT
    /\ forall brest trest,
         GoPath.dropCommon (List.rev stB) LT' = (brest, trest) ->
         Forall (fun e => isName e = true) brest)
    as (LT' & -> & HelT & HLT' & HfoldT & Hbrest).
  { destruct (String.eqb_spec (render rB (List.rev stT)) ".") as [Hd|Hd].
    - apply render_dot in Hd as [HrT HsT]; [|done]. exists ["."].
      subst stT. rewrite HrT in *. split; [done|].
      split; [by repeat constructor|]. split; [by right|]. split; [done|].
      intros brest trest Hdrop.
      assert (Forall (fun e => isName e = true) (List.rev stB)) as Hn.
      { destruct (List.rev stB) as [|x l] eqn:Hrev; [done|].
        apply dotsFirst_name_tail; [done|]. intros ->.
        rewrite <- countDots_rev, Hrev in Hdd.
        unfold countDots in Hdd. cbn in Hdd. lia. }
      apply dropCommon_spec in Hdrop as (common & HB & _).
      rewrite HB in Hn. by apply Forall_app in Hn as [_ Hn].
    - exists (List.rev stT). pose proof (elems_render rB stT HcT) as HeT.
      cbn zeta in HeT. apply String.eqb_neq in Hd. rewrite Hd in HeT.
      rewrite HeT. split; [done|].
      split; [by apply Forall_rev, (canonStack_elements rB)|].
      split; [by left|]. split; [done|].
      intros brest trest. apply dropCommon_names; [done| |].
      + by eapply canonStack_dotsFirst.
      + by rewrite !countDots_rev. }
  rewrite dropCommon_same.
  destruct (GoPath.dropCommon (List.rev stB) LT') as [brest trest] eqn:Hdrop.
  specialize (Hbrest brest trest eq_refl).
  apply dropCommon_spec in Hdrop as (common & HB & HT).
  assert (fold_left (GoPath.cleanStep rB) common [] = List.rev common)
    as Hcommon.
  { pose proof (fold_cleanStep_dotsFirst rB common 0) as H.
    cbn [replicate] in H. rewrite app_nil_r in H. apply H.
    - rewrite HB in HdfB. by eapply dotsFirst_prefix.
    - intros ->. split; [|done].
      pose proof (canonStack_rooted stB HcB) as H0.
      rewrite <- countDots_rev, HB in H0. unfold countDots in *.
      rewrite List.filter_app, length_app in H0. lia. }
  assert (fold_left (GoPath.cleanStep rB) trest (List.rev common) = stT)
    as Hfold.
  { by rewrite <- Hcommon, <- fold_left_app, <- HT. }
  set (ups := map (fun _ : string => "..") brest).
  assert (ups = replicate (List.length brest) "..") as Hups.
  { subst ups. clear. induction brest as [|b brest IH]; [done|].
    cbn. by rewrite IH. }
  intros Hrel.
  assert (rel = Join (ups ++ trest) "/" /\ (ups ++ trest)%list <> []) as [-> Hnil].
  { destruct brest as [|b0 brest], trest as [|t0 trest].
    - exfalso. rewrite app_nil_r in HB, HT. apply Hne.
      destruct HLT' as [HL|[HL HsT]].
      + by rewrite <- HL, HT, <- HB.
      + rewrite HL in HT. rewrite <- HT in HB.
        pose proof (canonStack_nodot rB stB HcB) as Hnd.
        apply Forall_rev in Hnd. rewrite HB in Hnd. by inversion Hnd.
    - by injection Hrel as <-.
    - injection Hrel as <-. by rewrite app_nil_r.
    - inversion Hbrest as [|? ? Hb0 _]; subst.
      apply isName_spec in Hb0 as (_ & _ & _ & Hb0).
      apply String.eqb_neq in Hb0. rewrite Hb0 in Hrel.
      by injection Hrel as <-. }
  assert (SplitByte (Join (ups ++ trest) "/") "/" = (ups ++ trest)%list)
    as Hsplit.
  { apply SplitByte_Join; [done|]. apply Forall_app. split.
    - rewrite Hups. apply Forall_forall.
      intros e He%elem_of_replicate. by destruct He as [-> _].
    - rewrite HT in HelT. apply Forall_app in HelT as [_ HelT].
      eapply Forall_impl; [exact HelT|]. by intros ? []. }
  assert (fold_left (GoPath.cleanStep rB) (ups ++ trest) stB = stT) as Hgo.
  { rewrite fold_left_app, Hups.
    replace stB with (List.rev brest ++ List.rev common)%list
      by (by rewrite <- rev_app_distr, <- HB, rev_involutive).
    rewrite <- (length_rev brest), fold_cleanStep_pop by (by apply Forall_rev).
    exact Hfold. }
  destruct (String.eqb_spec base "") as [->|Hbase].
  - (* the base is the empty path: its stack is empty *)
    cbn in HsB, HrB. subst stB.
    destruct common; [|done]. destruct brest; [|done].
    cbn [app] in *. subst ups. cbn [map app] in *. subst LT'.
    unfold GoPath.Join. cbn [String.eqb].
    destruct (String.eqb_spec (Join trest "/") "") as [Hempty|_].
    + exfalso. rewrite Hempty in Hsplit. cbn in Hsplit. subst trest.
      inversion HelT as [|? ? [_ Hx] _]. done.
    + rewrite Clean_render. unfold cleanStack. rewrite Hsplit.
      assert (HasPrefix (Join trest "/") "/" = false) as ->.
      { destruct trest as [|x l]; [done|].
        inversion HelT as [|? ? [Hxs Hx] _]; subst.
        destruct (Join_head x l Hx Hxs) as (c & t & -> & Hc').
        cbn [HasPrefix]. apply Ascii.eqb_neq in Hc'.
        rewrite Ascii.eqb_sym in Hc'. by rewrite Hc'. }
      rewrite HrB. by rewrite HrB in Hgo; rewrite Hgo.
  - rewrite HJoin by done. by rewrite Hsplit, Hgo.
Qed.

Lemma Clean_render_canon (r : bool) (st : list string) :
  canonStack r st ->
  GoPath.Clean (render r (List.rev st)) = render r (List.rev st).
Proof.
  intros Hc. by rewrite Clean_render, render_rooted, cleanStack_render.
Qed.

Lemma dropCommon_prefix (l t : list string) :
  GoPath.dropCommon l (l ++ t) = ([], t).
Proof.
  induction l as [|x l IH]; [done|]. cbn. by rewrite String.eqb_refl.
Qed.

(** From a directory to a file directly inside it, the relative path
    is the file's name. *)
Lemma Rel_child (out n : string) :
  isName n = true ->
  GoPath.Rel (GoPath.Clean out) (GoPath.Join out n) = Ok n.
Proof.
  intros Hn. pose proof (cleanStack_canon out) as Hc.
  pose proof (canonStack_push _ _ n Hn Hc) as Hc'.
  rewrite Join_name by done. rewrite (Clean_render out).
  set (r := HasPrefix out "/") in *. set (st := cleanStack out) in *.
  change (List.rev st ++ [n])%list with (List.rev (n :: st)).
  unfold GoPath.Rel. rewrite !Clean_render_canon by done.
  destruct (String.eqb_spec (render r (List.rev (n :: st)))
                            (render r (List.rev st))) as [Heq|_].
  { exfalso. apply (f_equal cleanStack) in Heq.
    rewrite !cleanStack_render in Heq by done.
    apply (f_equal List.length) in Heq. cbn in Heq. lia. }
  pose proof (elems_render r st Hc) as HeB. cbn zeta in HeB. rewrite HeB.
  assert (HasPrefix (if String.eqb (render r (List.rev st)) "." then ""
                     else render r (List.rev st)) "/" = r) as ->.
  { destruct (String.eqb_spec (render r (List.rev st)) ".") as [Hd|Hd].
    - apply render_dot in Hd as [-> _]; done.
    - by apply render_rooted. }
  rewrite (render_rooted r (n :: st) Hc'), Bool.eqb_reflx. cbn [negb].
  pose proof (elems_render r (n :: st) Hc') as HeT. cbn zeta in HeT.
  destruct (String.eqb_spec (render r (List.rev (n :: st))) ".") as [Hd|_].
  { by apply render_dot in Hd as [_ ?]. }
  rewrite HeT, dropCommon_same. cbn [List.rev].
  by rewrite dropCommon_prefix.
Qed.

(** *** [Ext] *)

Lemma rev_append (a b : string) : rev (a +:+ b) = rev b +:+ rev a.
Proof.
  induction a as [|x a IH]; [by rewrite append_nil_l, append_nil_r|].
  rewrite append_cons. cbn [rev]. by rewrite IH, append_assoc.
Qed.

Lemma rev_rev (s : string) : rev (rev s) = s.
Proof.
  induction s as [|x s IH]; [done|]. cbn [rev]. by rewrite rev_append, IH.
Qed.

Lemma hasByte_rev (c : ascii) (s : string) : hasByte c (rev s) = hasByte c s.
Proof.
  induction s as [|x s IH]; [done|]. cbn [rev]. rewrite hasByte_append, IH.
  cbn. by rewrite orb_false_r, orb_comm.
Qed.

Lemma extFrom_skip (y rest acc : string) :
  hasByte "." y = false -> hasByte "/" y = false ->
  GoPath.extFrom (y +:+ rest) acc = GoPath.extFrom rest (rev y +:+ acc).
Proof.
  revert acc. induction y as [|c y IH]; intros acc Hd Hs; [done|].
  cbn in Hd, Hs. apply orb_false_iff in Hd as [Hd1 Hd2].
  apply orb_false_iff in Hs as [Hs1 Hs2].
  rewrite append_cons. cbn [GoPath.extFrom rev]. rewrite Hd1, Hs1.
  rewrite IH by done. by rewrite append_assoc.
Qed.

Lemma extFrom_cases (rs acc : string) :
  exists pre,
    hasByte "." pre = false /\ hasByte "/" pre = false
    /\ ((rs = pre /\ GoPath.extFrom rs acc = "")
        \/ (exists post, rs = pre +:+ String "/" post
                         /\ GoPath.extFrom rs acc = "")
        \/ (exists post, rs = pre +:+ String "." post
                         /\ GoPath.extFrom rs acc
                            = String "." (rev pre +:+ acc))).
Proof.
  revert acc. induction rs as [|c rs IH]; intros acc.
  - exists "". by repeat split; try left.
  - cbn [GoPath.extFrom]. destruct (Ascii.eqb_spec c "/") as [->|Hs].
    + exists "". split; [done|]. split; [done|]. right; left. by exists rs.
    + destruct (Ascii.eqb_spec c ".") as [->|Hd].
      * exists "". split; [done|]. split; [done|]. right; right. by exists rs.
      * destruct (IH (String c acc)) as (pre & Hpd & Hps & Hcases).
        exists (String c pre). apply Ascii.eqb_neq in Hs, Hd.
        split; [by cbn; rewrite Hd|]. split; [by cbn; rewrite Hs|].
        cbn [rev]. rewrite append_assoc.
        destruct Hcases as [[-> He]|[(post & -> & He)|(post & -> & He)]].
        -- by left.
        -- right; left. by exists post.
        -- right; right. by exists post.
Qed.

Lemma extFrom_app_slash (y rest acc : string) :
  hasByte "/" y = false ->
  GoPath.extFrom (y +:+ String "/" rest) acc = GoPath.extFrom y acc.
Proof.
  revert acc. induction y as [|c y IH]; intros acc Hy; [done|].
  cbn in Hy. apply orb_false_iff in Hy as [Hc Hy].
  rewrite append_cons. cbn [GoPath.extFrom]. rewrite Hc.
  destruct (Ascii.eqb c "."); [done|]. by apply IH.
Qed.

Lemma Ext_last (pfx x : string) :
  hasByte "/" x = false ->
  pfx = "" \/ (exists q, pfx = q +:+ "/") ->
  GoPath.Ext (pfx +:+ x) = GoPath.Ext x.
Proof.
  intros Hx [->|[q ->]]; [done|]. unfold GoPath.Ext.
  rewrite !rev_append. cbn [rev]. rewrite append_nil_l.
  change ("/" +:+ rev q) with (String "/" (rev q)).
  apply extFrom_app_slash. by rewrite hasByte_rev.
Qed.

(** The extension is a suffix, free of slashes; without one, the last
    element has no dot. *)
Lemma Ext_spec (x : string) :
  hasByte "/" x = false ->
  (GoPath.Ext x = "" /\ hasByte "." x = false)
  \/ exists stem e, x = stem +:+ String "." e /\ GoPath.Ext x = String "." e
                    /\ hasByte "." e = false /\ hasByte "/" e = false.
Proof.
  intros Hx. unfold GoPath.Ext.
  destruct (extFrom_cases (rev x) "") as (pre & Hpd & Hps & Hcases).
  destruct Hcases as [[Hr He]|[(post & Hr & He)|(post & Hr & He)]].
  - left. split; [done|]. by rewrite <- hasByte_rev, Hr.
  - exfalso. rewrite <- hasByte_rev, Hr, hasByte_append in Hx. cbn in Hx.
    by rewrite orb_true_r in Hx.
  - right. exists (rev post), (rev pre).
    rewrite He, append_nil_r, !hasByte_rev. split; [|done].
    rewrite <- (rev_rev x), Hr, rev_append. cbn [rev].
    by rewrite append_assoc.
Qed.

Lemma TrimSuffix_append (stem suf : string) :
  TrimSuffix (stem +:+ suf) suf = stem.
Proof.
  unfold TrimSuffix.
  assert (HasSuffix (stem +:+ suf) suf = true) as ->
    by (apply HasSuffix_spec; eauto).
  rewrite length_append.
  replace (String.length stem + String.length suf - String.length suf)
    with (String.length stem) by lia.
  apply take_append.
Qed.

Lemma Ext_plain (y : string) :
  hasByte "." y = false -> hasByte "/" y = false -> GoPath.Ext y = "".
Proof.
  intros Hd Hs. unfold GoPath.Ext.
  rewrite <- (append_nil_r (rev y)), extFrom_skip; [done| |];
    by rewrite hasByte_rev.
Qed.

Lemma Ext_dot (stem e : string) :
  hasByte "." e = false -> hasByte "/" e = false ->
  GoPath.Ext (stem +:+ String "." e) = String "." e.
Proof.
  intros Hd Hs. unfold GoPath.Ext. rewrite rev_append. cbn [rev].
  rewrite !append_assoc, extFrom_skip by (by rewrite hasByte_rev).
  cbn. by rewrite rev_rev, append_nil_r.
Qed.

(** *** The characters of hashes and counters *)

Lemma hexDigit_hex (d : Z) :
  (0 <= d < 16)%Z -> isHexChar (Sha256.hexDigit d) = true.
Proof.
  intros Hd.
  assert (d = 0 \/ d = 1 \/ d = 2 \/ d = 3 \/ d = 4 \/ d = 5 \/ d = 6
          \/ d = 7 \/ d = 8 \/ d = 9 \/ d = 10 \/ d = 11 \/ d = 12
          \/ d = 13 \/ d = 14 \/ d = 15)%Z as H by lia.
  repeat (destruct H as [->|H]; [reflexivity|]). by subst.
Qed.

Lemma hasByte_hexString (c : ascii) (bs : list Z) :
  isHexChar c = false -> Forall (fun b => (0 <= b < 256)%Z) bs ->
  hasByte c (Sha256.hexString bs) = false.
Proof.
  intros Hc. induction 1 as [|b bs Hb _ IH]; [done|].
  cbn [Sha256.hexString hasByte]. rewrite IH, orb_false_r.
  assert (forall d, (0 <= d < 16)%Z -> Ascii.eqb (Sha256.hexDigit d) c = false)
    as Hne.
  { intros d Hd. apply Ascii.eqb_neq. intros <-.
    by rewrite hexDigit_hex in Hc. }
  rewrite !Hne; [done| |].
  - change 15%Z with (Z.ones 4). rewrite Z.land_ones by lia.
    apply Z.mod_pos_bound. lia.
  - rewrite Z.shiftr_div_pow2 by lia. split.
    + apply Z.div_pos; lia.
    + apply Z.div_lt_upper_bound; lia.
Qed.

Lemma bigEndian_bytes (n : nat) (x : Z) :
  Forall (fun b => (0 <= b < 256)%Z) (Sha256.bigEndian n x).
Proof.
  unfold Sha256.bigEndian. apply Forall_map, Forall_forall. intros i _.
  cbn beta. change 255%Z with (Z.ones 8). rewrite Z.land_ones by lia.
  apply Z.mod_pos_bound. lia.
Qed.

Lemma hasByte_generateHashFromURL (c : ascii) (urlStr : string) :
  isHexChar c = false -> hasByte c (generateHashFromURL urlStr) = false.
Proof.
  intros Hc. unfold generateHashFromURL, Sha256.hexSum.
  apply hasByte_hexString; [done|].
  generalize (Sha256.digest
    (map (fun c => Z.of_N (N_of_ascii c)) (list_ascii_of_string urlStr))).
  intros ws. induction ws as [|w ws IH]; [constructor|].
  cbn [flat_map]. apply Forall_app. split; [apply bigEndian_bytes|done].
Qed.

Lemma hasByte_take (c : ascii) (n : nat) (s : string) :
  hasByte c s = false -> hasByte c (take n s) = false.
Proof.
  revert s. induction n as [|n IH]; intros [|a s]; cbn; try done.
  intros [Ha Hs]%orb_false_iff. by rewrite Ha, IH.
Qed.

Lemma hasByte_Itoa (c : ascii) (n : nat) :
  isDigit c = false -> hasByte c (Itoa n) = false.
Proof.
  intros Hc. unfold Itoa. generalize (Nat.to_uint n). intros d.
  assert (forall a, isDigit a = true -> Ascii.eqb a c = false) as Hne.
  { intros a Ha. apply Ascii.eqb_neq. intros <-. congruence. }
  induction d as [|d IH|d IH|d IH|d IH|d IH|d IH|d IH|d IH|d IH|d IH];
    cbn [NilEmpty.string_of_uint hasByte]; [done|..];
    by rewrite IH, Hne.
Qed.

(** *** Conflict resolution *)

Lemma triedPath_tag (base hash8 ext : string) (k : nat) :
  triedPath base hash8 ext k = base +:+ conflictTag hash8 k +:+ ext.
Proof.
  unfold triedPath, hashedPath, countedPath, conflictTag.
  destruct k; by rewrite ?append_assoc, ?append_nil_r.
Qed.

Lemma hasByte_conflictTag (c : ascii) (urlStr : string) (k : nat) :
  isHexChar c = false -> c <> "_"%char ->
  hasByte c (conflictTag (take 8 (generateHashFromURL urlStr)) k) = false.
Proof.
  intros Hc Hu. unfold conflictTag.
  assert (Ascii.eqb "_" c = false) as Hu'.
  { apply Ascii.eqb_neq. congruence. }
  change ("_" +:+ ?t) with (String "_" t). cbn [hasByte]. rewrite Hu'.
  rewrite hasByte_append, hasByte_take
    by (by apply hasByte_generateHashFromURL).
  destruct k; [done|]. change ("_" +:+ ?t) with (String "_" t).
  cbn [hasByte]. rewrite Hu', hasByte_Itoa; [done|].
  unfold isHexChar in Hc. by apply orb_false_iff in Hc as [-> _].
Qed.

(** [resolveConflict] changes the last element only: it keeps the
    directory part and the extension, and the new element holds an
    underscore. *)
Lemma resolveConflict_last (fs : FileSystem) (pfx x urlStr : string) :
  pfx = "" \/ (exists q, pfx = q +:+ "/") ->
  hasByte "/" x = false ->
  exists name,
    resolveConflict fs (pfx +:+ x) urlStr = pfx +:+ name
    /\ hasByte "/" name = false /\ hasByte "_" name = true
    /\ GoPath.Ext name = GoPath.Ext x
    /\ inUse fs (pfx +:+ name) = false.
Proof.
  intros Hpfx Hx.
  destruct (resolveConflict_spec fs (pfx +:+ x) urlStr) as (k & Hres & Hfree & _).
  rewrite Hres in *. rewrite triedPath_tag in *.
  rewrite Ext_last in * by done.
  set (tag := conflictTag (take 8 (generateHashFromURL urlStr)) k) in *.
  assert (hasByte "/" tag = false) as Htag1
    by (by apply hasByte_conflictTag).
  assert (hasByte "." tag = false) as Htag2
    by (by apply hasByte_conflictTag).
  assert (hasByte "_" tag = true) as Htag3 by done.
  assert (exists stem,
            x = stem +:+ GoPath.Ext x
            /\ TrimSuffix (pfx +:+ x) (GoPath.Ext x) = pfx +:+ stem
            /\ GoPath.Ext (stem +:+ tag +:+ GoPath.Ext x) = GoPath.Ext x)
    as (stem & Hxe & Htrim & Hext).
  { destruct (Ext_spec x Hx) as [[He Hd]|(stem & e & Hxe & He & Hed & Hes)].
    - exists x. rewrite He, !append_nil_r. split; [done|]. split.
      + rewrite <- (append_nil_r (pfx +:+ x)) at 1. apply TrimSuffix_append.
      + apply Ext_plain; by rewrite hasByte_append, ?Hd, ?Hx, ?Htag1, ?Htag2.
    - exists stem. rewrite He. split; [done|]. split.
      + rewrite Hxe at 1. rewrite <- append_assoc. apply TrimSuffix_append.
      + rewrite <- append_assoc. by apply Ext_dot. }
  rewrite Htrim in *.
  assert (hasByte "/" stem = false /\ hasByte "/" (GoPath.Ext x) = false)
    as [Hstem Hexts].
  { rewrite Hxe, hasByte_append in Hx. by apply orb_false_iff in Hx. }
  exists (stem +:+ tag +:+ GoPath.Ext x). rewrite !append_assoc in *.
  rewrite !hasByte_append, Hstem, Htag1, Htag3, Hexts, orb_true_r.
  done.
Qed.

Lemma split_last (p : string) :
  exists pfx x, p = pfx +:+ x /\ (pfx = "" \/ (exists q, pfx = q +:+ "/"))
                /\ hasByte "/" x = false.
Proof.
  pose proof (LastIndex_slash p) as H.
  destruct (LastIndex p "/") as [i|].
  - destruct H as (q & e & -> & _ & He). exists (q +:+ "/"), e.
    rewrite append_assoc. eauto.
  - exists "", p. eauto.
Qed.

Lemma Dir_split (pfx x y : string) :
  pfx = "" \/ (exists q, pfx = q +:+ "/") ->
  hasByte "/" x = false -> hasByte "/" y = false ->
  GoPath.Dir (pfx +:+ x) = GoPath.Dir (pfx +:+ y).
Proof.
  intros [->|[q ->]] Hx Hy.
  - by rewrite !append_nil_l, !Dir_plain.
  - by rewrite !append_assoc, !Dir_last.
Qed.

Lemma isName_intro (e : string) :
  hasByte "/" e = false -> e <> "" -> e <> "." -> e <> ".." ->
  isName e = true.
Proof.
  intros Hs H1 H2 H3. unfold isName. apply String.eqb_neq in H1, H2, H3.
  by rewrite Hs, H1, H2, H3.
Qed.

Lemma isName_underscore (e : string) :
  hasByte "/" e = false -> hasByte "_" e = true -> isName e = true.
Proof.
  intros Hs Hu. apply isName_intro; [done|..]; by intros ->.
Qed.

Lemma dirPrefix_shape (r : bool) (l : list string) :
  dirPrefix r l = "" \/ exists q, dirPrefix r l = q +:+ "/".
Proof.
  unfold dirPrefix. destruct l as [|a l].
  - destruct r; [right; by exists ""|by left].
  - right. exists ((if r then "/" else "") +:+ Join (a :: l) "/").
    by rewrite append_assoc.
Qed.

(** The file name of a URL in flattened mode is a name, unless the
    URL's path ends in [..]. *)
Lemma flatPath_name (fs : FileSystem) (urlStr : string) (parsedURL : GoUrl.URL) :
  GoPath.Base (GoUrl.Path parsedURL) <> ".." ->
  exists name, isName name = true
               /\ flatPath fs urlStr parsedURL = GoPath.Join (outputDir fs) name.
Proof.
  intros Hdd. unfold flatPath.
  set (filename := GoPath.Base (GoUrl.Path parsedURL)) in *.
  destruct (String.eqb_spec filename "") as [H1|H1]; cbn [orb].
  2: destruct (String.eqb_spec filename ".") as [H2|H2]; cbn [orb].
  3: destruct (String.eqb_spec filename "/") as [H3|H3]; cbn [orb].
  4: { exists filename. split; [|done].
       destruct (Base_cases (GoUrl.Path parsedURL)) as [?|[?|[_ Hs]]];
         [done|done|]. by apply isName_intro. }
  all: exists (generateFilenameFromURL urlStr); split; [|done].
  all: unfold generateFilenameFromURL.
  all: assert (String.length (take 16 (generateHashFromURL urlStr) +:+ ".bin")
               = 20) as Hlen
         by (by rewrite length_append, length_take,
                generateHashFromURL_length).
  all: apply isName_intro;
    [|intros Heq; by rewrite Heq in Hlen..].
  all: rewrite hasByte_append, hasByte_take;
    [done|by apply hasByte_generateHashFromURL].
Qed.

Lemma Join_name_prefix (out n : string) :
  isName n = true ->
  exists pfx, GoPath.Join out n = pfx +:+ n
              /\ (pfx = "" \/ exists q, pfx = q +:+ "/")
              /\ forall m, isName m = true -> GoPath.Join out m = pfx +:+ m.
Proof.
  intros Hn. exists (dirPrefix (HasPrefix out "/") (List.rev (cleanStack out))).
  split; [|split; [apply dirPrefix_shape|]].
  - rewrite Join_name, render_snoc; [done| |done].
    by apply isName_spec in Hn as (_ & ? & _).
  - intros m Hm. rewrite Join_name, render_snoc; [done| |done].
    by apply isName_spec in Hm as (_ & ? & _).
Qed.

End path_facts.

(** ** Where the mapper puts files *)

Section placement.
Import GoStrings.

Lemma freshPath_flat (fs : FileSystem) (urlStr : string)
    (parsedURL : GoUrl.URL) :
  flatten fs = true ->
  GoPath.Base (GoUrl.Path parsedURL) <> ".." ->
  exists name, isName name = true
    /\ freshPath fs urlStr parsedURL = GoPath.Join (outputDir fs) name.
Proof.
  intros Hflat Hdd. unfold freshPath. rewrite Hflat.
  destruct (flatPath_name fs urlStr parsedURL Hdd) as (n & Hn & Hflatp).
  destruct (inUse fs (flatPath fs urlStr parsedURL)); [|by exists n].
  rewrite Hflatp.
  destruct (Join_name_prefix (outputDir fs) n Hn) as (pfx & -> & Hpfx & Hall).
  apply isName_spec in Hn as (Hns & _).
  destruct (resolveConflict_last fs pfx n urlStr Hpfx Hns)
    as (m & -> & Hms & Hmu & _).
  exists m. pose proof (isName_underscore m Hms Hmu) as Hm.
  split; [done|]. by rewrite Hall.
Qed.

(** X1. In flattened mode a URL that is assigned a path for the first time
    gets a file directly inside the output directory, whatever is in
    the mapper: the output directory joined with one name, both when
    its file name is free and when the conflict is resolved by a hash
    and a counter. The URL's path must not end in [..], which names
    the parent of the output directory. *)
Theorem GetLocalPath_flat_directly_inside (fs : FileSystem)
    (urlStr : string) (parsedURL : GoUrl.URL) :
  flatten fs = true ->
  urlToPath fs !! urlStr = None ->
  GoUrl.Parse urlStr = Ok parsedURL ->
  GoPath.Base (GoUrl.Path parsedURL) <> ".." ->
  exists name,
    isName name = true
    /\ (GetLocalPath fs urlStr).2 = Ok (GoPath.Join (outputDir fs) name)
    /\ GoPath.Dir (GoPath.Join (outputDir fs) name)
       = GoPath.Clean (outputDir fs).
Proof.
  intros Hflat Hnew Hparse Hdd.
  destruct (freshPath_flat fs urlStr parsedURL Hflat Hdd)
    as (name & Hname & Hfresh).
  exists name. split; [done|]. split; [|by apply Dir_Join_name].
  unfold GetLocalPath. by rewrite Hnew, Hparse, Hfresh.
Qed.

Lemma GetLocalPath_flat_directly_inside_witness :
  let fs := (assignAll (New "out" true) ["https://a.example/x/seg.ts"]).1 in
  let urlStr := "https://b.example/y/seg.ts" in
  urlToPath fs !! urlStr = None
  /\ exists name,
       isName name = true
       /\ (GetLocalPath fs urlStr).2 = Ok (GoPath.Join (outputDir fs) name)
       /\ GoPath.Dir (GoPath.Join (outputDir fs) name)
          = GoPath.Clean (outputDir fs).
Proof.
  cbn zeta. split; [vm_compute; reflexivity|].
  eapply GetLocalPath_flat_directly_inside.
  - vm_compute; reflexivity.
  - vm_compute; reflexivity.
  - vm_compute; reflexivity.
  - vm_compute; discriminate.
Defined.

(** *** Relative paths *)

(** X2. The relative path [GetRelativePath] returns leads from the
    directory of the first file to the second file. The directory must
    not start with more [..] elements than the target, the case in
    which no relative path can be found lexically. *)
Theorem GetRelativePath_leads_to_target (fs fs' : FileSystem)
    (fromURL toURL relPath fromPath toPath : string) :
  GetRelativePath fs fromURL toURL = (fs', Ok relPath) ->
  urlToPath fs' !! fromURL = Some fromPath ->
  urlToPath fs' !! toURL = Some toPath ->
  dotDots (GoPath.Dir fromPath) <= dotDots toPath ->
  GoPath.Join (GoPath.Dir fromPath) relPath = GoPath.Clean toPath.
Proof.
  unfold GetRelativePath.
  destruct (GetLocalPath fs fromURL) as [fs1 [p1|e1]] eqn:H1; [|done].
  pose proof (GetLocalPath_grows fs1 toURL) as Hgrows.
  destruct (GetLocalPath fs1 toURL) as [fs2 [p2|e2]] eqn:H2; [|done].
  destruct (GoPath.Rel (GoPath.Dir p1) p2) as [rel|e] eqn:Hrel; [|done].
  intros [= <- <-] Hfrom Hto Hdd.
  apply GetLocalPath_Ok in H1, H2. cbn in Hgrows.
  rewrite (grows_lookup _ _ _ _ Hgrows H1) in Hfrom.
  injection Hfrom as <-. rewrite H2 in Hto. injection Hto as <-.
  by apply Rel_Join.
Qed.

Lemma GetRelativePath_leads_to_target_witness :
  let fs := New "out" false in
  let fromURL := "https://example.com/a/b/playlist.m3u8" in
  let toURL := "https://example.com/a/c/seg.ts" in
  (GetRelativePath fs fromURL toURL).2 = Ok "../c/seg.ts"
  /\ GoPath.Join (GoPath.Dir "out/a/b/playlist.m3u8") "../c/seg.ts"
     = GoPath.Clean "out/a/c/seg.ts".
Proof.
  cbn zeta. split; [vm_compute; reflexivity|].
  apply (GetRelativePath_leads_to_target (New "out" false)
           (GetRelativePath (New "out" false)
              "https://example.com/a/b/playlist.m3u8"
              "https://example.com/a/c/seg.ts").1
           "https://example.com/a/b/playlist.m3u8"
           "https://example.com/a/c/seg.ts").
  - vm_compute; reflexivity.
  - vm_compute; reflexivity.
  - vm_compute; reflexivity.
  - vm_compute; lia.
Defined.

Lemma flatMapper_GetLocalPath (fs : FileSystem) (urlStr : string)
    (parsedURL : GoUrl.URL) :
  flatten fs = true -> flatMapper fs ->
  GoUrl.Parse urlStr = Ok parsedURL ->
  GoPath.Base (GoUrl.Path parsedURL) <> ".." ->
  exists fs1 name,
    GetLocalPath fs urlStr = (fs1, Ok (GoPath.Join (outputDir fs) name))
    /\ isName name = true
    /\ flatten fs1 = true /\ outputDir fs1 = outputDir fs /\ flatMapper fs1.
Proof.
  intros Hflat Hfm Hparse Hdd.
  destruct (GetLocalPath_cases fs urlStr) as [q Hq|e Hu He|parsed Hu Hp].
  - destruct (Hfm urlStr q Hq) as (name & Hname & ->). by exists fs, name.
  - congruence.
  - assert (parsed = parsedURL) as -> by congruence.
    destruct (freshPath_flat fs urlStr parsedURL Hflat Hdd)
      as (name & Hname & ->).
    eexists _, name. split; [done|]. split; [done|]. split; [done|].
    split; [done|]. intros v p. cbn.
    destruct (decide (urlStr = v)) as [<-|Hne].
    + rewrite lookup_insert_eq. intros [= <-]. by exists name.
    + rewrite lookup_insert_ne by done. apply Hfm.
Qed.

(** X3. In flattened mode, when every path the mapper holds is the
    output directory joined with one name, and for two URLs that parse
    and whose paths do not end in [..], [GetRelativePath] succeeds and
    returns a bare file name: the name of the second URL's file in the
    output directory. The mapper keeps its shape. *)
Theorem GetRelativePath_flat_name (fs : FileSystem) (fromURL toURL : string)
    (fromParsed toParsed : GoUrl.URL) :
  flatten fs = true -> flatMapper fs ->
  GoUrl.Parse fromURL = Ok fromParsed ->
  GoUrl.Parse toURL = Ok toParsed ->
  GoPath.Base (GoUrl.Path fromParsed) <> ".." ->
  GoPath.Base (GoUrl.Path toParsed) <> ".." ->
  exists fs' name,
    GetRelativePath fs fromURL toURL = (fs', Ok name)
    /\ isName name = true
    /\ urlToPath fs' !! toURL = Some (GoPath.Join (outputDir fs) name)
    /\ flatMapper fs'.
Proof.
  intros Hflat Hfm Hfrom Hto Hdd1 Hdd2. unfold GetRelativePath.
  destruct (flatMapper_GetLocalPath fs fromURL fromParsed Hflat Hfm Hfrom Hdd1)
    as (fs1 & n1 & -> & Hn1 & Hflat1 & Hout1 & Hfm1).
  destruct (flatMapper_GetLocalPath fs1 toURL toParsed Hflat1 Hfm1 Hto Hdd2)
    as (fs2 & n2 & H2 & Hn2 & Hflat2 & Hout2 & Hfm2).
  rewrite H2, Hout1. rewrite Dir_Join_name, Rel_child by done.
  exists fs2, n2. split; [done|]. split; [done|]. split; [|done].
  apply GetLocalPath_Ok in H2. by rewrite Hout1 in H2.
Qed.

Lemma GetRelativePath_flat_name_witness :
  exists fs' name,
    GetRelativePath (New "out" true) "https://example.com/a/b/playlist.m3u8"
                    "https://cdn.example.com/v/seg.ts" = (fs', Ok name)
    /\ isName name = true
    /\ urlToPath fs' !! "https://cdn.example.com/v/seg.ts"
       = Some (GoPath.Join (outputDir (New "out" true)) name)
    /\ flatMapper fs'.
Proof.
  eapply GetRelativePath_flat_name.
  - reflexivity.
  - intros u p H. vm_compute in H. discriminate.
  - vm_compute; reflexivity.
  - vm_compute; reflexivity.
  - vm_compute; discriminate.
  - vm_compute; discriminate.
Defined.

(** X4. [resolveConflict] renames the file within its directory: the path
    it returns is not in use, has the extension of the original path
    and lies in the same directory. *)
Theorem resolveConflict_same_directory_and_extension (fs : FileSystem)
    (originalPath urlStr : string) :
  let newPath := resolveConflict fs originalPath urlStr in
  inUse fs newPath = false
  /\ GoPath.Ext newPath = GoPath.Ext originalPath
  /\ GoPath.Dir newPath = GoPath.Dir originalPath.
Proof.
  destruct (split_last originalPath) as (pfx & x & -> & Hpfx & Hx).
  destruct (resolveConflict_last fs pfx x urlStr Hpfx Hx)
    as (name & Hres & Hns & _ & Hext & Hfree).
  cbn zeta. rewrite Hres. split; [done|]. split.
  - by rewrite !Ext_last.
  - by apply Dir_split.
Qed.

Lemma TrimPrefix_slash (p : string) :
  pathElems (TrimPrefix p "/") = pathElems p
  /\ hasDotDot (TrimPrefix p "/") = hasDotDot p.
Proof.
  unfold TrimPrefix, pathElems, hasDotDot. destruct p as [|c p]; [done|].
  cbn [HasPrefix]. rewrite Ascii.eqb_sym.
  destruct (Ascii.eqb_spec c "/") as [->|Hc]; [|done].
  cbn [andb String.length drop SplitByte]. by rewrite Ascii.eqb_refl.
Qed.

Lemma Join_noDotDot (out p : string) :
  out <> "" -> hasDotDot p = false ->
  GoPath.Join out p = fold_left GoPath.Join (pathElems p) (GoPath.Clean out).
Proof.
  intros Hout Hdd. rewrite Join_stack by done.
  rewrite fold_cleanStep_noDotDot by done.
  rewrite Clean_render, fold_Join_names;
    [|apply cleanStack_canon|by apply pathElems_names].
  by rewrite rev_app_distr, rev_involutive.
Qed.

Lemma hierarchicalCache_GetLocalPath (outputDir : string) (fs : FileSystem)
    (u : string) :
  hierarchicalCache outputDir fs ->
  (GetLocalPath fs u).2 = (GetLocalPath (New outputDir false) u).2
  /\ hierarchicalCache outputDir (GetLocalPath fs u).1.
Proof.
  intros (Hout & Hflat & Hcache).
  assert (forall parsed, freshPath fs u parsed
                         = freshPath (New outputDir false) u parsed) as Hfresh.
  { intros parsed. unfold freshPath. by rewrite Hflat, Hout. }
  destruct (GetLocalPath_cases fs u) as [q Hq|e Hu He|parsed Hu Hp]; cbn.
  - split; [by rewrite (Hcache u q Hq)|done].
  - split; [|done]. unfold GetLocalPath. cbn [New urlToPath].
    by rewrite lookup_empty, He.
  - assert ((GetLocalPath (New outputDir false) u).2
            = Ok (freshPath fs u parsed)) as Hnew.
    { unfold GetLocalPath. cbn [New urlToPath].
      by rewrite lookup_empty, Hp, Hfresh. }
    split; [done|]. split; [done|]. split; [done|]. cbn.
    intros v p. destruct (decide (u = v)) as [<-|Hne].
    + rewrite lookup_insert_eq. by intros [= <-].
    + rewrite lookup_insert_ne by done. apply Hcache.
Qed.

Lemma assignAll_hierarchicalCache (outputDir : string) (fs : FileSystem)
    (urls : list string) :
  hierarchicalCache outputDir fs ->
  hierarchicalCache outputDir (assignAll fs urls).1.
Proof.
  revert fs. induction urls as [|u urls IH]; intros fs Hfs; [done|].
  cbn [assignAll].
  destruct (hierarchicalCache_GetLocalPath outputDir fs u Hfs) as [_ H1].
  destruct (GetLocalPath fs u) as [fs1 r]. specialize (IH fs1 H1).
  by destruct (assignAll fs1 urls).
Qed.

Lemma New_hierarchicalCache (outputDir : string) :
  hierarchicalCache outputDir (New outputDir false).
Proof.
  split; [done|]. split; [done|]. intros u p. cbn [New urlToPath].
  by rewrite lookup_empty.
Qed.

(** X5. In hierarchical mode the path of a URL does not depend on the URLs
    assigned before it: after any two histories the mapper gives the
    same answer. (Flattened mode resolves conflicts in call order.) *)
Theorem GetLocalPath_hierarchical_history (outputDir : string)
    (urls1 urls2 : list string) (urlStr : string) :
  (GetLocalPath (assignAll (New outputDir false) urls1).1 urlStr).2
  = (GetLocalPath (assignAll (New outputDir false) urls2).1 urlStr).2.
Proof.
  pose proof (New_hierarchicalCache outputDir) as Hnew.
  destruct (hierarchicalCache_GetLocalPath outputDir _ urlStr
              (assignAll_hierarchicalCache outputDir _ urls1 Hnew)) as [-> _].
  by destruct (hierarchicalCache_GetLocalPath outputDir _ urlStr
                 (assignAll_hierarchicalCache outputDir _ urls2 Hnew))
    as [-> _].
Qed.

(** X6. In hierarchical mode, a URL whose path has no [..] element is
    mapped below the output directory, whatever was assigned before:
    its path is reached from the cleaned output directory by joining
    the names of the URL's path one by one. *)
Theorem GetLocalPath_hierarchical_inside (outputDir : string)
    (urls : list string) (urlStr : string) (parsedURL : GoUrl.URL) :
  outputDir <> "" ->
  GoUrl.Parse urlStr = Ok parsedURL ->
  hasDotDot (GoUrl.Path parsedURL) = false ->
  let names := pathElems (GoUrl.Path parsedURL) in
  Forall (fun e => isName e = true) names
  /\ (GetLocalPath (assignAll (New outputDir false) urls).1 urlStr).2
     = Ok (fold_left GoPath.Join names (GoPath.Clean outputDir)).
Proof.
  intros Hout Hparse Hdd names. split; [by apply pathElems_names|].
  pose proof (New_hierarchicalCache outputDir) as Hnew.
  destruct (hierarchicalCache_GetLocalPath outputDir _ urlStr
              (assignAll_hierarchicalCache outputDir _ urls Hnew)) as [-> _].
  unfold GetLocalPath. cbn [New urlToPath].
  rewrite lookup_empty, Hparse. cbn [snd]. f_equal.
  unfold freshPath. cbn [flatten New filesystem.outputDir].
  destruct (TrimPrefix_slash (GoUrl.Path parsedURL)) as [He Hd].
  rewrite Join_noDotDot by (done || by rewrite Hd). by rewrite He.
Qed.

Lemma GetLocalPath_hierarchical_inside_witness :
  (GetLocalPath
     (assignAll (New "out" false) ["https://example.com/a/seg.ts"]).1
     "https://example.com/a/./b//seg.ts").2
  = Ok "out/a/b/seg.ts".
Proof.
  edestruct (GetLocalPath_hierarchical_inside "out"
               ["https://example.com/a/seg.ts"]
               "https://example.com/a/./b//seg.ts") as [_ H].
  - discriminate.
  - vm_compute; reflexivity.
  - vm_compute; reflexivity.
  - rewrite H. vm_compute; reflexivity.
Defined.

End placement.

(** ** More on the parser *)

Section parser_facts.
Import GoStrings.

Lemma scanFrom_error (data cur : string) (n : N) :
  (n < GoBufio.MaxScanTokenSize)%N ->
  match (GoBufio.scanFrom data cur n).2, textLines data with
  | _, [] => False
  | None, first :: rest =>
      (n + N.of_nat (String.length first) < GoBufio.MaxScanTokenSize)%N
      /\ Forall (fun line => tooLong line = false) rest
  | Some e, first :: rest =>
      e = ErrTooLong
      /\ ((GoBufio.MaxScanTokenSize <= n + N.of_nat (String.length first))%N
          \/ Exists (fun line => tooLong line = true) rest)
  end.
Proof.
  unfold textLines. revert cur n.
  induction data as [|c data IH]; intros cur n Hn.
  - cbn. split; [lia|constructor].
  - cbn [GoBufio.scanFrom SplitByte].
    destruct (Ascii.eqb c "010").
    + specialize (IH "" 0%N eq_refl).
      destruct (GoBufio.scanFrom data "" 0) as [toks e]. cbn [snd] in *.
      destruct (SplitByte data "010") as [|first rest]; [by destruct e|].
      destruct e as [e|].
      * destruct IH as [-> Hbad]. split; [done|]. right.
        destruct Hbad as [Hbad|Hbad]; [|by apply Exists_cons_tl].
        apply Exists_cons_hd. unfold tooLong. apply N.leb_le. lia.
      * destruct IH as [Hfirst Hrest]. split; [cbn; lia|].
        constructor; [|done]. unfold tooLong. apply N.leb_gt. lia.
    + destruct (N.ltb_spec (n + 1) GoBufio.MaxScanTokenSize) as [Hlt|Hge].
      * specialize (IH (String c cur) (n + 1)%N Hlt).
        destruct (GoBufio.scanFrom data (String c cur) (n + 1)) as [toks e].
        cbn [snd] in *.
        destruct (SplitByte data "010") as [|first rest]; [by destruct e|].
        cbn [String.length]. destruct e as [e|].
        -- destruct IH as [-> Hbad]. split; [done|].
           destruct Hbad as [Hbad|Hbad]; [left; lia|by right].
        -- destruct IH as [Hfirst Hrest]. split; [lia|done].
      * cbn [snd]. pose proof (SplitByte_nonempty data "010") as Hne.
        destruct (SplitByte data "010") as [|first rest]; [done|].
        split; [done|]. left. cbn [String.length]. lia.
Qed.

(** X7. [ParseM3U8] fails on over-long lines only. It returns a document
    exactly when every line of the content, taken between newlines,
    is shorter than the scanner's 65536-byte buffer; otherwise its
    error wraps [bufio.ErrTooLong]. *)
Theorem ParseM3U8_fails_on_long_lines_only (content : string)
    (baseURL : GoUrl.URL) :
  match ParseM3U8 content baseURL with
  | Ok doc => Forall (fun line => tooLong line = false) (textLines content)
  | Err e => e = Wrapped "error scanning M3U8 file" ErrTooLong
             /\ Exists (fun line => tooLong line = true) (textLines content)
  end.
Proof.
  unfold ParseM3U8, GoBufio.scanLines.
  pose proof (scanFrom_error content "" 0%N eq_refl) as H.
  destruct (GoBufio.scanFrom content "" 0) as [toks e]. cbn [snd] in H.
  destruct (textLines content) as [|first rest]; [by destruct e|].
  destruct e as [e|].
  - destruct H as [-> Hbad]. split; [done|].
    destruct Hbad as [Hbad|Hbad]; [|by apply Exists_cons_tl].
    apply Exists_cons_hd. unfold tooLong. apply N.leb_le. lia.
  - destruct H as [Hfirst Hrest]. constructor; [|done].
    unfold tooLong. apply N.leb_gt. lia.
Qed.

(** *** The flag map *)

Lemma addTagURLs_flags (baseURL : GoUrl.URL) (us : list string) (m : M3U8File)
    (url : string) (flag : bool) :
  IsM3U8 (fold_left (addTagURL baseURL) us m) !! url = Some flag ->
  IsM3U8 m !! url = Some flag
  \/ (flag = false /\ url ∈ map (resolveURL baseURL) us).
Proof.
  revert m. induction us as [|u us IH]; intros m; cbn [fold_left]; [by left|].
  intros [H|[-> Hin]]%IH.
  - cbn [addTagURL IsM3U8] in H.
    destruct (negb (HasSuffix u ".m3u8")); [|by left].
    destruct (decide (resolveURL baseURL u = url)) as [<-|Hne].
    + rewrite lookup_insert_eq in H. injection H as <-. right.
      split; [done|]. cbn. apply elem_of_cons. by left.
    + rewrite lookup_insert_ne in H by done. by left.
  - right. split; [done|]. cbn. apply elem_of_cons. by right.
Qed.

Lemma parseLine_flags (baseURL : GoUrl.URL) (m : M3U8File)
    (text url : string) (flag : bool) :
  IsM3U8 (parseLine baseURL m text) !! url = Some flag ->
  IsM3U8 m !! url = Some flag
  \/ (url ∈ lineRefs baseURL text
      /\ (flag = true -> flagsAsPlaylist baseURL url text)).
Proof.
  unfold parseLine, lineRefs, flagsAsPlaylist, isBareReference. cbn zeta.
  destruct (String.eqb (TrimSpace text) "") eqn:Hempty; cbn [orb negb andb];
    [by left|].
  destruct (HasPrefix (TrimSpace text) "#") eqn:Hhash; cbn [negb andb].
  - destruct (containsURL (TrimSpace text)); cbn [negb]; [|by left].
    intros [H|[-> Hin]]%addTagURLs_flags; [by left|by right].
  - cbn [IsM3U8].
    destruct (decide (resolveURL baseURL (TrimSpace text) = url)) as [<-|Hne].
    + rewrite lookup_insert_eq. intros [= <-]. right.
      split; [by apply elem_of_cons; left|done].
    + rewrite lookup_insert_ne by done. by left.
Qed.

Lemma parseLines_flags (baseURL : GoUrl.URL) (lines : list string)
    (m : M3U8File) (url : string) (flag : bool) :
  IsM3U8 (fold_left (parseLine baseURL) lines m) !! url = Some flag ->
  IsM3U8 m !! url = Some flag
  \/ (url ∈ flat_map (lineRefs baseURL) lines
      /\ (flag = true -> Exists (flagsAsPlaylist baseURL url) lines)).
Proof.
  revert m. induction lines as [|text lines IH]; intros m; cbn [fold_left];
    [by left|].
  intros [H|[Hin Hflag]]%IH.
  - apply parseLine_flags in H as [H|[Hin Hflag]]; [by left|].
    right. cbn [flat_map]. split; [by apply elem_of_app; left|].
    intros Ht. apply Exists_cons_hd. auto.
  - right. cbn [flat_map]. split; [by apply elem_of_app; right|].
    intros Ht. apply Exists_cons_tl. auto.
Qed.

(** X8. Every URL with an entry in the flag map of a parsed playlist is in
    its reference list. *)
Theorem ParseM3U8_flagged_URLs_listed (content : string) (baseURL : GoUrl.URL)
    (doc : M3U8File) (url : string) (flag : bool) :
  ParseM3U8 content baseURL = Ok doc ->
  IsM3U8 doc !! url = Some flag ->
  url ∈ URLs doc.
Proof.
  unfold ParseM3U8. destruct (GoBufio.scanLines content) as [lines [e|]];
    [done|].
  intros [= <-] [H|[Hin _]]%parseLines_flags; [done|].
  rewrite parseLines_URLs. cbn [URLs app]. done.
Qed.

Lemma ParseM3U8_flagged_URLs_listed_witness :
  let content := "#EXTM3U" +:+ nl +:+ "seg.ts" +:+ nl in
  exists doc,
    ParseM3U8 content exampleBase = Ok doc
    /\ "https://example.com/path/seg.ts" ∈ URLs doc.
Proof.
  cbn zeta. eexists. split; [vm_compute; reflexivity|].
  eapply (ParseM3U8_flagged_URLs_listed
            ("#EXTM3U" +:+ nl +:+ "seg.ts" +:+ nl) exampleBase _ _ false).
  - vm_compute; reflexivity.
  - vm_compute; reflexivity.
Defined.

(** X9. Only a bare reference line makes a URL a nested playlist: a URL
    flagged [true] is the resolved URL of a scanned line that, trimmed,
    is non-empty, does not start with [#] and ends with [.m3u8] or
    contains [.m3u8?]. A URI attribute of a tag line never sets the
    flag, so playlists named only in tags are fetched as plain files. *)
Theorem ParseM3U8_playlist_flag_from_bare_line (content : string)
    (baseURL : GoUrl.URL) (doc : M3U8File) (url : string) :
  ParseM3U8 content baseURL = Ok doc ->
  IsM3U8 doc !! url = Some true ->
  Exists (flagsAsPlaylist baseURL url) (GoBufio.scanLines content).1.
Proof.
  unfold ParseM3U8. destruct (GoBufio.scanLines content) as [lines [e|]];
    [done|].
  intros [= <-] [H|[_ Hflag]]%parseLines_flags; [done|by apply Hflag].
Qed.

Lemma ParseM3U8_playlist_flag_from_bare_line_witness :
  let content := "#EXTM3U" +:+ nl +:+ "high.m3u8" +:+ nl in
  Exists (flagsAsPlaylist exampleBase "https://example.com/path/high.m3u8")
         (GoBufio.scanLines content).1.
Proof.
  cbn zeta.
  eapply (ParseM3U8_playlist_flag_from_bare_line
            ("#EXTM3U" +:+ nl +:+ "high.m3u8" +:+ nl)).
  - vm_compute; reflexivity.
  - vm_compute; reflexivity.
Defined.

(** *** Tag lines *)

Lemma Index_byte_first (c : ascii) (v rest : string) :
  hasByte c v = false ->
  Index (v +:+ String c rest) (String c "") = Some (String.length v).
Proof.
  intros Hv. induction v as [|x v IH].
  - rewrite append_nil_l. cbn. by rewrite Ascii.eqb_refl.
  - cbn in Hv. apply orb_false_iff in Hv as [Hx Hv].
    rewrite append_cons. cbn [Index HasPrefix String.length].
    rewrite Ascii.eqb_sym, Hx. cbn [andb]. by rewrite IH.
Qed.

Lemma Index_byte_none (c : ascii) (t : string) :
  hasByte c t = false -> Index t (String c "") = None.
Proof.
  induction t as [|x t IH]; [done|]. cbn [hasByte].
  intros [Hx Ht]%orb_false_iff. cbn [Index HasPrefix].
  rewrite Ascii.eqb_sym, Hx. cbn [andb]. by rewrite IH.
Qed.

Lemma HasPrefix_uriPrefix_straddle (a s : string) :
  a <> "" -> HasPrefix a uriPrefix = false ->
  HasPrefix (a +:+ uriPrefix +:+ s) uriPrefix = false.
Proof.
  intros Ha. remember uriPrefix as P eqn:HP. vm_compute in HP. subst P.
  destruct a as [|c1 [|c2 [|c3 [|c4 [|c5 a]]]]]; [done|..];
    rewrite !append_cons, ?append_nil_l; cbn [HasPrefix];
    intros Hp; rewrite ?Hp; try done;
    repeat match goal with
           | |- context [Ascii.eqb ?x ?y] =>
               lazymatch y with
               | Ascii _ _ _ _ _ _ _ _ => fail
               | _ => destruct (Ascii.eqb x y)
               end
           end; reflexivity.
Qed.

Lemma Index_uriPrefix_first (a s : string) :
  Contains a uriPrefix = false ->
  Index (a +:+ uriPrefix +:+ s) uriPrefix = Some (String.length a).
Proof.
  unfold Contains. induction a as [|c a IH].
  - intros _. rewrite append_nil_l.
    assert (HasPrefix (uriPrefix +:+ s) uriPrefix = true) as Hp
      by (apply HasPrefix_spec; eauto).
    destruct (uriPrefix +:+ s); cbn [Index]; by rewrite Hp.
  - cbn [Index]. destruct (HasPrefix (String c a) uriPrefix) eqn:Hp; [done|].
    destruct (Index a uriPrefix) eqn:Hi; [done|]. intros _.
    rewrite append_cons. cbn [Index]. rewrite <- append_cons.
    rewrite HasPrefix_uriPrefix_straddle by done.
    by rewrite IH.
Qed.

Lemma extractLoop_app (fuel : nat) (line : string) (urls : list string) :
  extractLoop fuel line urls = (urls ++ extractLoop fuel line [])%list.
Proof.
  revert line urls. induction fuel as [|fuel IH]; intros line urls;
    cbn [extractLoop]; [by rewrite app_nil_r|].
  destruct (Index line uriPrefix) as [idx|]; [|by rewrite app_nil_r].
  destruct (Index _ dquote) as [endIdx|]; [|by rewrite app_nil_r].
  rewrite IH, (IH _ ([] ++ _)%list). by rewrite app_assoc.
Qed.

(** X10. [extractURLsFromTag] by equations. A line that nowhere has
    [URI=] followed by a quote has no URL. Otherwise the text before
    the first such prefix is skipped; a value up to the next quote is
    extracted and the extraction goes on behind that quote; and a
    value that is not closed by a quote ends the extraction. *)
Theorem extractURLsFromTag_equations (before value rest : string) :
  Contains before uriPrefix = false ->
  hasByte "034" value = false ->
  extractURLsFromTag before = []
  /\ extractURLsFromTag (before +:+ uriPrefix +:+ value +:+ dquote +:+ rest)
     = value :: extractURLsFromTag rest
  /\ extractURLsFromTag (before +:+ uriPrefix +:+ value) = [].
Proof.
  intros Hbefore Hvalue. unfold extractURLsFromTag.
  assert (forall s, drop (String.length before + String.length uriPrefix)
                         (before +:+ uriPrefix +:+ s) = s) as Hdrop.
  { intros s. rewrite <- length_append, <- append_assoc. apply drop_append. }
  split; [|split].
  - cbn [extractLoop]. unfold Contains in Hbefore.
    by destruct (Index before uriPrefix).
  - set (R := extractLoop (S (String.length rest)) rest []).
    assert (Index (value +:+ dquote +:+ rest) dquote
            = Some (String.length value)) as Hq
      by (by apply Index_byte_first).
    assert (drop (String.length value + 1) (value +:+ dquote +:+ rest) = rest)
      as Hrest.
    { replace (String.length value + 1)
        with (String.length (value +:+ dquote))
        by (rewrite length_append; cbn; lia).
      rewrite <- append_assoc. apply drop_append. }
    cbn [extractLoop]. rewrite Index_uriPrefix_first, Hdrop by done.
    rewrite Hq, Hrest, take_append, extractLoop_app. cbn [app]. f_equal.
    apply extractLoop_fuel; rewrite ?length_append; cbn; lia.
  - cbn [extractLoop]. rewrite Index_uriPrefix_first, Hdrop by done.
    unfold dquote. by rewrite Index_byte_none.
Qed.

Lemma extractURLsFromTag_equations_witness :
  extractURLsFromTag
    ("#EXT-X-KEY:METHOD=AES-128," +:+ uriPrefix +:+ "key.bin" +:+ dquote
     +:+ ",IV=0x01")
  = "key.bin" :: extractURLsFromTag ",IV=0x01".
Proof.
  apply (extractURLsFromTag_equations
           "#EXT-X-KEY:METHOD=AES-128," "key.bin" ",IV=0x01");
    vm_compute; reflexivity.
Defined.

End parser_facts.

(** ** More on the rewriter *)

Section rewriter_facts.
Import GoStrings.

(** X11. In [downloadM3U8] the rewriter runs on content that [ParseM3U8] has
    accepted, under a source URL that [url.Parse] has accepted. Then
    it neither panics nor returns an error: the branch that logs a
    warning and keeps the original content is never taken. *)
Theorem RewriteM3U8URLs_succeeds_after_ParseM3U8 (content m3u8URL : string)
    (parsedURL : GoUrl.URL) (m3u8File : M3U8File) (fs : FileSystem) :
  GoUrl.Parse m3u8URL = Ok parsedURL ->
  ParseM3U8 content parsedURL = Ok m3u8File ->
  exists rewrittenContent fs',
    RewriteM3U8URLs content m3u8URL fs = (Ret (Ok rewrittenContent), fs').
Proof.
  intros Hurl. unfold ParseM3U8, RewriteM3U8URLs.
  destruct (GoBufio.scanLines content) as [lines [e|]]; [done|]. intros _.
  assert (isOk (GoUrl.Parse m3u8URL) = true) as Hok by (by rewrite Hurl).
  destruct (rewriteLines_returns m3u8URL lines "" Hok fs) as (out & fs' & Hout).
  unfold bind. rewrite Hout. by exists out, fs'.
Qed.

Lemma RewriteM3U8URLs_succeeds_after_ParseM3U8_witness :
  exists rewrittenContent fs',
    RewriteM3U8URLs ("#EXTM3U" +:+ nl +:+ "seg.ts" +:+ nl) exampleSource
                    (New "out" false)
    = (Ret (Ok rewrittenContent), fs').
Proof.
  eapply RewriteM3U8URLs_succeeds_after_ParseM3U8.
  - vm_compute; reflexivity.
  - vm_compute; reflexivity.
Defined.

(** *** Playlists without references *)

Lemma dropCR_plain (line : string) :
  hasByte "013" line = false -> GoBufio.dropCR line = line.
Proof.
  intros Hl. unfold GoBufio.dropCR.
  destruct (HasSuffix line cr) eqn:Hs; [|done].
  apply HasSuffix_spec in Hs as [t ->].
  rewrite hasByte_append in Hl. cbn in Hl. by rewrite orb_true_r in Hl.
Qed.

Lemma dropCR_CR (line : string) : GoBufio.dropCR (line +:+ cr) = line.
Proof.
  unfold GoBufio.dropCR.
  assert (HasSuffix (line +:+ cr) cr = true) as ->
    by (apply HasSuffix_spec; eauto).
  rewrite length_append. cbn [String.length cr].
  replace (String.length line + 1 - 1) with (String.length line) by lia.
  apply take_append.
Qed.

Lemma scanFrom_line (line rest cur : string) (n : N) :
  hasByte "010" line = false ->
  (n + N.of_nat (String.length line) < GoBufio.MaxScanTokenSize)%N ->
  GoBufio.scanFrom (line +:+ String "010" rest) cur n
  = (GoBufio.dropCR (rev cur +:+ line) :: (GoBufio.scanFrom rest "" 0).1,
     (GoBufio.scanFrom rest "" 0).2).
Proof.
  revert cur n. induction line as [|c line IH]; intros cur n Hnl Hlen.
  - rewrite append_nil_l, append_nil_r. cbn.
    by destruct (GoBufio.scanFrom rest "" 0).
  - cbn in Hnl. apply orb_false_iff in Hnl as [Hc Hnl].
    rewrite append_cons. cbn [GoBufio.scanFrom]. rewrite Hc.
    cbn [String.length] in Hlen.
    destruct (N.ltb_spec (n + 1) GoBufio.MaxScanTokenSize); [|lia].
    rewrite IH by (done || lia). cbn [rev].
    by rewrite !append_assoc.
Qed.

Lemma scanFrom_last (line cur : string) (n : N) :
  hasByte "010" line = false ->
  (n + N.of_nat (String.length line) < GoBufio.MaxScanTokenSize)%N ->
  GoBufio.scanFrom line cur n
  = (if (n + N.of_nat (String.length line) =? 0)%N then []
     else [GoBufio.dropCR (rev cur +:+ line)], None).
Proof.
  revert cur n. induction line as [|c line IH]; intros cur n Hnl Hlen.
  - cbn. by rewrite N.add_0_r, append_nil_r.
  - cbn in Hnl. apply orb_false_iff in Hnl as [Hc Hnl].
    cbn [GoBufio.scanFrom]. rewrite Hc. cbn [String.length] in Hlen |- *.
    destruct (N.ltb_spec (n + 1) GoBufio.MaxScanTokenSize); [|lia].
    rewrite IH by (done || lia). cbn [rev]. rewrite !append_assoc.
    replace (n + 1 + N.of_nat (String.length line))%N
      with (n + N.of_nat (S (String.length line)))%N by lia.
    done.
Qed.

Lemma plainLine_spec (line : string) :
  plainLine line = true ->
  needsSource line = false /\ hasByte "010" line = false
  /\ hasByte "013" line = false
  /\ (N.of_nat (String.length line) + 1 < GoBufio.MaxScanTokenSize)%N.
Proof.
  unfold plainLine. rewrite !andb_true_iff, !negb_true_iff, N.ltb_lt. tauto.
Qed.

Lemma scanLines_terminated (lines : list (string * lineEnding))
    (lastLine : string) :
  Forall (fun l => plainLine l.1 = true) lines -> plainLine lastLine = true ->
  GoBufio.scanLines (terminated lines +:+ lastLine)
  = ((map fst lines ++ if String.eqb lastLine "" then [] else [lastLine])%list, None).
Proof.
  unfold GoBufio.scanLines. intros Hlines Hlast.
  apply plainLine_spec in Hlast as (_ & Hnl & Hcr & Hlen).
  induction Hlines as [|[line e] lines Hline _ IH].
  - rewrite append_nil_l, scanFrom_last by (done || lia).
    rewrite append_nil_l, dropCR_plain by done. cbn [map app].
    destruct lastLine as [|c t]; [done|]. cbn [String.length String.eqb].
    by destruct (N.eqb_spec (0 + N.of_nat (S (String.length t))) 0); [lia|].
  - apply plainLine_spec in Hline as (_ & Hnl' & Hcr' & Hlen').
    cbn [fst] in *. cbn [terminated map app].
    destruct e; cbn [ending].
    + unfold nl. rewrite !append_assoc.
      change (String "010" "" +:+ ?t) with (String "010" t).
      rewrite scanFrom_line by (done || lia). rewrite IH.
      by rewrite append_nil_l, dropCR_plain.
    + unfold nl. rewrite !append_assoc. rewrite <- (append_assoc line cr).
      change (String "010" "" +:+ ?t) with (String "010" t).
      rewrite scanFrom_line.
      * rewrite IH. by rewrite append_nil_l, dropCR_CR.
      * rewrite hasByte_append, Hnl'. done.
      * rewrite length_append. cbn [String.length cr]. lia.
Qed.

(** X12. A playlist is copied line by line when each of its lines is a
    [plainLine]: at most 65534 bytes long, without a carriage return
    or a newline inside, and neither a bare reference nor a tag with a
    quoted URI value. Whatever the source URL and the mapper, the
    rewriter then returns the lines in order, each followed by one
    newline. So a CR LF ending becomes LF and a last line without a
    newline gets one; the mapper is not changed and the source URL is
    not parsed. *)
Theorem RewriteM3U8URLs_copies_plain_playlist
    (lines : list (string * lineEnding)) (lastLine sourceURL : string)
    (fs : FileSystem) :
  Forall (fun l => plainLine l.1 = true) lines -> plainLine lastLine = true ->
  RewriteM3U8URLs (terminated lines +:+ lastLine) sourceURL fs
  = (Ret (Ok (unlines (map fst lines
                       ++ if String.eqb lastLine "" then [] else [lastLine]))), fs).
Proof.
  intros Hlines Hlast. unfold RewriteM3U8URLs.
  rewrite scanLines_terminated by done. unfold bind.
  rewrite rewriteLines_quiet; [done|].
  apply Forall_app. split.
  - apply Forall_map. eapply Forall_impl; [exact Hlines|].
    intros l Hl. by apply plainLine_spec in Hl as [? _].
  - destruct (String.eqb lastLine ""); [constructor|].
    constructor; [|constructor]. by apply plainLine_spec in Hlast as [? _].
Qed.

Lemma RewriteM3U8URLs_copies_plain_playlist_witness :
  RewriteM3U8URLs
    (terminated [("#EXTM3U", CRLF); ("#EXT-X-VERSION:3", LF)]
     +:+ "#EXT-X-ENDLIST")
    "::" (New "out" true)
  = (Ret (Ok (unlines ["#EXTM3U"; "#EXT-X-VERSION:3"; "#EXT-X-ENDLIST"])),
     New "out" true).
Proof.
  apply (RewriteM3U8URLs_copies_plain_playlist
           [("#EXTM3U", CRLF); ("#EXT-X-VERSION:3", LF)] "#EXT-X-ENDLIST").
  - repeat constructor.
  - vm_compute; reflexivity.
Defined.

End rewriter_facts.

(** ** What the rewriter writes *)

Section rewriter_targets.
Import GoStrings.

Lemma mustParseURL_Ok (urlStr : string) (u : GoUrl.URL) :
  GoUrl.Parse urlStr = Ok u -> mustParseURL urlStr = Ret u.
Proof. intros H. unfold mustParseURL. by rewrite H. Qed.

(** X13. A bare reference line is replaced by the relative path of its
    file, and that path leads from the directory of the playlist file
    to the file of the URL the line resolves to; the line is kept when
    no relative path is found. (The directory must not start with more
    [..] elements than the target.) *)
Theorem rewriteLine_reference_leads_to_file (sourceURL line out : string)
    (base : GoUrl.URL) (fs fs' : FileSystem) :
  GoUrl.Parse sourceURL = Ok base ->
  isBareReference line = true ->
  rewriteLine sourceURL line fs = (Ret out, fs') ->
  match (GetRelativePath fs sourceURL (resolveURL base line)).2 with
  | Err _ => out = line
  | Ok relPath =>
      out = relPath
      /\ exists fromPath toPath,
           urlToPath fs' !! sourceURL = Some fromPath
           /\ urlToPath fs' !! resolveURL base line = Some toPath
           /\ (dotDots (GoPath.Dir fromPath) <= dotDots toPath ->
               GoPath.Join (GoPath.Dir fromPath) out = GoPath.Clean toPath)
  end.
Proof.
  intros Hparse Hbare. unfold isBareReference in Hbare.
  apply andb_true_iff in Hbare as [Hne Hhash].
  unfold rewriteLine. apply negb_true_iff in Hhash as Hhash'.
  rewrite Hhash', Hne. cbn [negb andb].
  unfold rewriteSegmentLine, bind, liftOutcome, call, ret.
  rewrite (mustParseURL_Ok _ _ Hparse), ParseM3U8_empty. cbn [BaseURL].
  unfold GetRelativePath.
  destruct (GetLocalPath fs sourceURL) as [fs1 [p1|e1]] eqn:H1;
    [|by intros [= <- <-]].
  pose proof (GetLocalPath_grows fs1 (resolveURL base line)) as Hgrows.
  destruct (GetLocalPath fs1 (resolveURL base line)) as [fs2 [p2|e2]] eqn:H2;
    [|by intros [= <- <-]].
  destruct (GoPath.Rel (GoPath.Dir p1) p2) as [rel|e] eqn:Hrel;
    intros [= <- <-]; cbn [snd]; [|done].
  split; [done|]. exists p1, p2.
  apply GetLocalPath_Ok in H1, H2. cbn [fst] in Hgrows.
  split; [by apply (grows_lookup _ _ _ _ Hgrows)|]. split; [done|].
  intros Hdd. by apply Rel_Join.
Qed.

Lemma rewriteLine_reference_leads_to_file_witness :
  let fs := New "out" false in
  (rewriteLine exampleSource "../audio/seg.ts" fs).1 = Ret "../audio/seg.ts"
  /\ GoPath.Join (GoPath.Dir "out/path/playlist.m3u8") "../audio/seg.ts"
     = GoPath.Clean "out/audio/seg.ts".
Proof.
  cbn zeta. split; [vm_compute; reflexivity|].
  assert (rewriteLine exampleSource "../audio/seg.ts" (New "out" false)
          = (Ret "../audio/seg.ts",
             (rewriteLine exampleSource "../audio/seg.ts"
                          (New "out" false)).2)) as Hrun
    by (vm_compute; reflexivity).
  pose proof (rewriteLine_reference_leads_to_file exampleSource
                "../audio/seg.ts" "../audio/seg.ts" exampleBase
                (New "out" false) _ eq_refl eq_refl Hrun) as H.
  set (r := (GetRelativePath _ _ _).2) in H. vm_compute in r. subst r.
  destruct H as [_ (fromPath & toPath & Hfrom & Hto & Hjoin)].
  vm_compute in Hfrom, Hto.
  injection Hfrom as <-. injection Hto as <-.
  apply Hjoin. vm_compute; lia.
Defined.

(** X14. In a tag line the first quoted URI value, and only that one, is
    replaced by the relative path of its file: the text before it and
    everything from its closing quote on are kept as they are, further
    URI attributes included. *)
Theorem rewriteTagLine_first_URI_only (before value rest sourceURL : string)
    (base : GoUrl.URL) (fs fs' : FileSystem) (relPath : string) :
  Contains before uriPrefix = false ->
  hasByte "034" value = false ->
  GoUrl.Parse sourceURL = Ok base ->
  GetRelativePath fs sourceURL (resolveURL base value) = (fs', Ok relPath) ->
  rewriteTagLine (before +:+ uriPrefix +:+ value +:+ dquote +:+ rest)
                 sourceURL fs
  = (Ret (Ok (before +:+ uriPrefix +:+ relPath +:+ dquote +:+ rest)), fs').
Proof.
  intros Hbefore Hvalue Hparse Hrel.
  unfold rewriteTagLine, bind, ret. cbn [rewriteTagLoop].
  rewrite Index_uriPrefix_first by done.
  rewrite <- (append_assoc before uriPrefix), <- length_append.
  rewrite drop_append, take_append.
  change (dquote +:+ rest) with (String "034" rest).
  change dquote with (String "034" "").
  rewrite Index_byte_first by done.
  rewrite take_append.
  unfold bind, liftOutcome, call, ret.
  rewrite (mustParseURL_Ok _ _ Hparse), ParseM3U8_empty. cbn [BaseURL].
  rewrite Hrel.
  rewrite <- length_append, <- (append_assoc (before +:+ uriPrefix) value).
  rewrite drop_append. by rewrite !append_assoc.
Qed.

Lemma rewriteTagLine_first_URI_only_witness :
  (rewriteTagLine
     ("#EXT-X-MEDIA:TYPE=AUDIO," +:+ uriPrefix
      +:+ "https://example.com/path/audio/en.m3u8" +:+ dquote
      +:+ "," +:+ uriPrefix +:+ "https://example.com/path/b.key" +:+ dquote)
     exampleSource (New "out" false)).1
  = Ret (Ok ("#EXT-X-MEDIA:TYPE=AUDIO," +:+ uriPrefix +:+ "audio/en.m3u8"
             +:+ dquote
             +:+ "," +:+ uriPrefix +:+ "https://example.com/path/b.key"
             +:+ dquote)).
Proof.
  cbn zeta.
  rewrite (rewriteTagLine_first_URI_only
             "#EXT-X-MEDIA:TYPE=AUDIO,"
             "https://example.com/path/audio/en.m3u8"
             ("," +:+ uriPrefix +:+ "https://example.com/path/b.key"
              +:+ dquote)
             exampleSource exampleBase (New "out" false)
             (GetRelativePath (New "out" false) exampleSource
                "https://example.com/path/audio/en.m3u8").1
             "audio/en.m3u8");
    [reflexivity | vm_compute; reflexivity ..].
Defined.

End rewriter_targets.

(** ** Trimming *)

Section trim_facts.
Import GoStrings.

Lemma trimLeftRunes_fix (fuel : nat) (runes : list string) (s : string) :
  leadingSpace runes s = None -> trimLeftRunes fuel runes s = s.
Proof. intros H. destruct fuel; cbn; [done|]. by rewrite H. Qed.

Lemma trimLeftRunes_suffix (fuel : nat) (runes : list string) (s : string) :
  exists p, s = p +:+ trimLeftRunes fuel runes s.
Proof.
  revert s. induction fuel as [|fuel IH]; intros s; cbn; [by exists ""|].
  destruct (leadingSpace runes s) as [w|]; [|by exists ""].
  destruct (IH (drop w s)) as [p Hp]. exists (take w s +:+ p).
  by rewrite append_assoc, <- Hp, take_drop.
Qed.

Lemma leadingSpace_prefix (runes : list string) (a b : string) :
  leadingSpace runes (a +:+ b) = None -> leadingSpace runes a = None.
Proof.
  unfold leadingSpace. intros H.
  destruct (List.find (HasPrefix a) runes) as [r|] eqn:Hfind; [|done].
  apply find_some in Hfind as [Hin Hpre].
  apply HasPrefix_spec in Hpre as [t ->].
  destruct (List.find (HasPrefix ((r +:+ t) +:+ b)) runes) eqn:Hf; [done|].
  eapply find_none in Hf; [|exact Hin].
  assert (HasPrefix ((r +:+ t) +:+ b) r = true); [|congruence].
  apply HasPrefix_spec. exists (t +:+ b). by rewrite append_assoc.
Qed.

Lemma revRunes_nonempty : Forall (fun r => r <> "") (map rev spaceRunes).
Proof. vm_compute. repeat constructor; discriminate. Qed.

Lemma TrimRightSpace_prefix (s : string) :
  exists q, s = TrimRightSpace s +:+ q.
Proof.
  unfold TrimRightSpace.
  destruct (trimLeftRunes_suffix (String.length s) (map rev spaceRunes) (rev s))
    as [p Hp].
  exists (rev p). rewrite <- rev_append, <- Hp. by rewrite rev_rev.
Qed.

Lemma TrimSpace_trimmed (s : string) : trimmed (TrimSpace s).
Proof.
  unfold TrimSpace. split.
  - destruct (TrimRightSpace_prefix (TrimLeftSpace s)) as [q Hq].
    pose proof (TrimLeftSpace_done s) as Hdone. rewrite Hq in Hdone.
    by apply leadingSpace_prefix in Hdone.
  - unfold TrimRightSpace. rewrite rev_rev.
    apply trimLeftRunes_done; [apply revRunes_nonempty|].
    assert (forall x, String.length (rev x) = String.length x) as Hlen.
    { induction x as [|c x IH]; [done|]. cbn [rev].
      rewrite length_append, IH. cbn. lia. }
    by rewrite Hlen.
Qed.

Lemma TrimSpace_fix (t : string) : trimmed t -> TrimSpace t = t.
Proof.
  intros [Hl Hr]. unfold TrimSpace, TrimLeftSpace, TrimRightSpace.
  rewrite (trimLeftRunes_fix _ _ t Hl), (trimLeftRunes_fix _ _ (rev t) Hr).
  apply rev_rev.
Qed.

Lemma HasPrefix_append_cases (a b p : string) :
  HasPrefix (a +:+ b) p = true ->
  HasPrefix a p = true \/ exists p2, p = a +:+ p2 /\ HasPrefix b p2 = true.
Proof.
  revert p. induction a as [|x a IH]; intros p.
  - rewrite append_nil_l. intros H. right. by exists p.
  - rewrite append_cons. destruct p as [|y p]; [by left|].
    cbn [HasPrefix]. intros [Hxy Hp]%andb_true_iff.
    apply IH in Hp as [Hp|(p2 & -> & Hp)].
    + left. by rewrite Hxy, Hp.
    + right. exists p2. apply Ascii.eqb_eq in Hxy as ->. by rewrite append_cons.
Qed.

Lemma find_none_intro {A} (f : A -> bool) (l : list A) :
  (forall x, In x l -> f x = false) -> List.find f l = None.
Proof.
  induction l as [|a l IH]; intros H; [done|]. cbn.
  rewrite (H a) by (by left). apply IH. intros x Hx. apply H. by right.
Qed.

Lemma dotted_trimmed (t : string) :
  trimmed t -> t <> "" -> trimmed ("." +:+ t).
Proof.
  intros [Hl Hr] Hne. split.
  - unfold leadingSpace.
    assert (List.find (HasPrefix ("." +:+ t)) spaceRunes = None) as ->; [|done].
    apply find_none_intro. change ("." +:+ t) with (String "." t).
    assert (Forall (fun r => forall u, HasPrefix (String "." u) r = false)
                   spaceRunes) as Hall.
    { vm_compute. repeat constructor. }
    rewrite Forall_forall in Hall. intros r Hr'. apply Hall.
    by apply list_elem_of_In.
  - change ("." +:+ t) with (String "." t). cbn [rev].
    unfold leadingSpace in *.
    destruct (List.find (HasPrefix (rev t)) (map rev spaceRunes)) eqn:Hf;
      [done|].
    assert (List.find (HasPrefix (rev t +:+ ".")) (map rev spaceRunes) = None)
      as ->; [|done].
    apply find_none_intro. intros r Hin.
    destruct (HasPrefix (rev t +:+ ".") r) eqn:Hp; [|done]. exfalso.
    pose proof (find_none _ _ Hf r Hin) as Hnot.
    apply HasPrefix_append_cases in Hp as [Hp|(p2 & -> & Hp)]; [congruence|].
    assert (Forall (fun r => hasByte "." r = false) (map rev spaceRunes))
      as Hall by (vm_compute; repeat constructor).
    rewrite Forall_forall in Hall. apply list_elem_of_In, Hall in Hin.
    rewrite hasByte_append in Hin. apply orb_false_iff in Hin as [_ Hp2].
    destruct p2 as [|c p2].
    + rewrite append_nil_r in Hnot.
      assert (HasPrefix (rev t) (rev t) = true); [|congruence].
      apply HasPrefix_spec. exists "". by rewrite append_nil_r.
    + cbn [HasPrefix] in Hp. apply andb_true_iff in Hp as [Hc _].
      apply Ascii.eqb_eq in Hc as ->. cbn in Hp2. done.
Qed.

End trim_facts.

(** ** The extension filter and its command-line lists *)

Section filter_facts.
Import GoStrings cmd.

Lemma normalizeExtension_spec (ext : string) :
  let t := TrimSpace ext in
  (normalizeExtension ext = t /\ (t = "" \/ HasPrefix t "." = true))
  \/ (normalizeExtension ext = "." +:+ t /\ t <> "" /\ HasPrefix t "." = false).
Proof.
  cbn zeta. unfold normalizeExtension.
  destruct (String.eqb_spec (TrimSpace ext) "") as [He|He]; cbn [negb andb].
  - left. split; [done|by left].
  - destruct (HasPrefix (TrimSpace ext) ".") eqn:Hd; cbn [negb].
    + left. split; [done|by right].
    + by right.
Qed.

Lemma normalizeExtension_trimmed (ext : string) :
  trimmed (normalizeExtension ext).
Proof.
  pose proof (TrimSpace_trimmed ext) as Ht.
  destruct (normalizeExtension_spec ext) as [[-> _]|(-> & Hne & _)]; [done|].
  by apply dotted_trimmed.
Qed.

Lemma normalizeExtension_dotted (ext : string) :
  normalizeExtension ext = ""
  \/ HasPrefix (normalizeExtension ext) "." = true.
Proof.
  destruct (normalizeExtension_spec ext) as [[-> H]|(-> & _ & _)];
    [done|by right].
Qed.

Lemma normalizeExtension_idem (ext : string) :
  normalizeExtension (normalizeExtension ext) = normalizeExtension ext.
Proof.
  pose proof (normalizeExtension_trimmed ext) as Ht.
  pose proof (normalizeExtension_dotted ext) as Hd.
  unfold normalizeExtension at 1. rewrite (TrimSpace_fix _ Ht).
  destruct Hd as [Hd | Hd]; rewrite Hd; [done|]. by rewrite andb_false_r.
Qed.

(** X15. [normalizeExtensions] puts the lists in a normal form: every entry
    is trimmed and is empty or starts with a dot, and normalizing
    again changes nothing. *)
Theorem normalizeExtensions_normal_form (exts : list string) :
  normalizeExtensions (normalizeExtensions exts) = normalizeExtensions exts
  /\ List.length (normalizeExtensions exts) = List.length exts
  /\ Forall (fun ext => TrimSpace ext = ext
                        /\ (ext = "" \/ HasPrefix ext "." = true))
            (normalizeExtensions exts).
Proof.
  unfold normalizeExtensions. split; [|split].
  - rewrite map_map. apply map_ext. intros. apply normalizeExtension_idem.
  - apply length_map.
  - apply Forall_map, Forall_forall. intros ext _. split.
    + apply TrimSpace_fix, normalizeExtension_trimmed.
    + apply normalizeExtension_dotted.
Qed.

(** *** The extension of a URL *)

Lemma lowerByte_not_upper (c : ascii) : isUpper (lowerByte c) = false.
Proof. destruct c as [[] [] [] [] [] [] [] []]; reflexivity. Qed.

Lemma lowerByte_dot (c : ascii) :
  Ascii.eqb (lowerByte c) "." = Ascii.eqb c ".".
Proof. destruct c as [[] [] [] [] [] [] [] []]; reflexivity. Qed.

Lemma hasByte_ToLower_dot (s : string) :
  hasByte "." (ToLower s) = hasByte "." s.
Proof.
  induction s as [|c s IH]; [done|]. cbn. by rewrite lowerByte_dot, IH.
Qed.

Lemma hasUpper_ToLower (s : string) : hasUpper (ToLower s) = false.
Proof.
  unfold hasUpper. induction s as [|c s IH]; [done|]. cbn.
  by rewrite lowerByte_not_upper, IH.
Qed.

Lemma hasUpper_take (n : nat) (s : string) :
  hasUpper s = false -> hasUpper (take n s) = false.
Proof.
  unfold hasUpper. revert s. induction n as [|n IH]; intros [|c s]; cbn;
    try done.
  intros [Hc Hs]%orb_false_iff. by rewrite Hc, IH.
Qed.

Lemma urlExt_lower (urlStr : string) : hasUpper (urlExt urlStr) = false.
Proof.
  unfold urlExt. destruct (Index _ "?") as [idx|].
  - apply hasUpper_take, hasUpper_ToLower.
  - apply hasUpper_ToLower.
Qed.

Lemma Ext_shape (p : string) :
  GoPath.Ext p = ""
  \/ exists e, GoPath.Ext p = String "." e /\ hasByte "." e = false.
Proof.
  destruct (split_last p) as (pfx & x & -> & Hpfx & Hx).
  rewrite Ext_last by done.
  destruct (Ext_spec x Hx) as [[-> _]|(stem & e & _ & -> & He & _)];
    [by left|right; eauto].
Qed.

(** The extension the filter compares is empty, or a dot followed by
    text without a dot. *)
Lemma urlExt_shape (urlStr : string) :
  urlExt urlStr = ""
  \/ exists e, urlExt urlStr = String "." e /\ hasByte "." e = false.
Proof.
  unfold urlExt.
  destruct (Ext_shape urlStr) as [->|(e & -> & He)]; [by left|].
  cbn [ToLower]. change (lowerByte ".") with "."%char.
  rewrite <- hasByte_ToLower_dot in He. set (e' := ToLower e) in *.
  cbn [Index HasPrefix]. cbn [Ascii.eqb Bool.eqb andb].
  destruct (Index e' "?") as [i|]; cbn [option_map].
  - right. exists (take i e'). split; [done|]. by apply hasByte_take.
  - right. by exists e'.
Qed.

Lemma extMatches_upper (urlStr e : string) :
  hasUpper e = true -> extMatches (urlExt urlStr) e = false.
Proof.
  intros He. unfold extMatches. pose proof (urlExt_lower urlStr) as Hl.
  apply orb_false_iff. split; apply String.eqb_neq; intros Heq;
    rewrite Heq in Hl.
  - congruence.
  - unfold hasUpper in *. change ("." +:+ e) with (String "." e) in Hl.
    cbn [list_ascii_of_string existsb] in Hl.
    apply orb_false_iff in Hl as [_ Hl]. congruence.
Qed.

(** X16. The URL's extension is lower-cased before it is compared, the
    filter entries are not: an include or exclude entry with an
    upper-case ASCII letter matches no URL, and an include list made of
    one such entry lets no URL through. *)
Theorem uppercase_filter_entry_matches_nothing (d : Downloader)
    (urlStr entry : string) :
  hasUpper entry = true ->
  extMatches (urlExt urlStr) entry = false
  /\ shouldDownload (withFilters d [entry] (exclude d)) urlStr = false.
Proof.
  intros He. pose proof (extMatches_upper urlStr entry He) as Hno.
  split; [done|]. rewrite shouldDownload_spec. cbn. rewrite Hno.
  apply andb_false_r.
Qed.

Lemma uppercase_filter_entry_matches_nothing_witness :
  let d := mkDownloader (New "out" false) ∅ 5 true [] [] in
  hasUpper ".TS" = true
  /\ shouldDownload (withFilters d [".TS"] (exclude d))
                    "https://example.com/path/seg.ts" = false.
Proof.
  cbn zeta. split; [reflexivity|].
  apply (uppercase_filter_entry_matches_nothing
           (mkDownloader (New "out" false) ∅ 5 true [] [])
           "https://example.com/path/seg.ts" ".TS").
  reflexivity.
Defined.

Lemma extMatches_normalizeExtension (urlStr ext : string) :
  extMatches (urlExt urlStr) (normalizeExtension ext)
  = extMatches (urlExt urlStr) (TrimSpace ext).
Proof.
  destruct (normalizeExtension_spec ext) as [[-> _]|(-> & Hne & Hd)]; [done|].
  set (t := TrimSpace ext) in *. unfold extMatches.
  destruct (urlExt_shape urlStr) as [->|(e & -> & He)].
  - change ("." +:+ ?x) with (String "." x). cbn [String.eqb].
    destruct t; [done|]. done.
  - change ("." +:+ "." +:+ t) with (String "." (String "." t)).
    change ("." +:+ t) with (String "." t).
    assert (String.eqb (String "." e) t = false) as ->.
    { apply String.eqb_neq. intros <-. cbn in Hd. done. }
    assert (String.eqb (String "." e) (String "." (String "." t)) = false)
      as ->.
    { apply String.eqb_neq. intros [= ->]. cbn in He. done. }
    by rewrite orb_false_r.
Qed.

Lemma existsb_normalizeExtensions (urlStr : string) (exts : list string) :
  existsb (extMatches (urlExt urlStr)) (normalizeExtensions exts)
  = existsb (extMatches (urlExt urlStr)) (map TrimSpace exts).
Proof.
  unfold normalizeExtensions. induction exts as [|e exts IH]; [done|].
  cbn. by rewrite extMatches_normalizeExtension, IH.
Qed.

(** X17. The dot [normalizeExtensions] adds makes no difference to the
    filter: with the normalized lists [shouldDownload] decides as with
    the lists merely trimmed, so an extension can be given with or
    without its dot. *)
Theorem shouldDownload_dot_optional (d : Downloader)
    (inc exc : list string) (urlStr : string) :
  shouldDownload
    (withFilters d (normalizeExtensions inc) (normalizeExtensions exc)) urlStr
  = shouldDownload (withFilters d (map TrimSpace inc) (map TrimSpace exc))
                   urlStr.
Proof.
  rewrite !shouldDownload_spec. cbn [include exclude withFilters].
  rewrite !existsb_normalizeExtensions. by destruct inc.
Qed.

End filter_facts.

(** ** A pool without workers *)

Section pool_start.
Import pool.

(** X19. With [concurrency] 0 no worker is started: no step can be taken,
    nothing is fetched and the URLs stay in the channel. *)
Theorem pool_without_workers (d : Downloader) (urls : list string)
    (schedule : list nat) (s : state) :
  concurrency d = 0 ->
  run schedule (downloadURLs d urls) = Some s ->
  schedule = [] /\ fetched s = [] /\ urlChan s = filterURLs d urls.
Proof.
  intros Hc. unfold downloadURLs. rewrite Hc.
  destruct schedule as [|i schedule]; cbn [run].
  - by intros [= <-].
  - unfold step, start. cbn [workers replicate]. by rewrite lookup_nil.
Qed.

Lemma pool_without_workers_witness :
  let d := mkDownloader (New "out" false) ∅ 0 true [] [] in
  let urls := ["https://example.com/path/seg.ts"] in
  pool.fetched (pool.downloadURLs d urls) = []
  /\ pool.urlChan (pool.downloadURLs d urls) = filterURLs d urls.
Proof.
  cbn zeta.
  apply (pool_without_workers
           (mkDownloader (New "out" false) ∅ 0 true [] [])
           ["https://example.com/path/seg.ts"] []).
  - reflexivity.
  - reflexivity.
Defined.

End pool_start.

(** ** The crawl with one worker *)

Section crawl_facts.
Import crawl.

Lemma isVisited_mark_other (v : gmap string bool) (u u' : string) :
  isVisited v u' = true -> isVisited (markVisited v u) u' = true.
Proof.
  unfold isVisited, markVisited. intros H.
  destruct (decide (u = u')) as [->|Hne];
    [by rewrite lookup_insert_eq|by rewrite lookup_insert_ne].
Qed.

Lemma isVisited_mark_same (v : gmap string bool) (u : string) :
  isVisited (markVisited v u) u = true.
Proof. unfold isVisited, markVisited. by rewrite lookup_insert_eq. Qed.

Lemma sameCrawl_fetchedOnce (before : gmap string bool) (s s' : state) :
  sameCrawl s s' -> fetchedOnce before s -> fetchedOnce before s'.
Proof. unfold fetchedOnce. intros [-> ->]. done. Qed.

Lemma WriteFile_same (w : World) (urlStr content : string) (s : state) :
  sameCrawl s (WriteFile w urlStr content s).1.
Proof.
  unfold WriteFile.
  destruct (GetLocalPath (fs s) urlStr) as [fs' [localPath|err]]; [|by split].
  unfold osDo.
  repeat match goal with
  | |- context [osError w ?n ?c] => destruct (osError w n c)
  end; by split.
Qed.

Lemma writeM3U8_same (d : Downloader) (w : World) (m3u8URL content : string)
    (s : state) :
  sameCrawl s (writeM3U8 d w m3u8URL content s).1.
Proof.
  unfold writeM3U8.
  destruct (rewriteURLs d).
  - destruct (RewriteM3U8URLs content m3u8URL (fs s)) as [[[r|e]|v] fs'];
      cbn [fst]; try by split.
    + pose proof (WriteFile_same w m3u8URL r (setFs s fs')) as H.
      destruct (WriteFile w m3u8URL r (setFs s fs')) as [s1 [p|err]];
        cbn [fst] in *; destruct H; by split.
    + pose proof (WriteFile_same w m3u8URL content (setFs s fs')) as H.
      destruct (WriteFile w m3u8URL content (setFs s fs')) as [s1 [p|err]];
        cbn [fst] in *; destruct H; by split.
  - pose proof (WriteFile_same w m3u8URL content s) as H.
    destruct (WriteFile w m3u8URL content s) as [s1 [p|err]];
      cbn [fst] in *; destruct H; by split.
Qed.

(** Marking an unvisited URL and fetching it keeps the invariant. *)
Lemma fetch_fetchedOnce (before : gmap string bool) (w : World)
    (urlStr : string) (s : state) :
  fetchedOnce before s ->
  isVisited (visited s) urlStr = false ->
  fetchedOnce before (fetch w urlStr (markVisitedIn s urlStr)).1.
Proof.
  intros (Hnd & Hf & Hmono) Hnew. unfold fetch, markVisitedIn, fetchedOnce.
  cbn [fst fetched visited]. split; [|split].
  - constructor; [|done]. intros Hin. apply Hf in Hin as [_ Hin]. congruence.
  - intros u [->|Hin]%elem_of_cons.
    + split; [|apply isVisited_mark_same].
      destruct (isVisited before urlStr) eqn:Hb; [|done].
      apply Hmono in Hb. congruence.
    + destruct (Hf u Hin) as [? ?]. split; [done|].
      by apply isVisited_mark_other.
  - intros u Hu. apply isVisited_mark_other. by apply Hmono.
Qed.

Lemma downloadURL_fetchedOnce (before : gmap string bool)
    (downloadM3U8 : string -> state -> state * status) (w : World)
    (urlStr : string) (isM3U8 : bool) (s : state) :
  (forall u s0, fetchedOnce before s0 -> fetchedOnce before (downloadM3U8 u s0).1) ->
  fetchedOnce before s ->
  fetchedOnce before (downloadURL downloadM3U8 w urlStr isM3U8 s).1.
Proof.
  intros Hrec Hs. unfold downloadURL. destruct isM3U8; [by apply Hrec|].
  destruct (isVisited (visited s) urlStr) eqn:Hv; [done|].
  pose proof (fetch_fetchedOnce before w urlStr s Hs Hv) as H1.
  destruct (fetch w urlStr (markVisitedIn s urlStr)) as [s1 [content|err]];
    cbn [fst] in *; [|done].
  pose proof (WriteFile_same w urlStr content s1) as H2.
  destruct (WriteFile w urlStr content s1) as [s2 [p|err]]; cbn [fst] in *.
  - eapply sameCrawl_fetchedOnce; [|exact H1].
    destruct H2. by split.
  - by eapply sameCrawl_fetchedOnce.
Qed.

Lemma worker_fetchedOnce (before : gmap string bool)
    (f : string -> state -> state * status) (urlChan : list string)
    (s : state) :
  (forall u s0, fetchedOnce before s0 -> fetchedOnce before (f u s0).1) ->
  fetchedOnce before s ->
  fetchedOnce before (worker f urlChan s).1.
Proof.
  intros Hf. revert s. induction urlChan as [|u rest IH]; intros s Hs;
    cbn [worker]; [done|].
  specialize (Hf u s Hs).
  destruct (f u s) as [s1 [[err|]| | |]]; cbn [fst] in *; try done.
  by apply IH.
Qed.

Lemma downloadM3U8_fetchedOnce (before : gmap string bool) (fuel : nat)
    (d : Downloader) (w : World) (m3u8URL : string) (s : state) :
  fetchedOnce before s ->
  fetchedOnce before (downloadM3U8 fuel d w m3u8URL s).1.
Proof.
  revert m3u8URL s. induction fuel as [|fuel IH]; intros m3u8URL s Hs;
    cbn [downloadM3U8]; [done|].
  destruct (isVisited (visited s) m3u8URL) eqn:Hv; [done|].
  pose proof (fetch_fetchedOnce before w m3u8URL s Hs Hv) as H1.
  destruct (fetch w m3u8URL (markVisitedIn s m3u8URL)) as [s1 [content|err]];
    cbn [fst] in *; [|done].
  destruct (GoUrl.Parse m3u8URL) as [parsedURL|err]; [|done].
  destruct (ParseM3U8 content parsedURL) as [m3u8File|err]; [|done].
  assert (fetchedOnce before
            (downloadURLs (downloadM3U8 fuel d w) d w (URLs m3u8File)
                          (IsM3U8 m3u8File) s1).1) as H2.
  { unfold downloadURLs.
    destruct (filterURLs d (URLs m3u8File)) as [|u0 rest]; [done|].
    destruct (concurrency d) as [|[|n]]; [done| |done].
    apply worker_fetchedOnce; [|done].
    intros u s0 Hs0. apply downloadURL_fetchedOnce; [|done].
    intros u' s' Hs'. by apply IH. }
  destruct (downloadURLs _ _ _ _ _ s1) as [s2 [[err|]| | |]];
    cbn [fst] in *; try done.
  eapply sameCrawl_fetchedOnce; [apply writeM3U8_same|done].
Qed.

Lemma worker_sequential (f : string -> state -> state * status)
    (urlChan : list string) (s : state) :
  (forall u s0, (f u s0).2 <> Concurrent) ->
  (worker f urlChan s).2 <> Concurrent.
Proof.
  intros Hf. revert s. induction urlChan as [|u rest IH]; intros s;
    cbn [worker]; [done|].
  specialize (Hf u s).
  destruct (f u s) as [s1 [[err|]| | |]]; cbn [snd] in *; done.
Qed.

Lemma writeM3U8_sequential (d : Downloader) (w : World)
    (m3u8URL content : string) (s : state) :
  (writeM3U8 d w m3u8URL content s).2 <> Concurrent.
Proof.
  unfold writeM3U8.
  destruct (rewriteURLs d);
    [destruct (RewriteM3U8URLs content m3u8URL (fs s)) as [[[r|e]|v] fs']|];
    cbn [snd]; try done;
    match goal with
    | |- context [WriteFile ?w ?u ?c ?s] =>
        by destruct (WriteFile w u c s) as [s1 [p|err]]
    end.
Qed.

Lemma downloadM3U8_sequential (fuel : nat) (d : Downloader) (w : World)
    (m3u8URL : string) (s : state) :
  concurrency d = 1 ->
  (downloadM3U8 fuel d w m3u8URL s).2 <> Concurrent.
Proof.
  intros Hone. revert m3u8URL s.
  induction fuel as [|fuel IH]; intros m3u8URL s; cbn [downloadM3U8]; [done|].
  destruct (isVisited (visited s) m3u8URL); [done|].
  destruct (fetch w m3u8URL (markVisitedIn s m3u8URL)) as [s1 [content|err]];
    [|done].
  destruct (GoUrl.Parse m3u8URL) as [parsedURL|err]; [|done].
  destruct (ParseM3U8 content parsedURL) as [m3u8File|err]; [|done].
  assert ((downloadURLs (downloadM3U8 fuel d w) d w (URLs m3u8File)
                        (IsM3U8 m3u8File) s1).2 <> Concurrent) as H2.
  { unfold downloadURLs. rewrite Hone.
    destruct (filterURLs d (URLs m3u8File)) as [|u0 rest]; [done|].
    apply worker_sequential. intros u s0. unfold downloadURL.
    destruct (default false (IsM3U8 m3u8File !! u)); [apply IH|].
    destruct (isVisited (visited s0) u); [done|].
    destruct (fetch w u (markVisitedIn s0 u)) as [s2 [c|err]]; [|done].
    by destruct (WriteFile w u c s2) as [s3 [p|err]]. }
  destruct (downloadURLs _ _ _ _ _ s1) as [s2 [[err|]| | |]];
    cbn [snd] in *; try done.
  apply writeM3U8_sequential.
Qed.

(** X20. With [concurrency] 1 the whole crawl of [Download], nested
    playlists included, fetches no URL twice, whatever the server
    answers and whatever fails: as far as the crawl is run, the URLs
    fetched are pairwise distinct, none of them was visited before the
    crawl and all of them are marked visited. The status [Concurrent]
    does not occur. *)
Theorem sequential_crawl_fetches_once (fuel : nat) (d : Downloader)
    (w : World) (m3u8URL : string) (verbose : bool) (now : Z)
    (s : state) (st : status) :
  concurrency d = 1 ->
  Download fuel d w m3u8URL (start d verbose now) = (s, st) ->
  fetchedOnce (downloader.visited d) s /\ st <> Concurrent.
Proof.
  intros Hone. unfold Download.
  assert (fetchedOnce (downloader.visited d) (start d verbose now)) as Hstart.
  { unfold fetchedOnce, start. cbn [fetched visited].
    split; [constructor|]. split; [|done].
    intros u Hu. by apply elem_of_nil in Hu. }
  pose proof (downloadM3U8_fetchedOnce _ fuel d w m3u8URL _ Hstart) as Hinv.
  pose proof (downloadM3U8_sequential fuel d w m3u8URL
                (start d verbose now) Hone) as Hseq.
  destruct (downloadM3U8 fuel d w m3u8URL (start d verbose now))
    as [s1 [[err|]| | |]]; cbn [fst snd] in *; intros [= <- <-]; done.
Qed.

Lemma sequential_crawl_fetches_once_witness :
  let segment := "https://example.com/path/seg.ts" in
  let nested := "https://example.com/path/a.m3u8" in
  let d := mkDownloader (New "out" false) ∅ 1 true [] [] in
  let w := mkWorld
             (fun _ urlStr =>
                if String.eqb urlStr exampleSource
                then inl ("a.m3u8" +:+ nl +:+ "seg.ts" +:+ nl)
                else if String.eqb urlStr nested then inl ("seg.ts" +:+ nl)
                else inl "data")
             (fun _ _ => None) in
  exists s,
    Download 3 d w exampleSource (start d false 0) = (s, Returns None)
    /\ fetched s = [segment; nested; exampleSource]
    /\ fetchedOnce ∅ s.
Proof.
  cbn zeta. eexists. split; [vm_compute; reflexivity|].
  split; [reflexivity|].
  apply (sequential_crawl_fetches_once 3
           (mkDownloader (New "out" false) ∅ 1 true [] [])
           (mkWorld
             (fun _ urlStr =>
                if String.eqb urlStr exampleSource
                then inl ("a.m3u8" +:+ nl +:+ "seg.ts" +:+ nl)
                else if String.eqb urlStr "https://example.com/path/a.m3u8"
                     then inl ("seg.ts" +:+ nl)
                else inl "data")
             (fun _ _ => None))
           exampleSource false 0 _ (Returns None)).
  - reflexivity.
  - vm_compute; reflexivity.
Defined.

End crawl_facts.

(** ** The progress tracker *)

Section progress_facts.
Import progress.
Local Open Scope Z_scope.

Lemma wrap64_small (z : Z) : - 2 ^ 63 <= z < 2 ^ 63 -> wrap64 z = z.
Proof. intros H. unfold wrap64. rewrite Z.mod_small; lia. Qed.

Lemma wrap64_add (a b : Z) : wrap64 (wrap64 a + b) = wrap64 (a + b).
Proof.
  unfold wrap64.
  replace (((a + 2 ^ 63) mod 2 ^ 64 - 2 ^ 63 + b) + 2 ^ 63)
    with ((a + 2 ^ 63) mod 2 ^ 64 + b) by lia.
  replace (a + b + 2 ^ 63) with ((a + 2 ^ 63) + b) by lia.
  by rewrite Zplus_mod_idemp_l.
Qed.

Lemma wrap64_add_r (a b : Z) : wrap64 (a + wrap64 b) = wrap64 (a + b).
Proof. by rewrite (Z.add_comm a), wrap64_add, Z.add_comm. Qed.

Lemma fold_disabled (calls : list trackerCall) (p : ProgressTracker) :
  enabled p = false -> fold_left applyCall calls p = p.
Proof.
  intros Hoff. induction calls as [|c calls IH]; [done|].
  cbn [fold_left].
  assert (applyCall p c = p) as ->; [|done].
  destruct c; cbn [applyCall];
    unfold SetTotalFiles, IncrementM3U8, IncrementSegment, AddBytes;
    by rewrite Hoff.
Qed.

Lemma applyCall_enabled (p : ProgressTracker) (c : trackerCall) :
  enabled (applyCall p c) = enabled p.
Proof.
  destruct c; cbn [applyCall];
    unfold SetTotalFiles, IncrementM3U8, IncrementSegment, AddBytes;
    by destruct (enabled p) eqn:E.
Qed.

Lemma fold_enabled (calls : list trackerCall) (p : ProgressTracker) :
  enabled p = true ->
  let q := fold_left applyCall calls p in
  (downloadedFiles p = wrap64 (m3u8Files p + segmentFiles p) ->
   downloadedFiles q = wrap64 (m3u8Files q + segmentFiles q))
  /\ (forall acc, downloadedBytes p = wrap64 acc ->
      downloadedBytes q
      = wrap64 (acc + fold_right Z.add 0 (map callBytes calls))).
Proof.
  revert p. induction calls as [|c calls IH]; intros p Hon; cbn zeta.
  { cbn [fold_left map fold_right]. split; [done|].
    intros acc ->. by rewrite Z.add_0_r. }
  cbn [fold_left map fold_right].
  destruct (IH (applyCall p c)) as [IHfiles IHbytes].
  { by rewrite applyCall_enabled. }
  split.
  - intros Hfiles. apply IHfiles.
    destruct c; cbn [applyCall];
      unfold SetTotalFiles, IncrementM3U8, IncrementSegment, AddBytes;
      rewrite Hon; cbn [negb downloadedFiles m3u8Files segmentFiles];
      try done; rewrite Hfiles, !wrap64_add, ?wrap64_add_r; f_equal; lia.
  - intros acc Hacc.
    rewrite (IHbytes (acc + callBytes c)); [f_equal; lia|].
    destruct c; cbn [applyCall callBytes];
      unfold SetTotalFiles, IncrementM3U8, IncrementSegment, AddBytes;
      rewrite Hon; cbn [negb downloadedBytes];
      rewrite Hacc, ?wrap64_add, ?Z.add_0_r; done.
Qed.

(** X21. The counters of the tracker agree: after any calls on a new
    tracker, the files downloaded are the playlists plus the segments
    and the bytes downloaded are the sum of the bytes reported, in
    64-bit arithmetic; a tracker that is not enabled never changes. *)
Theorem ProgressTracker_counters (on verbose : bool) (now : Z)
    (calls : list trackerCall) :
  let p := fold_left applyCall calls (NewProgressTracker on verbose now) in
  downloadedFiles p = wrap64 (m3u8Files p + segmentFiles p)
  /\ downloadedBytes p
     = (if on then wrap64 (fold_right Z.add 0 (map callBytes calls)) else 0)
  /\ (on = false -> p = NewProgressTracker on verbose now).
Proof.
  cbn zeta. destruct on.
  - destruct (fold_enabled calls (NewProgressTracker true verbose now))
      as [Hfiles Hbytes]; [done|].
    split; [by apply Hfiles|]. split; [|done].
    by rewrite (Hbytes 0).
  - rewrite fold_disabled by done. done.
Qed.

Lemma Round_Second (d : Z) :
  0 <= d <= maxDuration - Second ->
  Round d Second = (d + Second / 2) / Second * Second.
Proof.
  unfold maxDuration, Second. intros Hd.
  unfold Round, lessThanHalf, Second.
  change (1000000000 / 2) with 500000000.
  change (1000000000 <=? 0) with false. cbv iota.
  rewrite Z.rem_mod_nonneg by lia.
  destruct (Z.ltb_spec d 0) as [?|_]; [lia|].
  set (r := d mod 1000000000).
  assert (0 <= r < 1000000000) as Hr by (apply Z.mod_pos_bound; lia).
  assert (d = 1000000000 * (d / 1000000000) + r) as Hdiv
    by (apply Z.div_mod; lia).
  clearbody r.
  rewrite (Z.mod_small r) by lia.
  rewrite (Z.mod_small (r + r)) by lia.
  rewrite (Z.mod_small 1000000000) by lia.
  destruct (Z.ltb_spec (r + r) 1000000000) as [Hlt|Hge].
  - rewrite wrap64_small by lia.
    rewrite <- (Z.div_unique (d + 500000000) 1000000000
                  (d / 1000000000) (r + 500000000)); lia.
  - rewrite (wrap64_small (d + 1000000000)) by lia.
    rewrite wrap64_small by lia.
    destruct (Z.ltb_spec d (d + 1000000000 - r)) as [_|?]; [|lia].
    rewrite <- (Z.div_unique (d + 500000000) 1000000000
                  (d / 1000000000 + 1) (r - 500000000)); lia.
Qed.

(** X22. [formatDuration] shows the duration rounded to the nearest second,
    a half second going up, split into hours, minutes below 60 and
    seconds below 60. *)
Theorem formatDuration_nearest_second (d : Z) :
  0 <= d <= maxDuration - Second ->
  let total := (d + Second / 2) / Second in
  formatDuration d
  = clock (total / 3600) (total / 60 mod 60) (total mod 60).
Proof.
  intros Hd. cbn zeta. unfold formatDuration, clockFields.
  rewrite Round_Second by done.
  unfold maxDuration, Second in Hd.
  unfold Hour, Minute, Second.
  change (2 ^ 63) with 9223372036854775808 in Hd.
  change (1000000000 / 2) with 500000000.
  change (60 * (60 * 1000000000)) with 3600000000000.
  change (60 * 1000000000) with 60000000000.
  set (total := (d + 500000000) / 1000000000).
  assert (0 <= total <= 9223372036) as Ht
    by (subst total; Z.div_mod_to_equations; lia).
  clearbody total.
  assert (Z.quot (total * 1000000000) 3600000000000 = total / 3600) as ->.
  { rewrite Z.quot_div_nonneg by lia. Z.div_mod_to_equations. lia. }
  rewrite (wrap64_small (total / 3600 * _))
    by (change (2 ^ 63) with 9223372036854775808;
        Z.div_mod_to_equations; lia).
  rewrite (wrap64_small (total * _ - _))
    by (change (2 ^ 63) with 9223372036854775808;
        Z.div_mod_to_equations; lia).
  assert (Z.quot (total * 1000000000 - total / 3600 * 3600000000000)
            60000000000 = total / 60 mod 60) as ->.
  { rewrite Z.quot_div_nonneg by (Z.div_mod_to_equations; lia).
    Z.div_mod_to_equations. lia. }
  rewrite (wrap64_small (total / 60 mod 60 * _))
    by (change (2 ^ 63) with 9223372036854775808;
        Z.div_mod_to_equations; lia).
  rewrite (wrap64_small (_ - _ - _))
    by (change (2 ^ 63) with 9223372036854775808;
        Z.div_mod_to_equations; lia).
  assert (Z.quot (total * 1000000000 - total / 3600 * 3600000000000
                  - total / 60 mod 60 * 60000000000) 1000000000
          = total mod 60) as ->.
  { rewrite Z.quot_div_nonneg by (Z.div_mod_to_equations; lia).
    Z.div_mod_to_equations. lia. }
  done.
Qed.

Lemma formatDuration_nearest_second_witness :
  0 <= 3725500000000 <= maxDuration - Second
  /\ formatDuration 3725500000000 = "1h 2m 6s"%string.
Proof.
  split; [unfold maxDuration, Second; lia|].
  by rewrite (formatDuration_nearest_second 3725500000000)
    by (unfold maxDuration, Second; lia).
Defined.

Ltac divlia := Z.div_mod_to_equations; lia.

Ltac scaleLoop_round :=
  cbn [scaleLoop]; unfold unit;
  match goal with
  | |- context [1024 <=? ?n] =>
      destruct (Z.leb_spec 1024 n); try (exfalso; divlia)
  end;
  rewrite ?Z.quot_div_nonneg by divlia;
  repeat match goal with
  | |- context [wrap64 ?x] =>
      let v := eval vm_compute in (wrap64 x) in change (wrap64 x) with v
  end.

Lemma formatBytes_loop (bytes : Z) :
  unit <= bytes < 2 ^ 63 ->
  scaleLoop 7 (Z.quot bytes unit) unit 0
  = if bytes <? unit ^ 2 then (unit, 0%nat)
    else if bytes <? unit ^ 3 then (unit ^ 2, 1%nat)
    else if bytes <? unit ^ 4 then (unit ^ 3, 2%nat)
    else if bytes <? unit ^ 5 then (unit ^ 4, 3%nat)
    else if bytes <? unit ^ 6 then (unit ^ 5, 4%nat)
    else (unit ^ 6, 5%nat).
Proof.
  unfold unit. change (2 ^ 63) with 9223372036854775808.
  change (1024 ^ 2) with 1048576. change (1024 ^ 3) with 1073741824.
  change (1024 ^ 4) with 1099511627776.
  change (1024 ^ 5) with 1125899906842624.
  change (1024 ^ 6) with 1152921504606846976.
  intros Hb. rewrite Z.quot_div_nonneg by lia.
  repeat match goal with
  | |- context [bytes <? ?c] => destruct (Z.ltb_spec bytes c)
  end; try lia; repeat scaleLoop_round; reflexivity.
Qed.

(** X23. From one kibibyte up to (not including) one pebibyte [formatBytes]
    divides by the largest power of 1024 that is at most the count and
    names the unit of that power. *)
Theorem formatBytes_unit (bytes : Z) (k : nat) (u : string) :
  units !! k = Some u ->
  unit ^ (Z.of_nat k + 1) <= bytes < unit ^ (Z.of_nat k + 2) ->
  formatBytes bytes
  = Text (fixed1 bytes (unit ^ (Z.of_nat k + 1)) +:+ " " +:+ u).
Proof.
  intros Hu Hb. unfold formatBytes.
  assert (unit <= bytes < 2 ^ 63 /\ bytes < unit ^ 5) as [Hrange Hlt].
  { destruct k as [|[|[|[|k]]]]; [| | | |done];
      revert Hb; unfold unit; cbn [Z.of_nat Pos.of_succ_nat Pos.succ];
      match goal with
      | |- ?lo <= _ < ?hi -> _ =>
          let a := eval vm_compute in lo in
          let b := eval vm_compute in hi in
          change lo with a; change hi with b
      end;
      change (2 ^ 63) with 9223372036854775808;
      change (1024 ^ 5) with 1125899906842624; lia. }
  destruct (Z.ltb_spec bytes unit) as [?|_]; [lia|].
  rewrite formatBytes_loop by done.
  destruct k as [|[|[|[|k]]]]; [| | | |done];
    cbn in Hu; injection Hu as <-;
    revert Hb Hlt; unfold unit; cbn [Z.of_nat Pos.of_succ_nat Pos.succ];
    match goal with
    | |- ?lo <= _ < ?hi -> _ =>
        let a := eval vm_compute in lo in
        let b := eval vm_compute in hi in
        change lo with a; change hi with b
    end;
    change (1024 ^ 2) with 1048576; change (1024 ^ 3) with 1073741824;
    change (1024 ^ 4) with 1099511627776;
    change (1024 ^ 5) with 1125899906842624;
    intros Hb Hlt;
    repeat match goal with
    | |- context [bytes <? ?c] =>
        destruct (Z.ltb_spec bytes c); try lia
    end; reflexivity.
Qed.

Lemma formatBytes_unit_witness :
  units !! 1%nat = Some "MB"%string
  /\ unit ^ (Z.of_nat 1 + 1) <= 1572864 < unit ^ (Z.of_nat 1 + 2)
  /\ formatBytes 1572864 = Text "1.5 MB".
Proof.
  assert (unit ^ (Z.of_nat 1 + 1) <= 1572864 < unit ^ (Z.of_nat 1 + 2))
    as Hb by (vm_compute; split; [discriminate|reflexivity]).
  split; [reflexivity|]. split; [exact Hb|].
  exact (formatBytes_unit 1572864 1 "MB" eq_refl Hb).
Defined.

(** X24. From one pebibyte on [formatBytes] does not return: the unit table
    has four entries and the index computed is 4 or 5. *)
Theorem formatBytes_out_of_units (bytes : Z) :
  unit ^ 5 <= bytes < 2 ^ 63 ->
  formatBytes bytes
  = IndexOutOfRange (if bytes <? unit ^ 6 then 4 else 5) (List.length units).
Proof.
  intros Hb. unfold formatBytes.
  assert (unit <= bytes < 2 ^ 63) as Hrange.
  { revert Hb. unfold unit. change (1024 ^ 5) with 1125899906842624. lia. }
  destruct (Z.ltb_spec bytes unit) as [?|_]; [lia|].
  rewrite formatBytes_loop by done.
  revert Hb. unfold unit.
  change (1024 ^ 2) with 1048576; change (1024 ^ 3) with 1073741824;
    change (1024 ^ 4) with 1099511627776;
    change (1024 ^ 5) with 1125899906842624;
    change (1024 ^ 6) with 1152921504606846976.
  intros Hb.
  repeat match goal with
  | |- context [bytes <? ?c] => destruct (Z.ltb_spec bytes c); try lia
  end; reflexivity.
Qed.

Lemma formatBytes_out_of_units_witness :
  unit ^ 5 <= 1125899906842624 < 2 ^ 63
  /\ formatBytes 1125899906842624 = IndexOutOfRange 4 4.
Proof.
  assert (unit ^ 5 <= 1125899906842624 < 2 ^ 63) as Hb
    by (vm_compute; split; [discriminate|reflexivity]).
  split; [exact Hb|].
  exact (formatBytes_out_of_units 1125899906842624 Hb).
Defined.

End progress_facts.
